(** * The OSMnx tutorial notebook (L8_osmnx-basics.ipynb)

    The notebook is a sequence of code cells that call into osmnx, networkx,
    geopandas and pandas.  This development embeds the cells as programs of a
    small state-and-exception monad over a Python-like store: a namespace of
    variables, a heap of mutable objects (graphs and dictionaries), and a
    trace of the library calls made so far, each with its outcome.

    The first part is the model: Python dictionaries and [max], the graph and
    table data, the libraries as an oracle, the cells, and the vocabulary of
    the specifications.  The second part proves the properties: what the
    glue of the cells keeps, how failures propagate, and what the filter, the
    centrality step, the highlight lists, the flattening of the statistics
    and the exports leave behind.  The last part follows single cells
    further: which maximum is selected, what a cell does on an empty graph or
    without a name it reads, which row the polygon is taken from, what the
    flattened dictionary holds, that names are bound before they are read,
    and that the notebook runs to its end when the libraries answer as it
    expects. *)

From stdpp Require Import base option list gmap strings pretty.
From Stdlib Require Import Ascii ZArith QArith.

Local Open Scope Z_scope.
Local Open Scope string_scope.
Local Open Scope list_scope.

(** * The model *)

(** ** Python exceptions and results *)

Inductive exn :=
| NameError (name : string)
| KeyError (key : string)
| AttributeError (name : string)
| TypeError
| ValueError
| RuntimeError
| RecursionError
| LibraryError (origin msg : string).

Inductive result (A : Type) :=
| Ok (a : A)
| Raise (e : exn).
Arguments Ok {A} a.
Arguments Raise {A} e.

(** ** Python dictionaries

    A [dict] keeps its items in insertion order and never holds a key twice.
    Assigning to a present key replaces the value in place; assigning to an
    absent key appends the item. *)

Section dict.
Context {K V : Type} `{!EqDecision K}.

Fixpoint assoc_get (k : K) (l : list (K * V)) : option V :=
  match l with
  | [] => None
  | (k', v) :: l => if decide (k = k') then Some v else assoc_get k l
  end.

Fixpoint assoc_set (k : K) (v : V) (l : list (K * V)) : list (K * V) :=
  match l with
  | [] => [(k, v)]
  | (k', v') :: l =>
      if decide (k = k') then (k', v) :: l else (k', v') :: assoc_set k v l
  end.

Fixpoint assoc_del (k : K) (l : list (K * V)) : list (K * V) :=
  match l with
  | [] => []
  | (k', v') :: l =>
      if decide (k = k') then l else (k', v') :: assoc_del k l
  end.

Lemma assoc_set_keys k v l :
  (assoc_set k v l).*1 = if decide (k ∈ l.*1) then l.*1 else l.*1 ++ [k].
Proof.
  induction l as [|[k' v'] l IH]; csimpl.
  - destruct (decide (k ∈ [])) as [H|]; [by inversion H | done].
  - destruct (decide (k = k')) as [->|Hne]; csimpl.
    + rewrite decide_True; [done | left].
    + rewrite IH. destruct (decide (k ∈ l.*1)) as [Hin|Hnin].
      * rewrite decide_True; [done | by right].
      * rewrite decide_False; [done |].
        intros [?|?]%elem_of_cons; done.
Qed.

Lemma assoc_set_NoDup k v l : NoDup l.*1 → NoDup (assoc_set k v l).*1.
Proof.
  intros Hnd. rewrite assoc_set_keys. case_decide as Hin; [done |].
  apply NoDup_app. split_and!; [done | | apply NoDup_singleton].
  intros x Hx ->%list_elem_of_singleton. done.
Qed.

Lemma assoc_del_keys_sub k l x : x ∈ (assoc_del k l).*1 → x ∈ l.*1.
Proof.
  induction l as [|[k' v'] l IH]; csimpl; [done |].
  case_decide; csimpl.
  - by right.
  - intros [->|?]%elem_of_cons; [left | right; auto].
Qed.

Lemma assoc_del_NoDup k l : NoDup l.*1 → NoDup (assoc_del k l).*1.
Proof.
  induction l as [|[k' v'] l IH]; csimpl; [done |].
  intros [Hnin Hnd]%NoDup_cons. case_decide; simpl; [done |].
  apply NoDup_cons. split; [| auto].
  intros Hin. by apply Hnin, (assoc_del_keys_sub k).
Qed.

Record dict := Dict {
  items : list (K * V);
  items_nodup : bool_decide (NoDup items.*1)
}.

Lemma dict_NoDup (d : dict) : NoDup (items d).*1.
Proof. eapply bool_decide_unpack, items_nodup. Qed.

Lemma empty_nodup : bool_decide (NoDup (@nil (K * V)).*1).
Proof. apply bool_decide_pack, NoDup_nil_2. Qed.

Definition dict_empty : dict := Dict [] empty_nodup.

Definition dict_get (k : K) (d : dict) : option V := assoc_get k (items d).

Lemma set_nodup k v (d : dict) :
  bool_decide (NoDup (assoc_set k v (items d)).*1).
Proof. apply bool_decide_pack, assoc_set_NoDup, dict_NoDup. Qed.

Definition dict_set (k : K) (v : V) (d : dict) : dict :=
  Dict (assoc_set k v (items d)) (set_nodup k v d).

Lemma del_nodup k (d : dict) :
  bool_decide (NoDup (assoc_del k (items d)).*1).
Proof. apply bool_decide_pack, assoc_del_NoDup, dict_NoDup. Qed.

(** [del d[k]]: the caller raises [KeyError] when the key is absent. *)
Definition dict_del (k : K) (d : dict) : dict :=
  Dict (assoc_del k (items d)) (del_nodup k d).

Definition dict_keys (d : dict) : list K := (items d).*1.
Definition dict_len (d : dict) : nat := length (items d).

End dict.
Arguments dict K V {_}.

(** ** Floats and scores

    The centrality scores the notebook handles are Python floats: a number,
    an infinity, or NaN, with which every comparison is [False].  Numbers are
    rationals: rounding is not modelled.  The score the spec defines for a
    node is a rational. *)

Inductive pyfloat :=
| Num (q : Q)
| PInf
| NInf
| NaN.

Coercion Num : Q >-> pyfloat.

Abbreviation score := Q.

Definition Qgtb (x y : Q) : bool := negb (Qle_bool x y).

(** [x > y] and [x >= y] *)
Definition float_gt (x y : pyfloat) : bool :=
  match x, y with
  | NaN, _ | _, NaN => false
  | Num a, Num b => Qgtb a b
  | PInf, PInf => false
  | PInf, _ => true
  | _, PInf => false
  | NInf, _ => false
  | Num _, NInf => true
  end.

Definition float_ge (x y : pyfloat) : bool :=
  match x, y with
  | NaN, _ | _, NaN => false
  | Num a, Num b => Qle_bool b a
  | PInf, _ => true
  | _, NInf => true
  | _, PInf => false
  | NInf, _ => false
  end.

(** ** The builtin [max(iterable, key=...)]

    The first item is the initial maximum; a later item replaces it only when
    its key is strictly greater.  An empty iterable raises [ValueError]. *)

Section py_max.
Context {A : Type} (key : A → pyfloat).

Fixpoint max_scan (maxitem : A) (rest : list A) : A :=
  match rest with
  | [] => maxitem
  | item :: rest =>
      if float_gt (key item) (key maxitem)
      then max_scan item rest
      else max_scan maxitem rest
  end.

Definition py_max (l : list A) : result A :=
  match l with
  | [] => Raise ValueError
  | item :: rest => Ok (max_scan item rest)
  end.

End py_max.

(** ** Street-network graphs (networkx [MultiDiGraph])

    Nodes are OSM identifiers.  [g_node] is the graph's node dictionary: it
    maps each node to its attribute dictionary, and [G.nodes] iterates over its
    keys.  Edges carry their end points, their key among parallel edges and
    their attribute dictionary. *)

Abbreviation node := Z.

Inductive attr :=
| AFloat (x : pyfloat)
| AInt (n : Z)
| AStr (s : string)
| AOther (tag : string).

Record edge := Edge {
  e_u : node;
  e_v : node;
  e_key : Z;
  e_data : dict string attr
}.

Record graph := Graph {
  g_attrs : dict string attr;
  g_node : dict node (dict string attr);
  g_edges : list edge
}.

Definition graph_nodes (g : graph) : list node := dict_keys (g_node g).

Definition node_attr (g : graph) (n : node) (name : string) : option attr :=
  a ← dict_get n (g_node g); dict_get name a.

(** Modelled from the spec: [nx.set_node_attributes(G, values, name)] is
    networkx code, absent from the repository.  It attaches [values] onto the
    graph as the node attribute [name]: for every item [(n, v)] of [values] it
    assigns [G.nodes[n][name] = v], and passes over a key that is not a node
    of [G]. *)
Definition set_node_attr (name : string) (g : graph) (nv : node * pyfloat) : graph :=
  match dict_get nv.1 (g_node g) with
  | Some a =>
      Graph (g_attrs g)
            (dict_set nv.1 (dict_set name (AFloat nv.2) a) (g_node g))
            (g_edges g)
  | None => g
  end.

Definition set_node_attributes
    (g : graph) (values : dict node pyfloat) (name : string) : graph :=
  foldl (set_node_attr name) g (items values).

(** ** Betweenness centrality

    Modelled from the spec: [nx.betweenness_centrality(G, weight=...)] is
    networkx code, absent from the repository.  The score of a node is the
    fraction of the shortest paths between all pairs of nodes that pass
    through it: for every ordered pair of distinct nodes other than the node
    itself, the share of the shortest paths from the first to the second that
    pass through the node, and these shares averaged over the
    [(n - 1) * (n - 2)] pairs.  Paths are measured by the edge attribute
    [weight], an edge without it, or with one that is not a number, counting
    [1]. *)

Definition edge_weight (weight : string) (e : edge) : Q :=
  match dict_get weight (e_data e) with
  | Some (AFloat (Num x)) => x
  | Some (AInt n) => inject_Z n
  | _ => 1%Q
  end.

Definition Qsum (l : list Q) : Q := foldr Qplus 0%Q l.

Definition path_weight (weight : string) (p : list edge) : Q :=
  Qsum (edge_weight weight <$> p).

(** The paths from [u] to [t] that visit no node twice, as lists of edges. *)
Fixpoint simple_paths (g : graph) (fuel : nat) (visited : list node)
    (u t : node) : list (list edge) :=
  if bool_decide (u = t) then [[]]
  else match fuel with
       | O => []
       | S fuel =>
           flat_map (λ e,
             if bool_decide (e_u e = u) && bool_decide (e_v e ∉ visited)
             then cons e <$> simple_paths g fuel (e_v e :: visited) (e_v e) t
             else []) (g_edges g)
       end.

Definition paths (g : graph) (s t : node) : list (list edge) :=
  simple_paths g (length (graph_nodes g)) [s] s t.

(** The paths from [s] to [t] that no path from [s] to [t] is shorter than. *)
Definition shortest_paths (g : graph) (weight : string) (s t : node)
    : list (list edge) :=
  List.filter
    (λ p, forallb (λ p', Qle_bool (path_weight weight p) (path_weight weight p'))
                  (paths g s t))
    (paths g s t).

Definition through (v : node) (p : list edge) : bool :=
  bool_decide (v ∈ e_v <$> p).

(** The share of the shortest paths from [s] to [t] that pass through [v];
    [0] when [t] cannot be reached from [s]. *)
Definition pair_share (g : graph) (weight : string) (v s t : node) : Q :=
  let sp := shortest_paths g weight s t in
  match sp with
  | [] => 0%Q
  | _ => Z.of_nat (length (List.filter (through v) sp)) # Pos.of_nat (length sp)
  end.

(** The ordered pairs of distinct nodes other than [v]. *)
Definition pairs_without (v : node) (nodes : list node) : list (node * node) :=
  let others := List.filter (λ s, negb (bool_decide (s = v))) nodes in
  flat_map (λ s,
    pair s <$> List.filter (λ t, negb (bool_decide (t = s))) others) others.

Definition node_score (g : graph) (weight : string) (v : node) : Q :=
  let n := length (graph_nodes g) in
  let total :=
    Qsum ((λ st, pair_share g weight v st.1 st.2)
            <$> pairs_without v (graph_nodes g)) in
  Qred (if bool_decide (2 < n)%nat
        then total / inject_Z (Z.of_nat ((n - 1) * (n - 2)))
        else total).

Lemma scores_keys (g : graph) (weight : string) (l : list node) :
  ((λ v, (v, node_score g weight v)) <$> l).*1 = l.
Proof. induction l as [|v l IH]; csimpl; [done | by rewrite IH]. Qed.

Lemma scores_nodup (g : graph) (weight : string) :
  bool_decide (NoDup ((λ v, (v, node_score g weight v)) <$> graph_nodes g).*1).
Proof. apply bool_decide_pack. rewrite scores_keys. apply dict_NoDup. Qed.

Definition betweenness_centrality (g : graph) (weight : string) : dict node score :=
  Dict ((λ v, (v, node_score g weight v)) <$> graph_nodes g)
       (scores_nodup g weight).

(** The scores as the floats a library hands them back. *)
Lemma floats_nodup (d : dict node score) :
  bool_decide (NoDup (prod_map id Num <$> items d).*1).
Proof.
  apply bool_decide_pack. rewrite <-list_fmap_compose.
  apply (dict_NoDup d).
Qed.

Definition as_floats (d : dict node score) : dict node pyfloat :=
  Dict (prod_map id Num <$> items d) (floats_nodup d).

(** ** Boundary tables (geopandas [GeoDataFrame])

    A table has named columns and labelled rows; a row holds one cell per
    column. *)

Definition geometry := list (Q * Q).

Inductive cell :=
| CNull
| CStr (s : string)
| CNum (x : Q)
| CGeom (g : geometry).

Record row := Row {
  r_label : Z;
  r_cells : list cell
}.

Record frame := Frame {
  f_columns : list string;
  f_rows : list row
}.

(** A column ([Series]): the cells of one field, with their row labels. *)
Definition series := list (Z * cell).

Definition col_index (name : string) (df : frame) : option nat :=
  fst <$> list_find (λ c, c = name) (f_columns df).

Definition row_cell (i : nat) (r : row) : cell := default CNull (r_cells r !! i).

(** [df.name] *)
Definition frame_attr (name : string) (df : frame) : result series :=
  match col_index name df with
  | Some i => Ok ((λ r, (r_label r, row_cell i r)) <$> f_rows df)
  | None => Raise (AttributeError name)
  end.

(** [df['name']] *)
Definition frame_getitem (name : string) (df : frame) : result series :=
  match col_index name df with
  | Some i => Ok ((λ r, (r_label r, row_cell i r)) <$> f_rows df)
  | None => Raise (KeyError name)
  end.

(** [cell == s]: a missing value or a cell of another type is not equal. *)
Definition cell_eq_str (s : string) (c : cell) : bool :=
  match c with
  | CStr s' => bool_decide (s' = s)
  | _ => false
  end.

(** Modelled from the spec: the comparison and the selection are pandas
    code, absent from the repository.  The boundary table is filtered by an
    attribute equality match on a field: [series == s] compares the field of
    every row with [s], which gives a boolean mask. *)
Definition series_eq (col : series) (s : string) : list bool :=
  (λ lc, cell_eq_str s lc.2) <$> col.

(** Modelled from the spec: [df[mask]], with a mask computed from [df]
    itself, is the table of the rows whose mask entry is [True], in their
    order, each with its label and its cells. *)
Fixpoint select_rows (rows : list row) (mask : list bool) : list row :=
  match rows, mask with
  | r :: rows, b :: mask =>
      if b then r :: select_rows rows mask else select_rows rows mask
  | _, _ => []
  end.

Definition frame_getitem_mask (df : frame) (mask : list bool) : frame :=
  Frame (f_columns df) (select_rows (f_rows df) mask).

(** [series[0]]: on an integer index the subscript is a row label. *)
Definition series_at_label (lbl : Z) (col : series) : result cell :=
  match assoc_get lbl col with
  | Some c => Ok c
  | None => Raise (KeyError (pretty lbl))
  end.

(** ** Values and heap objects

    Graphs and dictionaries are mutable objects: a variable holds a reference
    [VRef] into the heap, so that two names of one object see each other's
    updates.  The other values are never updated in place by the notebook and
    are held directly. *)

Abbreviation loc := nat.

Inductive key :=
| KStr (s : string)
| KInt (n : Z).

Global Instance key_eq_dec : EqDecision key.
Proof. solve_decision. Defined.

Local Unset Elimination Schemes.
Inductive pyval :=
| VNone
| VBool (b : bool)
| VInt (n : Z)
| VFloat (x : pyfloat)
| VStr (s : string)
| VList (l : list pyval)
| VTuple (l : list pyval)
| VScores (d : dict node pyfloat)
| VFrame (df : frame)
| VGeom (g : geometry)
| VOpaque (tag : string)
| VRef (l : loc).
Local Set Elimination Schemes.

Inductive obj :=
| OGraph (g : graph)
| ODict (d : dict key pyval).

(** A nested dictionary as a library returns it, before it is given a place
    on the heap. *)
Inductive stat :=
| Scalar (v : pyval)
| Nested (d : dict key pyval).

(** ** The libraries

    [call] lists the library calls the notebook makes, with the arguments it
    passes; [ret_ty] is the type of what a call hands back. *)

Record plot_opts := PlotOpts {
  node_color : option pyval;
  node_size : option pyval;
  node_zorder : option Z;
  bgcolor : option string;
  edge_linewidth : option Q;
  edge_color : option string;
  show : option bool;
  save : option bool;
  close : option bool;
  filepath : option string
}.

Inductive call :=
| py_import (module : string)
| ipython_magic (line : string)
| ox_version
| ox_graph_from_point (center_point : Q * Q) (dist : Z) (network_type : string)
| ox_graph_from_polygon (polygon : cell)
| ox_graph_from_place (query : string)
| ox_plot_graph (g : graph) (opts : plot_opts)
| ox_plot_graph_folium (g : graph) (popup_attribute : string) (weight : Z) (color : string)
| ox_get_node_colors_by_attr (g : graph) (attr : string) (cmap : string)
| ox_basic_stats (g : graph)
| ox_get_digraph (g : graph)
| ox_save_graph_geopackage (g : graph) (filepath : string)
| ox_save_graph_shapefile (g : graph) (filepath : string)
| nx_betweenness_centrality (g : graph) (weight : string)
| gpd_read_file (url : string)
| gdf_plot (df : frame)
| pd_Series (data : dict key pyval) (name : option string)
| pd_DataFrame (data : pyval)
| df_round (df : pyval) (decimals : Z).

Definition ret_ty (c : call) : Type :=
  match c with
  | ox_graph_from_point _ _ _ | ox_graph_from_polygon _ | ox_graph_from_place _
  | ox_get_digraph _ => graph
  | ox_basic_stats _ => dict key stat
  | nx_betweenness_centrality _ _ => dict node pyfloat
  | gpd_read_file _ => frame
  | _ => pyval
  end.

(** Modelled from the spec: osmnx, networkx, geopandas and pandas are not
    part of the repository.  A [library] fixes the outcome of every call: a
    value or an exception.  A call receives the value of its arguments and
    updates none of them; the one library function the notebook calls for its
    effect on an argument, [nx.set_node_attributes], is modelled by itself
    above. *)
Definition library := ∀ c : call, result (ret_ty c).

(** ** The store and the monad of cells *)

Definition event : Type := call * option exn.

Record state := State {
  ns : gmap string pyval;
  heap : list obj;
  trace : list event
}.

Definition init : state := State ∅ [] [].

Definition M (A : Type) : Type := state → state * result A.

Global Instance M_ret : MRet M := λ A a s, (s, Ok a).

Global Instance M_bind : MBind M := λ A B f m s,
  match m s with
  | (s', Ok a) => f a s'
  | (s', Raise e) => (s', Raise e)
  end.

Definition raise {A} (e : exn) : M A := λ s, (s, Raise e).

Definition lift {A} (r : result A) : M A :=
  match r with
  | Ok a => mret a
  | Raise e => raise e
  end.

Definition outcome {A} (r : result A) : option exn :=
  match r with Ok _ => None | Raise e => Some e end.

(** Name lookup and assignment in the notebook's global namespace. *)
Definition get_var (x : string) : M pyval := λ s,
  match ns s !! x with
  | Some v => (s, Ok v)
  | None => (s, Raise (NameError x))
  end.

Definition assign (x : string) (v : pyval) : M unit := λ s,
  (State (<[x:=v]> (ns s)) (heap s) (trace s), Ok tt).

(** Heap access. *)
Definition alloc (o : obj) : M loc := λ s,
  (State (ns s) (heap s ++ [o]) (trace s), Ok (length (heap s))).

Definition load (l : loc) : M obj := λ s,
  match heap s !! l with
  | Some o => (s, Ok o)
  | None => (s, Raise RuntimeError)
  end.

Definition store (l : loc) (o : obj) : M unit := λ s,
  (State (ns s) (<[l:=o]> (heap s)) (trace s), Ok tt).

Definition load_graph (v : pyval) : M (loc * graph) :=
  match v with
  | VRef l =>
      o ← load l;
      match o with
      | OGraph g => mret (l, g)
      | ODict _ => raise TypeError
      end
  | _ => raise TypeError
  end.

Definition load_dict (v : pyval) : M (loc * dict key pyval) :=
  match v with
  | VRef l =>
      o ← load l;
      match o with
      | ODict d => mret (l, d)
      | OGraph _ => raise TypeError
      end
  | _ => raise TypeError
  end.

Definition as_scores (v : pyval) : M (dict node pyfloat) :=
  match v with VScores d => mret d | _ => raise TypeError end.

Definition as_frame (v : pyval) : M frame :=
  match v with VFrame df => mret df | _ => raise TypeError end.

(** An update in place of the dictionary [v] refers to. *)
Definition modify_dict (v : pyval)
    (f : dict key pyval → result (dict key pyval)) : M unit :=
  '(l, d) ← load_dict v;
  d' ← lift (f d);
  store l (ODict d').

(** [d[k] = x] and [del d[k]] *)
Definition setitem (v : pyval) (k : key) (x : pyval) : M unit :=
  modify_dict v (λ d, Ok (dict_set k x d)).

(** [nx.set_node_attributes(G, values, name)] on the graph object [v] refers
    to: the object is updated in place. *)
Definition nx_set_node_attributes
    (v : pyval) (values : dict node pyfloat) (name : string) : M unit :=
  '(l, g) ← load_graph v;
  store l (OGraph (set_node_attributes g values name)).

Definition as_str (v : pyval) : M string :=
  match v with VStr x => mret x | _ => raise TypeError end.

Definition get_graph (x : string) : M (loc * graph) :=
  v ← get_var x; load_graph v.

Definition get_frame (x : string) : M frame :=
  v ← get_var x; as_frame v.

(** [a, b = v] *)
Definition unpack2 (v : pyval) : M (pyval * pyval) :=
  match v with
  | VTuple [a; b] => mret (a, b)
  | VTuple _ => raise ValueError
  | _ => raise TypeError
  end.

(** [for x in xs: body] *)
Fixpoint for_each {A} (xs : list A) (body : A → M unit) : M unit :=
  match xs with
  | [] => mret tt
  | x :: xs => body x;; for_each xs body
  end.

(** [n == v] for an integer [n] *)
Definition int_eq (n : Z) (v : pyval) : bool :=
  match v with
  | VInt m => bool_decide (n = m)
  | VFloat (Num x) => Qeq_bool (inject_Z n) x
  | VBool b => bool_decide (n = if b then 1 else 0)
  | _ => false
  end.

(** ** [copy.deepcopy]

    Atomic values are returned as they are.  A dictionary is copied into a
    new object, which is entered in [memo] before its values are copied, so a
    second reference to one object yields one copy.  Each level of nesting is
    a level of recursion of the interpreter, which gives up with
    [RecursionError] beyond its limit. *)

Definition recursion_limit : nat := 1000.

Fixpoint copy_items (copy : list (loc * loc) → pyval → M (list (loc * loc) * pyval))
    (l' : loc) (memo : list (loc * loc)) (its : list (key * pyval))
    : M (list (loc * loc)) :=
  match its with
  | [] => mret memo
  | (k, v) :: its =>
      '(memo, v') ← copy memo v;
      setitem (VRef l') k v';;
      copy_items copy l' memo its
  end.

Fixpoint copy_list (copy : list (loc * loc) → pyval → M (list (loc * loc) * pyval))
    (memo : list (loc * loc)) (vs : list pyval)
    : M (list (loc * loc) * list pyval) :=
  match vs with
  | [] => mret (memo, [])
  | v :: vs =>
      '(memo, v') ← copy memo v;
      '(memo, vs') ← copy_list copy memo vs;
      mret (memo, v' :: vs')
  end.

Fixpoint deepcopy_rec (depth : nat) (memo : list (loc * loc)) (v : pyval)
    : M (list (loc * loc) * pyval) :=
  match v with
  | VRef l =>
      match assoc_get l memo with
      | Some l' => mret (memo, VRef l')
      | None =>
          match depth with
          | O => raise RecursionError
          | S depth =>
              o ← load l;
              match o with
              | ODict d =>
                  l' ← alloc (ODict dict_empty);
                  memo ← copy_items (deepcopy_rec depth) l' ((l, l') :: memo) (items d);
                  mret (memo, VRef l')
              | OGraph g =>
                  l' ← alloc (OGraph g);
                  mret ((l, l') :: memo, VRef l')
              end
          end
      end
  | VList vs =>
      match depth with
      | O => raise RecursionError
      | S depth =>
          '(memo, vs') ← copy_list (deepcopy_rec depth) memo vs;
          mret (memo, VList vs')
      end
  | VTuple vs =>
      match depth with
      | O => raise RecursionError
      | S depth =>
          '(memo, vs') ← copy_list (deepcopy_rec depth) memo vs;
          mret (memo, VTuple vs')
      end
  | _ => mret (memo, v)
  end.

Definition deepcopy (v : pyval) : M pyval :=
  '(_, v') ← deepcopy_rec recursion_limit [] v; mret v'.

(** [str(k)], as ["{}".format(k)] renders a key. *)
Definition str_of_key (k : key) : string :=
  match k with
  | KStr s => s
  | KInt n => pretty n
  end.

Definition val_of_key (k : key) : pyval :=
  match k with
  | KStr s => VStr s
  | KInt n => VInt n
  end.

(** ["{}".format(v)] for the values a key can be. *)
Definition py_str (v : pyval) : M string :=
  match v with
  | VStr s => mret s
  | VInt n => mret (pretty n)
  | _ => raise TypeError
  end.

(** [for k, v in d.items(): body], where [d] is the dictionary at [l].  The
    iterator reads the dictionary again at every step and raises
    [RuntimeError] when its size has changed since the loop began. *)
Definition next_item (l : loc) (n : nat) (i : nat) : M (option (key * pyval)) :=
  '(_, d) ← load_dict (VRef l);
  if bool_decide (dict_len d = n) then mret (items d !! i) else raise RuntimeError.

Definition for_items (l : loc) (body : key → pyval → M unit) : M unit :=
  '(_, d) ← load_dict (VRef l);
  let n := dict_len d in
  for_each (seq 0 n) (λ i,
    it ← next_item l n i;
    match it with
    | Some (k, v) => body k v
    | None => mret tt
    end);;
  next_item l n n;;
  mret tt.

(** [d[k]] on the dictionary a value refers to. *)
Definition subscript (v : pyval) (k : key) : M pyval :=
  '(_, d) ← load_dict v;
  match dict_get k d with
  | Some x => mret x
  | None => raise (KeyError (str_of_key k))
  end.

Definition delitem (v : pyval) (k : key) : M unit :=
  modify_dict v (λ d,
    match dict_get k d with
    | Some _ => Ok (dict_del k d)
    | None => Raise (KeyError (str_of_key k))
    end).

(** A dictionary a library hands back is given its place on the heap, the
    nested dictionaries first. *)
Fixpoint materialize_items (its : list (key * stat)) (acc : dict key pyval)
    : M (dict key pyval) :=
  match its with
  | [] => mret acc
  | (k, Scalar v) :: its => materialize_items its (dict_set k v acc)
  | (k, Nested d) :: its =>
      l ← alloc (ODict d);
      materialize_items its (dict_set k (VRef l) acc)
  end.

Definition materialize (d : dict key stat) : M pyval :=
  top ← materialize_items (items d) dict_empty;
  l ← alloc (ODict top);
  mret (VRef l).

Definition default_opts : plot_opts :=
  PlotOpts None None None None None None None None None None.

Definition BOUNDARY_URL : string :=
  "https://raw.githubusercontent.com/smartnews-smri/japan-topography/main/data/municipality/geojson/s0010/N03-21_13_210101.json".

Section notebook.
Variable L : library.

(** A library call: its outcome is appended to the trace and handed to the
    caller; an exception is raised where the call stands. *)
Definition lib_call (c : call) : M (ret_ty c) := λ s,
  (State (ns s) (heap s) (trace s ++ [(c, outcome (L c))]), L c).

(** [import geopandas as gpd], ... [%matplotlib inline], [ox.__version__] *)
Definition cell_import : M unit :=
  m ← lib_call (py_import "geopandas"); assign "gpd" m;;
  m ← lib_call (py_import "networkx"); assign "nx" m;;
  m ← lib_call (py_import "osmnx"); assign "ox" m;;
  m ← lib_call (py_import "pandas"); assign "pd" m;;
  lib_call (ipython_magic "matplotlib inline");;
  get_var "ox";;
  lib_call ox_version;;
  mret tt.

(** [hk_graph = ox.graph_from_point(...)] *)
Definition cell_graph_from_point : M unit :=
  get_var "ox";;
  g ← lib_call (ox_graph_from_point (22.3192, 114.1693)%Q 1000 "all_private");
  l ← alloc (OGraph g);
  assign "hk_graph" (VRef l).

(** [ox.plot_graph(hk_graph, node_color="w", node_size=5)] *)
Definition cell_plot_hk : M unit :=
  get_var "ox";;
  '(_, g) ← get_graph "hk_graph";
  lib_call (ox_plot_graph g
    (PlotOpts (Some (VStr "w")) (Some (VInt 5)) None None None None
              None None None None));;
  mret tt.

(** [tokyo_pre_boundary = gpd.read_file(BOUNDARY_URL)] *)
Definition cell_read_boundary : M unit :=
  assign "BOUNDARY_URL" (VStr BOUNDARY_URL);;
  get_var "gpd";;
  u ← get_var "BOUNDARY_URL";
  url ← as_str u;
  df ← lib_call (gpd_read_file url);
  assign "tokyo_pre_boundary" (VFrame df).

Definition cell_show_boundary : M unit :=
  get_var "tokyo_pre_boundary";; mret tt.

(** [chiyoda = tokyo_pre_boundary[tokyo_pre_boundary.N03_004 == "千代田区"]] *)
Definition cell_filter_chiyoda : M unit :=
  df ← get_frame "tokyo_pre_boundary";
  df' ← get_frame "tokyo_pre_boundary";
  col ← lift (frame_attr "N03_004" df');
  assign "chiyoda" (VFrame (frame_getitem_mask df (series_eq col "千代田区"))).

(** [chiyoda.plot()] *)
Definition cell_plot_chiyoda : M unit :=
  df ← get_frame "chiyoda";
  lib_call (gdf_plot df);;
  mret tt.

(** [chiyoda['geometry'][0]] *)
Definition chiyoda_geometry : M cell :=
  df ← get_frame "chiyoda";
  col ← lift (frame_getitem "geometry" df);
  lift (series_at_label 0 col).

Definition cell_show_geometry : M unit :=
  chiyoda_geometry;; mret tt.

(** [chiyoda_graph = ox.graph_from_polygon(chiyoda['geometry'][0])] *)
Definition cell_graph_from_polygon : M unit :=
  get_var "ox";;
  poly ← chiyoda_geometry;
  g ← lib_call (ox_graph_from_polygon poly);
  l ← alloc (OGraph g);
  assign "chiyoda_graph" (VRef l).

(** [ox.plot_graph(chiyoda_graph)] *)
Definition cell_plot_chiyoda_graph : M unit :=
  get_var "ox";;
  '(_, g) ← get_graph "chiyoda_graph";
  lib_call (ox_plot_graph g default_opts);;
  mret tt.

(** [chiyoda_folium = ox.plot_graph_folium(...)], then [chiyoda_folium] *)
Definition cell_folium : M unit :=
  get_var "ox";;
  '(_, g) ← get_graph "chiyoda_graph";
  m ← lib_call (ox_plot_graph_folium g "name" 2 "#999999");
  assign "chiyoda_folium" m;;
  get_var "chiyoda_folium";;
  mret tt.

(** [ty_graph = ox.graph_from_place("Tsing Yi, Hong Kong")] *)
Definition cell_graph_from_place : M unit :=
  get_var "ox";;
  g ← lib_call (ox_graph_from_place "Tsing Yi, Hong Kong");
  l ← alloc (OGraph g);
  assign "ty_graph" (VRef l).

(** [stats = ox.basic_stats(hk_graph)] *)
Definition cell_basic_stats : M unit :=
  get_var "ox";;
  '(_, g) ← get_graph "hk_graph";
  d ← lib_call (ox_basic_stats g);
  v ← materialize d;
  assign "stats" v.

(** [pd.Series(stats)] *)
Definition cell_show_stats : M unit :=
  get_var "pd";;
  v ← get_var "stats";
  '(_, d) ← load_dict v;
  lib_call (pd_Series d None);;
  mret tt.

(** The flattening cell: [stats_unpack = deepcopy(stats)], the two loops,
    the two [del] statements and the table. *)
Definition unpack_loop (nested : string) (suffix : string) (var : string) : M unit :=
  su ← get_var "stats_unpack";
  inner ← subscript su (KStr nested);
  '(l, _) ← load_dict inner;
  for_items l (λ k v,
    assign "k" (val_of_key k);;
    assign var v;;
    x ← get_var var;
    su ← get_var "stats_unpack";
    kv ← get_var "k";
    ks ← py_str kv;
    setitem su (KStr (ks +:+ suffix)) x).

Definition flatten : M unit :=
  unpack_loop "streets_per_node_counts" "way_int_count" "count";;
  unpack_loop "streets_per_node_proportions" "way_int_prop" "proportion";;
  su ← get_var "stats_unpack";
  delitem su (KStr "streets_per_node_counts");;
  su ← get_var "stats_unpack";
  delitem su (KStr "streets_per_node_proportions");;
  get_var "pd";;
  get_var "pd";;
  su ← get_var "stats_unpack";
  '(_, d) ← load_dict su;
  ser ← lib_call (pd_Series d (Some "value"));
  df ← lib_call (pd_DataFrame ser);
  lib_call (df_round df 3);;
  mret tt.

Definition cell_stats_unpack : M unit :=
  assign "deepcopy" (VOpaque "copy.deepcopy");;
  get_var "deepcopy";;
  v ← get_var "stats";
  c ← deepcopy v;
  assign "stats_unpack" c;;
  flatten.

(** [nc_street_count = ox.plot.get_node_colors_by_attr(...)] and the plot *)
Definition cell_street_count_plot : M unit :=
  get_var "ox";;
  '(_, g) ← get_graph "hk_graph";
  nc ← lib_call (ox_get_node_colors_by_attr g "street_count" "YlGnBu");
  assign "nc_street_count" nc;;
  get_var "ox";;
  '(_, g) ← get_graph "hk_graph";
  nc ← get_var "nc_street_count";
  r ← lib_call (ox_plot_graph g
    (PlotOpts (Some nc) (Some (VInt 5)) (Some 2) (Some "#232323")
              (Some 0.2%Q) (Some "w") None None None None));
  '(fig, ax) ← unpack2 r;
  assign "fig" fig;;
  assign "ax" ax.

(** [hk_graph_di = ox.get_digraph(hk_graph)],
    [bc = nx.betweenness_centrality(hk_graph_di, weight="length")],
    [max_node, max_bc = max(bc.items(), key=lambda x: x[1])] *)
Definition cell_betweenness : M unit :=
  get_var "ox";;
  '(_, g) ← get_graph "hk_graph";
  di ← lib_call (ox_get_digraph g);
  l ← alloc (OGraph di);
  assign "hk_graph_di" (VRef l);;
  get_var "nx";;
  '(_, gdi) ← get_graph "hk_graph_di";
  bc ← lib_call (nx_betweenness_centrality gdi "length");
  assign "bc" (VScores bc);;
  v ← get_var "bc";
  d ← as_scores v;
  m ← lift (py_max snd (items d));
  assign "max_node" (VInt m.1);;
  assign "max_bc" (VFloat m.2);;
  get_var "max_node";;
  get_var "max_bc";;
  mret tt.

(** [nc = ["r" if node == max_node else "w" for node in hk_graph.nodes]],
    [ns = [80 if node == max_node else 5 for node in hk_graph.nodes]]
    and the plot *)
Definition highlight (hit miss : pyval) : M pyval :=
  '(_, g) ← get_graph "hk_graph";
  xs ← mapM (λ node,
    m ← get_var "max_node";
    mret (if int_eq node m then hit else miss)) (graph_nodes g);
  mret (VList xs).

Definition highlight_plot : M unit :=
  get_var "ox";;
  '(_, g) ← get_graph "hk_graph";
  sz ← get_var "ns";
  nc ← get_var "nc";
  r ← lib_call (ox_plot_graph g
    (PlotOpts (Some nc) (Some sz) (Some 2) None None None
              None None None None));
  '(fig, ax) ← unpack2 r;
  assign "fig" fig;;
  assign "ax" ax.

Definition cell_highlight : M unit :=
  nc ← highlight (VStr "r") (VStr "w");
  assign "nc" nc;;
  sz ← highlight (VInt 80) (VInt 5);
  assign "ns" sz;;
  highlight_plot.

(** [nx.set_node_attributes(hk_graph, bc, "bc")] and the plot by ["bc"] *)
Definition bc_plot : M unit :=
  get_var "ox";;
  '(_, g) ← get_graph "hk_graph";
  nc ← lib_call (ox_get_node_colors_by_attr g "bc" "Reds");
  assign "nc" nc;;
  get_var "ox";;
  '(_, g) ← get_graph "hk_graph";
  nc ← get_var "nc";
  r ← lib_call (ox_plot_graph g
    (PlotOpts (Some nc) (Some (VInt 5)) (Some 2) (Some "#232323")
              (Some 0.2%Q) (Some "w") None None None None));
  '(fig, ax) ← unpack2 r;
  assign "fig" fig;;
  assign "ax" ax.

Definition cell_attach_bc : M unit :=
  get_var "nx";;
  g ← get_var "hk_graph";
  v ← get_var "bc";
  d ← as_scores v;
  nx_set_node_attributes g d "bc";;
  bc_plot.

(** [ox.save_graph_geopackage(hk_graph, filepath="./data-output/hk_graph.gpkg")] *)
Definition cell_save_geopackage : M unit :=
  get_var "ox";;
  '(_, g) ← get_graph "hk_graph";
  lib_call (ox_save_graph_geopackage g "./data-output/hk_graph.gpkg");;
  mret tt.

(** [ox.save_graph_shapefile(hk_graph, filepath="./data-output/hk_graph/")] *)
Definition cell_save_shapefile : M unit :=
  get_var "ox";;
  '(_, g) ← get_graph "hk_graph";
  lib_call (ox_save_graph_shapefile g "./data-output/hk_graph/");;
  mret tt.

(** [fig, ax = ox.plot_graph(hk_graph, show=False, save=True, close=True,
    filepath="./hk_graph.svg")] *)
Definition cell_save_svg : M unit :=
  get_var "ox";;
  '(_, g) ← get_graph "hk_graph";
  r ← lib_call (ox_plot_graph g
    (PlotOpts None None None None None None
              (Some false) (Some true) (Some true) (Some "./hk_graph.svg")));
  '(fig, ax) ← unpack2 r;
  assign "fig" fig;;
  assign "ax" ax.

(** The code cells of the notebook, top to bottom.  The first one holds
    only comments. *)
Definition cell_install : M unit := mret tt.

Definition notebook : list (M unit) :=
  [ cell_install; cell_import; cell_graph_from_point; cell_plot_hk;
    cell_read_boundary; cell_show_boundary; cell_filter_chiyoda;
    cell_plot_chiyoda; cell_show_geometry; cell_graph_from_polygon;
    cell_plot_chiyoda_graph; cell_folium; cell_graph_from_place;
    cell_basic_stats; cell_show_stats; cell_stats_unpack;
    cell_street_count_plot; cell_betweenness; cell_highlight;
    cell_attach_bc; cell_save_geopackage; cell_save_shapefile;
    cell_save_svg ].

End notebook.

(** Running cells in order: the first exception halts the run at its cell,
    with the store as the cell left it. *)
Inductive status :=
| Completed
| Halted (cell : nat) (e : exn).

Fixpoint run_from (i : nat) (cells : list (M unit)) (s : state) : state * status :=
  match cells with
  | [] => (s, Completed)
  | c :: cells =>
      match c s with
      | (s', Ok _) => run_from (S i) cells s'
      | (s', Raise e) => (s', Halted i e)
      end
  end.

Definition run_all (L : library) (s : state) : state * status :=
  run_from 0 (notebook L) s.

(** ** The notebook is glue

    Every cell is built from a handful of operations: name lookup and
    assignment, heap allocation and lookup, the update of a dictionary, the
    call of a library function, and the attachment of node attributes.
    [effects] declares, cell by cell, the names a cell assigns and the node
    attribute it sets.  A property of computations that these operations have
    and that sequencing keeps is then a property of every cell
    ([glue_notebook]). *)

Inductive effect :=
| Assign (x : string)
| SetNodeAttr (name : string).

Record closed (L : library) (ok : effect → Prop) (Φ : ∀ A, M A → Prop) : Prop := {
  c_ret : ∀ A (a : A), Φ A (mret a);
  c_raise : ∀ A e, Φ A (raise e);
  c_bind : ∀ A B (m : M A) (f : A → M B),
    Φ A m → (∀ a, Φ B (f a)) → Φ B (m ≫= f);
  c_get_var : ∀ x, Φ _ (get_var x);
  c_assign : ∀ x v, ok (Assign x) → Φ _ (assign x v);
  c_alloc : ∀ o, Φ _ (alloc o);
  c_load : ∀ l, Φ _ (load l);
  c_modify_dict : ∀ v f, Φ _ (modify_dict v f);
  c_set_node_attributes : ∀ v d name,
    ok (SetNodeAttr name) → Φ _ (nx_set_node_attributes v d name);
  c_lib_call : ∀ c, Φ _ (lib_call L c)
}.

Definition effects : list (list effect) :=
  [ [];
    [Assign "gpd"; Assign "nx"; Assign "ox"; Assign "pd"];
    [Assign "hk_graph"];
    [];
    [Assign "BOUNDARY_URL"; Assign "tokyo_pre_boundary"];
    [];
    [Assign "chiyoda"];
    [];
    [];
    [Assign "chiyoda_graph"];
    [];
    [Assign "chiyoda_folium"];
    [Assign "ty_graph"];
    [Assign "stats"];
    [];
    [Assign "deepcopy"; Assign "stats_unpack"; Assign "k"; Assign "count";
     Assign "proportion"];
    [Assign "nc_street_count"; Assign "fig"; Assign "ax"];
    [Assign "hk_graph_di"; Assign "bc"; Assign "max_node"; Assign "max_bc"];
    [Assign "nc"; Assign "ns"; Assign "fig"; Assign "ax"];
    [SetNodeAttr "bc"; Assign "nc"; Assign "fig"; Assign "ax"];
    [];
    [];
    [Assign "fig"; Assign "ax"] ].

(** ** Vocabulary of the specifications *)

(** [g'] is [g] up to the node attribute [name]. *)
Record same_but (name : string) (g g' : graph) : Prop := {
  sb_attrs : g_attrs g' = g_attrs g;
  sb_edges : g_edges g' = g_edges g;
  sb_nodes : graph_nodes g' = graph_nodes g;
  sb_node_attr : ∀ n a, a ≠ name → node_attr g' n a = node_attr g n a
}.

(** The binding of a name is kept by a computation that does not assign it. *)
Definition keeps_var (x : string) (A : Type) (m : M A) : Prop :=
  ∀ s, ns (m s).1 !! x = ns s !! x.

(** The graph objects on the heap are what they were. *)
Definition keeps_graphs (A : Type) (m : M A) : Prop :=
  ∀ s l g, heap s !! l = Some (OGraph g) → heap (m s).1 !! l = Some (OGraph g).

(** The graph objects on the heap are what they were, up to one node
    attribute. *)
Definition graphs_same_but (name : string) (A : Type) (m : M A) : Prop :=
  ∀ s l g, heap s !! l = Some (OGraph g) →
    ∃ g', heap (m s).1 !! l = Some (OGraph g') ∧ same_but name g g'.

(** No call in the trace has failed. *)
Definition clean (tr : list event) : Prop := Forall (λ ev, ev.2 = None) tr.

(** The last call in the trace failed with [e], and no call before it. *)
Definition failed_last (e : exn) (tr : list event) : Prop :=
  ∃ tr0 c, tr = tr0 ++ [(c, Some e)] ∧ clean tr0.

(** What a computation adds to the trace: when it returns, no call has
    failed; when it raises [e], either no call has failed (Python itself
    raised), or the last call failed with [e] itself. *)
Definition propagates (A : Type) (m : M A) : Prop :=
  ∀ s, ∃ tr, trace (m s).1 = trace s ++ tr ∧
    match (m s).2 with
    | Ok _ => clean tr
    | Raise e => clean tr ∨ failed_last e tr
    end.

(** *** Exports *)

Inductive file_format :=
| GeoPackage
| Shapefile
| Image (ext : string).

(** The text after the last dot of the last component of a path. *)
Fixpoint suffix_go (p : string) (acc : option string) : option string :=
  match p with
  | EmptyString => acc
  | String c p =>
      if bool_decide (c = "."%char) then suffix_go p (Some "")
      else if bool_decide (c = "/"%char) then suffix_go p None
      else suffix_go p ((λ a, a +:+ String c "") <$> acc)
  end.

Definition suffix (p : string) : string := default "" (suffix_go p None).

Definition is_relative (p : string) : bool :=
  match p with
  | String c _ => negb (bool_decide (c = "/"%char))
  | EmptyString => true
  end.

(** Modelled from the spec: the export functions are osmnx code, absent from
    the repository.  [save_graph_geopackage] writes the graph as a GeoPackage
    file and [save_graph_shapefile] as a Shapefile, a directory of sidecar
    files, at [filepath]; [plot_graph] with [save=True] writes the figure as
    an image at [filepath], in the format its suffix names. *)
Definition exported (c : call) : option (file_format * string * graph) :=
  match c with
  | ox_save_graph_geopackage g p => Some (GeoPackage, p, g)
  | ox_save_graph_shapefile g p => Some (Shapefile, p, g)
  | ox_plot_graph g opts =>
      match save opts, filepath opts with
      | Some true, Some p => Some (Image (suffix p), p, g)
      | _, _ => None
      end
  | _ => None
  end.

(** What the calls of a trace that returned have written. *)
Definition written (tr : list event) : list (file_format * string * graph) :=
  omap (λ ev : event, match ev.2 with None => exported ev.1 | Some _ => None end) tr.

Definition export_cells (L : library) : list (M unit) :=
  [cell_save_geopackage L; cell_save_shapefile L; cell_save_svg L].

(** *** The cells of the centrality step *)

Definition centrality_cells (L : library) : list (M unit) :=
  [cell_betweenness L; cell_highlight L; cell_attach_bc L].

(** *** The flattening cell *)

Section invariants.
(** The heap as it was when the flattening cell began. *)
Variable h0 : list obj.

(** Every object of [h0] is still what it was. *)
Definition old (s : state) : Prop :=
  ∀ a o, h0 !! a = Some o → heap s !! a = Some o.

(** A reference to an object that is not one of [h0]. *)
Definition fresh (v : pyval) : Prop :=
  match v with
  | VRef l => length h0 ≤ l
  | _ => True
  end%nat.

Definition fresh_copy (s : state) : Prop :=
  ∀ v, ns s !! "stats_unpack" = Some v → fresh v.

(** [m] keeps the invariant [J], whether it returns or raises, and what it
    returns satisfies [Q]. *)
Definition keeps {A} (J : state → Prop) (m : M A) (Q : A → Prop) : Prop :=
  ∀ s, J s → J (m s).1 ∧ ∀ a, (m s).2 = Ok a → Q a.

(** Computations that leave the store as it is. *)
Definition reads {A} (m : M A) : Prop := ∀ s, (m s).1 = s.

Definition memo_fresh (memo : list (loc * loc)) : Prop :=
  Forall (λ p, length h0 ≤ p.2)%nat memo.

Definition copied (r : list (loc * loc) * pyval) : Prop :=
  memo_fresh r.1 ∧ fresh r.2.

Definition copy_fresh (s : state) : Prop := old s ∧ fresh_copy s.

End invariants.


(** *** Names bound before they are read *)

(** Every name of [D] is bound. *)
Definition bound_in (D : list string) (s : state) : Prop :=
  Forall (λ x, is_Some (ns s !! x)) D.

(** Run in a store where the names of [D] are bound, [m] does not raise
    [NameError], and when it returns the names of [D'] are bound. *)
Definition defines {A} (D : list string) (m : M A) (D' : list string) : Prop :=
  ∀ s, bound_in D s →
    match m s with
    | (s', Ok _) => bound_in D' s'
    | (_, Raise e) => ∀ x, e ≠ NameError x
    end.

(** [m] neither reads nor binds a name. *)
Definition quiet {A} (m : M A) : Prop :=
  ∀ s, ns (m s).1 = ns s ∧ ∀ x, (m s).2 ≠ Raise (NameError x).

(** The cells [cs], run in order, bind each name before they read it. *)
Inductive chain : list string → list (M unit) → Prop :=
| chain_nil D : chain D []
| chain_cons D D' c cs : defines D c D' → chain D' cs → chain D (c :: cs).

(** *** The flattened statistics *)

(** The values [deepcopy] hands back as they are. *)
Definition atomic (v : pyval) : Prop :=
  match v with
  | VNone | VBool _ | VInt _ | VFloat _ | VStr _ => True
  | _ => False
  end.

(** The key ["{}<suffix>".format(k)]. *)
Definition flat_key (suffix : string) (k : key) : key :=
  KStr (str_of_key k +:+ suffix).

Definition nested_keys : list key :=
  [KStr "streets_per_node_counts"; KStr "streets_per_node_proportions"].

Section copies.
(** The heap before the copy, and the place of the dictionary to copy. *)
Variable h0 : list obj.
Variable l : loc.

(** At [li] the heap holds a dictionary without nested objects. *)
Definition flat_at (li : loc) (di : dict key pyval) : Prop :=
  h0 !! li = Some (ODict di) ∧ Forall atomic (items di).*2.

(** The values of a statistics dictionary. *)
Definition item_ok (v : pyval) : Prop :=
  atomic v ∨ ∃ li di, v = VRef li ∧ flat_at li di.

(** [v'] is a copy of [v], with its new objects in [extra], the part of the
    heap after the copy of the dictionary itself. *)
Definition copy_of (extra : list obj) (v v' : pyval) : Prop :=
  (atomic v ∧ v' = v) ∨
  ∃ li li' di, v = VRef li ∧ v' = VRef li' ∧ flat_at li di ∧
    (length h0 < li')%nat ∧ extra !! (li' - S (length h0))%nat = Some (ODict di).

Definition memo_ok (extra : list obj) (memo : list (loc * loc)) : Prop :=
  Forall (λ p, p.1 = l ∨ copy_of extra (VRef p.1) (VRef p.2)) memo.

End copies.

(** *** Runs that complete *)

(** [m], run in [s], returns, with a value and a store that satisfy [Q]. *)
Definition wp {A} (m : M A) (Q : A → state → Prop) (s : state) : Prop :=
  ∃ s' a, m s = (s', Ok a) ∧ Q a s'.

(** A statistic is a number or a string, or a dictionary of such. *)
Definition stat_flat (x : stat) : Prop :=
  match x with
  | Scalar v => atomic v
  | Nested di => Forall atomic (items di).*2
  end.

(** The statistics the flattening cell expects: the two nested dictionaries
    are there. *)
Definition stats_shape (st : dict key stat) : Prop :=
  Forall (λ it, stat_flat it.2) (items st) ∧
  (∃ counts, dict_get (KStr "streets_per_node_counts") st = Some (Nested counts)) ∧
  (∃ props, dict_get (KStr "streets_per_node_proportions") st = Some (Nested props)).

(** The boundary table the notebook expects: the two columns it reads, rows
    with distinct labels, and the district in the row labelled [0]. *)
Definition boundary_shape (df : frame) : Prop :=
  ∃ i j r,
    col_index "N03_004" df = Some i ∧
    col_index "geometry" df = Some j ∧
    NoDup (r_label <$> f_rows df) ∧
    r ∈ f_rows df ∧ r_label r = 0 ∧ row_cell i r = CStr "千代田区".

(** [v] is the statistic [x], with a nested dictionary at its place in the
    heap [h]. *)
Definition placed (h : list obj) (x : stat) (v : pyval) : Prop :=
  match x with
  | Scalar w => v = w
  | Nested di => ∃ li, v = VRef li ∧ h !! li = Some (ODict di)
  end.

(** Libraries that answer every call, with results of the shape the notebook
    goes on to use. *)
Record well_behaved (L : library) : Prop := {
  wb_returns : ∀ c, ∃ r, L c = Ok r;
  wb_plot : ∀ g o, ∃ fig ax, L (ox_plot_graph g o) = Ok (VTuple [fig; ax]);
  wb_boundary : ∀ url df, L (gpd_read_file url) = Ok df → boundary_shape df;
  wb_stats : ∀ g st, L (ox_basic_stats g) = Ok st → stats_shape st;
  wb_scores : ∀ g w bc, L (nx_betweenness_centrality g w) = Ok bc → items bc ≠ []
}.

(** ** Sample data *)

(** A sample library for running the notebook: three nodes, a parallel edge,
    a boundary table of three districts. *)
Definition sample_attrs : dict string attr := Dict [("street_count", AInt 3)] I.

Definition sample_graph : graph :=
  Graph dict_empty
        (Dict [(10, sample_attrs); (20, sample_attrs); (30, sample_attrs)] I)
        [Edge 10 20 0 dict_empty; Edge 10 20 1 dict_empty;
         Edge 20 30 0 dict_empty].

Definition sample_digraph : graph :=
  Graph dict_empty
        (Dict [(10, sample_attrs); (20, sample_attrs); (30, sample_attrs)] I)
        [Edge 10 20 0 dict_empty; Edge 20 30 0 dict_empty].

Definition sample_frame : frame :=
  Frame ["N03_001"; "N03_004"; "geometry"]
    [ Row 0 [CStr "東京都"; CStr "千代田区"; CGeom [(0%Q, 0%Q); (1%Q, 0%Q); (1%Q, 1%Q)]];
      Row 1 [CStr "東京都"; CStr "中央区"; CGeom [(2%Q, 0%Q); (3%Q, 0%Q); (3%Q, 1%Q)]];
      Row 2 [CStr "東京都"; CNull; CGeom []] ].

Definition sample_stats : dict key stat :=
  Dict [ (KStr "n", Scalar (VInt 3));
         (KStr "streets_per_node_counts",
          Nested (Dict [(KInt 1, VInt 2); (KInt 3, VInt 1)] I));
         (KStr "streets_per_node_proportions",
          Nested (Dict [(KInt 1, VFloat 0.75%Q); (KInt 3, VFloat 0.25%Q)] I)) ] I.

Definition sample_scores : dict node pyfloat :=
  Dict [(10, Num 0); (20, Num 0.5); (30, Num 0)] I.

Definition sample_library : library := λ c,
  match c return result (ret_ty c) with
  | py_import m => Ok (VOpaque m)
  | ipython_magic _ => Ok VNone
  | ox_version => Ok (VStr "1.1.2")
  | ox_graph_from_point _ _ _ => Ok sample_graph
  | ox_graph_from_polygon _ => Ok sample_graph
  | ox_graph_from_place _ => Ok sample_graph
  | ox_plot_graph _ _ => Ok (VTuple [VOpaque "fig"; VOpaque "ax"])
  | ox_plot_graph_folium _ _ _ _ => Ok (VOpaque "map")
  | ox_get_node_colors_by_attr _ _ _ => Ok (VOpaque "colors")
  | ox_basic_stats _ => Ok sample_stats
  | ox_get_digraph _ => Ok sample_digraph
  | ox_save_graph_geopackage _ _ => Ok VNone
  | ox_save_graph_shapefile _ _ => Ok VNone
  | nx_betweenness_centrality _ _ => Ok sample_scores
  | gpd_read_file _ => Ok sample_frame
  | gdf_plot _ => Ok (VOpaque "axes")
  | pd_Series _ _ => Ok (VOpaque "series")
  | pd_DataFrame _ => Ok (VOpaque "dataframe")
  | df_round _ _ => Ok (VOpaque "dataframe")
  end.

(** The same library, except that reading the boundary file times out. *)
Definition timeout : exn := LibraryError "geopandas" "HTTP request timed out".

Definition failing_library : library := λ c,
  match c return result (ret_ty c) with
  | gpd_read_file _ => Raise timeout
  | c => sample_library c
  end.

Definition bc_sample : dict node pyfloat :=
  Dict [(10, Num 0); (20, Num 0.5); (30, Num 0.5); (40, Num 0.25)] I.

(** Scores with a NaN among them. *)
Definition nan_scores : dict node pyfloat :=
  Dict [(1, NaN); (2, Num 0.5)] I.

(** A store in which the libraries are imported and [hk_graph] is bound. *)
Definition sample_state : state :=
  State (<["ox" := VOpaque "osmnx"]> (<["nx" := VOpaque "networkx"]>
           (<["hk_graph" := VRef 0]> ∅)))
        [OGraph sample_graph] [].

(** The same store after the betweenness cell: [bc] is bound as well. *)
Definition scored_state : state :=
  State (<["bc" := VScores sample_scores]> (ns sample_state))
        (heap sample_state) [].

(** A store in which the boundary table is loaded. *)
Definition boundary_state : state :=
  State (<["tokyo_pre_boundary" := VFrame sample_frame]> ∅) [] [].

(** A store after the statistics cell: the two nested dictionaries, the
    statistics dictionary that refers to them, and the name [stats]. *)
Definition stats_state : state :=
  State (<["stats" := VRef 2]> (<["pd" := VOpaque "pandas"]> ∅))
        [ ODict (Dict [(KInt 1, VInt 2); (KInt 3, VInt 1)] I);
          ODict (Dict [(KInt 1, VFloat 0.75%Q); (KInt 3, VFloat 0.25%Q)] I);
          ODict (Dict [ (KStr "n", VInt 3);
                        (KStr "streets_per_node_counts", VRef 0);
                        (KStr "streets_per_node_proportions", VRef 1) ] I) ]
        [].

(** A graph without nodes. *)
Definition empty_graph : graph := Graph dict_empty dict_empty [].

(** A library for an area without streets: every graph is empty. *)
Definition empty_library : library := λ c,
  match c return result (ret_ty c) with
  | ox_graph_from_point _ _ _ => Ok empty_graph
  | ox_get_digraph _ => Ok empty_graph
  | nx_betweenness_centrality _ _ => Ok dict_empty
  | c => sample_library c
  end.

(** The sample table with its rows in another order: the district is the
    row labelled [1]. *)
Definition reordered_frame : frame :=
  Frame ["N03_001"; "N03_004"; "geometry"]
    [ Row 0 [CStr "東京都"; CStr "中央区"; CGeom [(2%Q, 0%Q); (3%Q, 0%Q); (3%Q, 1%Q)]];
      Row 1 [CStr "東京都"; CStr "千代田区"; CGeom [(0%Q, 0%Q); (1%Q, 0%Q); (1%Q, 1%Q)]] ].

(** * Properties *)

Section dict_lemmas.
Context {K V : Type} `{!EqDecision K}.

Lemma assoc_get_set_eq (k : K) (v : V) (l : list (K * V)) : assoc_get k (assoc_set k v l) = Some v.
Proof.
  induction l as [|[k' v'] l IH]; csimpl.
  - by rewrite decide_True.
  - destruct (decide (k = k')) as [->|Hne]; csimpl.
    + by rewrite decide_True.
    + by rewrite decide_False.
Qed.

Lemma assoc_get_set_ne (k k' : K) (v : V) (l : list (K * V)) :
  k ≠ k' → assoc_get k' (assoc_set k v l) = assoc_get k' l.
Proof.
  intros Hne. induction l as [|[k0 v0] l IH]; csimpl.
  - rewrite decide_False; [done | congruence].
  - destruct (decide (k = k0)) as [->|Hne0]; simpl.
    + rewrite !decide_False; [done | congruence..].
    + by rewrite IH.
Qed.

Lemma assoc_get_Some_elem (k : K) (v : V) (l : list (K * V)) : assoc_get k l = Some v → (k, v) ∈ l.
Proof.
  induction l as [|[k' v'] l IH]; csimpl; [done |].
  case_decide as Hk.
  - intros [= ->]. subst. left.
  - intros. right. auto.
Qed.

Lemma assoc_get_None (k : K) (l : list (K * V)) : assoc_get k l = None ↔ k ∉ l.*1.
Proof.
  induction l as [|[k' v'] l IH]; csimpl.
  - split; [intros _ H; by inversion H | done].
  - case_decide as Hk.
    + split; [done |]. intros []. subst. left.
    + rewrite IH. split.
      * intros Hnin [?|?]%elem_of_cons; done.
      * intros Hnin Hin. apply Hnin. by right.
Qed.

Lemma assoc_get_elem_NoDup (k : K) (v : V) (l : list (K * V)) :
  NoDup l.*1 → (k, v) ∈ l → assoc_get k l = Some v.
Proof.
  induction l as [|[k' v'] l IH]; csimpl.
  - intros _ H. by inversion H.
  - intros [Hnin Hnd]%NoDup_cons [Heq|Hin]%elem_of_cons.
    + injection Heq as -> ->. by rewrite decide_True.
    + rewrite decide_False; [auto |].
      intros ->. apply Hnin. apply list_elem_of_fmap. by exists (k', v).
Qed.

Lemma dict_eq (d1 d2 : dict K V) : items d1 = items d2 → d1 = d2.
Proof.
  destruct d1 as [l1 H1], d2 as [l2 H2]; simpl. intros ->.
  f_equal. apply proof_irrel.
Qed.

Lemma dict_get_set_eq (k : K) (v : V) (d : dict K V) : dict_get k (dict_set k v d) = Some v.
Proof. apply assoc_get_set_eq. Qed.

Lemma dict_get_set_ne (k k' : K) (v : V) (d : dict K V) :
  k ≠ k' → dict_get k' (dict_set k v d) = dict_get k' d.
Proof. apply assoc_get_set_ne. Qed.

Lemma dict_keys_set (k : K) (v : V) (d : dict K V) :
  dict_keys (dict_set k v d) =
    if decide (k ∈ dict_keys d) then dict_keys d else dict_keys d ++ [k].
Proof. apply assoc_set_keys. Qed.

Lemma dict_get_item (k : K) (v : V) (d : dict K V) : dict_get k d = Some v ↔ (k, v) ∈ items d.
Proof.
  split; [apply assoc_get_Some_elem |].
  apply assoc_get_elem_NoDup, dict_NoDup.
Qed.

Lemma dict_get_is_Some (k : K) (d : dict K V) : is_Some (dict_get k d) ↔ k ∈ dict_keys d.
Proof.
  unfold dict_get, dict_keys. rewrite <-not_eq_None_Some, assoc_get_None.
  split; [apply dec_stable | auto].
Qed.
End dict_lemmas.

(** ** Comparisons of floats *)

Lemma Qgtb_true x y : Qgtb x y = true → (y < x)%Q.
Proof.
  unfold Qgtb. intros Hgt%negb_true_iff. apply Qnot_le_lt.
  intros Hle%Qle_bool_iff. congruence.
Qed.

Lemma Qgtb_false x y : Qgtb x y = false → (x <= y)%Q.
Proof. unfold Qgtb. intros Hgt%negb_false_iff. by apply Qle_bool_iff. Qed.

Lemma Qle_bool_false x y : Qle_bool x y = false → (y < x)%Q.
Proof.
  intros Hle. apply Qnot_le_lt. intros H%Qle_bool_iff. congruence.
Qed.

Lemma Qle_bool_false_2 x y : (y < x)%Q → Qle_bool x y = false.
Proof.
  intros Hlt. destruct (Qle_bool x y) eqn:Hle; [| done].
  apply Qle_bool_iff in Hle. by apply Qlt_not_le in Hlt.
Qed.

Lemma float_gt_irrefl (x : pyfloat) : float_gt x x = false.
Proof.
  destruct x as [a| | |]; simpl; try done.
  unfold Qgtb. apply negb_false_iff, Qle_bool_iff, Qle_refl.
Qed.

(** What is not at least [x] is not greater than [x]. *)
Lemma float_ge_gt (x y : pyfloat) : float_ge y x = false → float_gt y x = false.
Proof.
  destruct x as [a| | |], y as [b| | |]; simpl; try done.
  intros Hlt%Qle_bool_false. unfold Qgtb.
  apply negb_false_iff, Qle_bool_iff. by apply Qlt_le_weak.
Qed.

Lemma float_gt_flip (x y : pyfloat) : float_gt y x = true → float_ge x y = false.
Proof.
  destruct x as [a| | |], y as [b| | |]; simpl; try done.
  intros Hlt%Qgtb_true. by apply Qle_bool_false_2.
Qed.

(** What is not greater than [x] is below whatever is greater than [x]. *)
Lemma float_gt_below (x y z : pyfloat) :
  float_gt z x = true → float_gt y x = false → float_ge y z = false.
Proof.
  destruct x as [a| | |], y as [b| | |], z as [c| | |]; simpl; try done.
  intros Hac%Qgtb_true Hba%Qgtb_false. apply Qle_bool_false_2.
  by eapply Qle_lt_trans.
Qed.

Lemma float_total (x y : pyfloat) :
  x ≠ NaN → y ≠ NaN → float_gt y x = false → float_ge x y = true.
Proof.
  destruct x as [a| | |], y as [b| | |]; simpl; try done.
  intros _ _ Hba%Qgtb_false. by apply Qle_bool_iff.
Qed.



Section py_max_lemmas.
Context {A : Type} (key : A → pyfloat).

(** The scan: with [x] the maximum so far, nothing in [pre] being at least
    [x] and nothing in [mid] greater than [x], the result splits the whole
    list the same way. *)
Lemma max_scan_split (pre mid l : list A) (x : A) :
  Forall (λ y, float_ge (key y) (key x) = false) pre →
  Forall (λ y, float_gt (key y) (key x) = false) mid →
  ∃ l1 l2,
    pre ++ x :: mid ++ l = l1 ++ max_scan key x l :: l2 ∧
    Forall (λ y, float_ge (key y) (key (max_scan key x l)) = false) l1 ∧
    Forall (λ y, float_gt (key y) (key (max_scan key x l)) = false) l2.
Proof.
  revert pre mid x. induction l as [|item rest IH]; intros pre mid x Hpre Hmid.
  - exists pre, mid. simpl. rewrite app_nil_r. by split_and!.
  - cbn [max_scan]. destruct (float_gt (key item) (key x)) eqn:Hgt.
    + destruct (IH (pre ++ x :: mid) [] item) as (l1 & l2 & Heq & H1 & H2).
      * apply Forall_app_2; [| apply Forall_cons_2].
        -- eapply Forall_impl; [exact Hpre |]. intros y Hy.
           by eapply float_gt_below, float_ge_gt.
        -- by apply float_gt_flip.
        -- eapply Forall_impl; [exact Hmid |]. intros y Hy.
           by eapply float_gt_below.
      * constructor.
      * exists l1, l2. split; [| done]. rewrite <-Heq. simpl.
        by rewrite <-!app_assoc.
    + destruct (IH pre (mid ++ [item]) x) as (l1 & l2 & Heq & H1 & H2).
      * done.
      * apply Forall_app_2; [done |]. by apply Forall_cons_2.
      * exists l1, l2. split; [| done]. rewrite <-Heq.
        by rewrite <-!app_assoc.
Qed.

Lemma max_scan_elem (x : A) l : max_scan key x l ∈ x :: l.
Proof.
  destruct (max_scan_split [] [] l x) as (l1 & l2 & Heq & _); [constructor.. |].
  simpl in Heq. rewrite Heq. apply elem_of_app. right. left.
Qed.

Lemma max_scan_not_gt (x : A) l y :
  y ∈ x :: l → float_gt (key y) (key (max_scan key x l)) = false.
Proof.
  destruct (max_scan_split [] [] l x) as (l1 & l2 & Heq & H1 & H2);
    [constructor.. |].
  simpl in Heq. rewrite Heq.
  intros [Hy|[->|Hy]%elem_of_cons]%elem_of_app.
  - by apply float_ge_gt, (proj1 (Forall_forall _ _) H1).
  - apply float_gt_irrefl.
  - by apply (proj1 (Forall_forall _ _) H2).
Qed.
End py_max_lemmas.

Create HintDb glue discriminated.

Section glue.
Variable L : library.
Variable ok : effect → Prop.
Variable Φ : ∀ A, M A → Prop.
Hypothesis HΦ : closed L ok Φ.

Local Ltac glue1 :=
  match goal with
  | |- Φ _ (mret _) => apply (c_ret _ _ _ HΦ)
  | |- Φ _ (raise _) => apply (c_raise _ _ _ HΦ)
  | |- Φ _ (_ ≫= _) => apply (c_bind _ _ _ HΦ); [| intros ?]
  | |- Φ _ (get_var _) => apply (c_get_var _ _ _ HΦ)
  | |- Φ _ (alloc _) => apply (c_alloc _ _ _ HΦ)
  | |- Φ _ (load _) => apply (c_load _ _ _ HΦ)
  | |- Φ _ (modify_dict _ _) => apply (c_modify_dict _ _ _ HΦ)
  | |- Φ _ (lib_call _ ?c) => exact (c_lib_call _ _ _ HΦ c)
  | |- Φ _ (let '(_, _) := ?x in _) => destruct x
  | |- Φ _ (match ?x with _ => _ end) => destruct x
  | |- Φ _ (if ?b then _ else _) => destruct b
  end.

Local Ltac glue := repeat glue1.

Lemma glue_lift A (r : result A) : Φ A (lift r).
Proof. unfold lift. glue. Qed.

Lemma glue_load_graph v : Φ _ (load_graph v).
Proof. unfold load_graph. glue. Qed.

Lemma glue_load_dict v : Φ _ (load_dict v).
Proof. unfold load_dict. glue. Qed.

Lemma glue_as_scores v : Φ _ (as_scores v).
Proof. unfold as_scores. glue. Qed.

Lemma glue_as_frame v : Φ _ (as_frame v).
Proof. unfold as_frame. glue. Qed.

Lemma glue_as_str v : Φ _ (as_str v).
Proof. unfold as_str. glue. Qed.

Lemma glue_py_str v : Φ _ (py_str v).
Proof. unfold py_str. glue. Qed.

Lemma glue_unpack2 v : Φ _ (unpack2 v).
Proof. unfold unpack2. glue. Qed.

Lemma glue_get_graph x : Φ _ (get_graph x).
Proof. unfold get_graph. glue. apply glue_load_graph. Qed.

Lemma glue_get_frame x : Φ _ (get_frame x).
Proof. unfold get_frame. glue. apply glue_as_frame. Qed.

Lemma glue_setitem v k x : Φ _ (setitem v k x).
Proof. unfold setitem. glue. Qed.

Lemma glue_delitem v k : Φ _ (delitem v k).
Proof. unfold delitem. glue. Qed.

Lemma glue_subscript v k : Φ _ (subscript v k).
Proof. unfold subscript. glue; apply glue_load_dict. Qed.

Lemma glue_for_each A (xs : list A) body :
  (∀ x, Φ _ (body x)) → Φ _ (for_each xs body).
Proof. intros Hb. induction xs as [|x xs IH]; simpl; glue; auto. Qed.

Lemma glue_mapM A B (f : A → M B) xs :
  (∀ x, Φ _ (f x)) → Φ _ (mapM f xs).
Proof. intros Hf. induction xs as [|x xs IH]; simpl; glue; auto. Qed.

Lemma glue_next_item l n i : Φ _ (next_item l n i).
Proof. unfold next_item. glue. apply glue_load_dict. Qed.

Lemma glue_for_items l body :
  (∀ k v, Φ _ (body k v)) → Φ _ (for_items l body).
Proof.
  intros Hb. unfold for_items. glue; [apply glue_load_dict | | apply glue_next_item].
  apply glue_for_each. intros i. glue; [apply glue_next_item | apply Hb].
Qed.

Lemma glue_copy_items copy l' memo its :
  (∀ memo v, Φ _ (copy memo v)) → Φ _ (copy_items copy l' memo its).
Proof.
  intros Hc. revert memo.
  induction its as [|[k v] its IH]; intros memo; simpl; glue; auto.
  apply glue_setitem.
Qed.

Lemma glue_copy_list copy memo vs :
  (∀ memo v, Φ _ (copy memo v)) → Φ _ (copy_list copy memo vs).
Proof.
  intros Hc. revert memo.
  induction vs as [|v vs IH]; intros memo; simpl; glue; auto.
Qed.

Lemma glue_deepcopy_rec depth memo v : Φ _ (deepcopy_rec depth memo v).
Proof.
  revert memo v. induction depth as [|depth IH]; intros memo v.
  - destruct v; simpl; glue.
  - destruct v; simpl; glue;
      first [by apply glue_copy_items | by apply glue_copy_list].
Qed.

Lemma glue_deepcopy v : Φ _ (deepcopy v).
Proof. unfold deepcopy. glue. apply glue_deepcopy_rec. Qed.

Lemma glue_materialize_items its acc : Φ _ (materialize_items its acc).
Proof.
  revert acc. induction its as [|[k [v|d]] its IH]; intros acc; simpl; glue; auto.
Qed.

Lemma glue_materialize d : Φ _ (materialize d).
Proof. unfold materialize. glue. apply glue_materialize_items. Qed.

Local Hint Resolve glue_lift glue_load_graph glue_load_dict glue_as_scores
  glue_as_frame glue_as_str glue_py_str glue_unpack2 glue_get_graph
  glue_get_frame glue_setitem glue_delitem glue_subscript glue_deepcopy
  glue_materialize : glue.

Local Ltac assigned H :=
  apply (c_assign _ _ _ HΦ); eapply Forall_forall; [exact H |];
  apply list_elem_of_In; simpl; tauto.

Local Ltac glue_cell H :=
  repeat first [glue1 | assigned H | solve [auto with glue]].

Lemma glue_unpack_loop nested suffix var :
  ok (Assign "k") → ok (Assign var) → Φ _ (unpack_loop nested suffix var).
Proof.
  intros Hk Hv. unfold unpack_loop. glue; auto with glue.
  apply glue_for_items. intros k v.
  glue; auto with glue; by apply (c_assign _ _ _ HΦ).
Qed.

Lemma glue_highlight hit miss : Φ _ (highlight hit miss).
Proof.
  unfold highlight. glue; auto with glue.
  apply glue_mapM. intros x. glue.
Qed.

Lemma glue_highlight_plot :
  ok (Assign "fig") → ok (Assign "ax") → Φ _ (highlight_plot L).
Proof.
  intros Hf Ha. unfold highlight_plot.
  glue; auto with glue; by apply (c_assign _ _ _ HΦ).
Qed.

Lemma glue_bc_plot :
  ok (Assign "nc") → ok (Assign "fig") → ok (Assign "ax") → Φ _ (bc_plot L).
Proof.
  intros Hn Hf Ha. unfold bc_plot.
  glue; auto with glue; by apply (c_assign _ _ _ HΦ).
Qed.

Lemma glue_notebook :
  Forall2 (λ c effs, Forall ok effs → Φ unit c) (notebook L) effects.
Proof.
  unfold notebook, effects.
  repeat (constructor; [intros H |]); [..| constructor].
  - unfold cell_install. glue_cell H.
  - unfold cell_import. glue_cell H.
  - unfold cell_graph_from_point. glue_cell H.
  - unfold cell_plot_hk. glue_cell H.
  - unfold cell_read_boundary. glue_cell H.
  - unfold cell_show_boundary. glue_cell H.
  - unfold cell_filter_chiyoda. glue_cell H.
  - unfold cell_plot_chiyoda. glue_cell H.
  - unfold cell_show_geometry, chiyoda_geometry. glue_cell H.
  - unfold cell_graph_from_polygon, chiyoda_geometry. glue_cell H.
  - unfold cell_plot_chiyoda_graph. glue_cell H.
  - unfold cell_folium. glue_cell H.
  - unfold cell_graph_from_place. glue_cell H.
  - unfold cell_basic_stats. glue_cell H.
  - unfold cell_show_stats. glue_cell H.
  - unfold cell_stats_unpack, flatten.
    assert (ok (Assign "k") ∧ ok (Assign "count") ∧ ok (Assign "proportion"))
      as (Hk & Hc & Hp).
    { rewrite Forall_forall in H.
      split_and!; apply H, list_elem_of_In; simpl; tauto. }
    glue_cell H; by apply glue_unpack_loop.
  - unfold cell_street_count_plot. glue_cell H.
  - unfold cell_betweenness. glue_cell H.
  - unfold cell_highlight, highlight_plot. glue_cell H; apply glue_highlight.
  - unfold cell_attach_bc, bc_plot. glue_cell H.
    apply (c_set_node_attributes _ _ _ HΦ). by apply Forall_inv in H.
  - unfold cell_save_geopackage. glue_cell H.
  - unfold cell_save_shapefile. glue_cell H.
  - unfold cell_save_svg. glue_cell H.
Qed.
End glue.

(** ** The maximum of the centrality dictionary *)

Lemma py_max_items (bc : dict node pyfloat) :
  items bc ≠ [] →
  ∃ max_node max_bc,
    py_max snd (items bc) = Ok (max_node, max_bc) ∧
    (max_node, max_bc) ∈ items bc ∧
    ∀ n v, (n, v) ∈ items bc → float_gt v max_bc = false.
Proof.
  destruct bc as [[|it its] Hnd]; simpl; [done | intros _].
  destruct (max_scan snd it its) as [n x] eqn:Hmax.
  exists n, x. split_and!; [done | |].
  - rewrite <-Hmax. apply max_scan_elem.
  - intros n' v Hin.
    change x with (snd (n, x)). rewrite <-Hmax.
    by apply (max_scan_not_gt snd it its (n', v)).
Qed.

(** C8, as amended: on a non-empty centrality dictionary,
    [max(bc.items(), key=lambda x: x[1])] returns a pair [(max_node, max_bc)]
    where [max_node] is a key of [bc], [max_bc] is [bc[max_node]], and no
    value of [bc] is greater than [max_bc]; where no value of [bc] is NaN,
    [max_bc] is greater than or equal to every value of [bc]. *)
Theorem max_node_selection (bc : dict node pyfloat) :
  items bc ≠ [] →
  ∃ max_node max_bc,
    py_max snd (items bc) = Ok (max_node, max_bc) ∧
    max_node ∈ dict_keys bc ∧
    dict_get max_node bc = Some max_bc ∧
    (∀ n v, dict_get n bc = Some v → float_gt v max_bc = false) ∧
    ((∀ n, dict_get n bc ≠ Some NaN) →
     ∀ n v, dict_get n bc = Some v → float_ge max_bc v = true).
Proof.
  intros Hne. destruct (py_max_items bc Hne) as (n & x & Hmax & Hin & Hge).
  exists n, x. split_and!; [done | | | |].
  - apply dict_get_is_Some. exists x. by apply dict_get_item.
  - by apply dict_get_item.
  - intros n' v Hget. apply (Hge n'). by apply dict_get_item.
  - intros Hnan n' v Hget. apply float_total.
    + intros ->. apply (Hnan n). by apply dict_get_item.
    + intros ->. by apply (Hnan n').
    + apply (Hge n'). by apply dict_get_item.
Qed.

Lemma max_node_selection_witness :
  items bc_sample ≠ [] ∧
  ∃ max_node max_bc,
    py_max snd (items bc_sample) = Ok (max_node, max_bc) ∧
    max_node ∈ dict_keys bc_sample ∧
    dict_get max_node bc_sample = Some max_bc ∧
    (∀ n v, dict_get n bc_sample = Some v → float_gt v max_bc = false) ∧
    ((∀ n, dict_get n bc_sample ≠ Some NaN) →
     ∀ n v, dict_get n bc_sample = Some v → float_ge max_bc v = true).
Proof.
  split; [discriminate |].
  apply (max_node_selection bc_sample). discriminate.
Defined.

(** In the spec's wording, [max_bc] greater than or equal to every value of
    [bc], the property fails on a NaN: with [nan] first, [max] keeps it,
    since no score compares greater than it, and it is not greater than or
    equal to the other score. *)
Lemma max_node_selection_counterexample :
  items nan_scores ≠ [] ∧
  ¬ ∃ max_node max_bc,
      py_max snd (items nan_scores) = Ok (max_node, max_bc) ∧
      max_node ∈ dict_keys nan_scores ∧
      dict_get max_node nan_scores = Some max_bc ∧
      ∀ n v, dict_get n nan_scores = Some v → float_ge max_bc v = true.
Proof.
  split; [discriminate |].
  intros (max_node & max_bc & [= <- <-] & _ & _ & Hge).
  by specialize (Hge 2 (Num 0.5) eq_refl).
Qed.

(** Among equal scores the first one in the dictionary's order is selected;
    a NaN that comes first is kept. *)
Example max_node_sample : py_max snd (items bc_sample) = Ok (20, Num 0.5).
Proof. reflexivity. Qed.

Example max_nan_sample : py_max snd (items nan_scores) = Ok (1, NaN).
Proof. reflexivity. Qed.

(** ** Attaching node attributes *)

Lemma same_but_refl name g : same_but name g g.
Proof. by split. Qed.

Lemma same_but_trans name g1 g2 g3 :
  same_but name g1 g2 → same_but name g2 g3 → same_but name g1 g3.
Proof.
  intros [A1 E1 N1 H1] [A2 E2 N2 H2]. split; [congruence.. |].
  intros n a Ha. by rewrite H2, H1.
Qed.

Section set_node_attributes.
Variable name : string.

Let attach (o : option pyfloat) (a : dict string attr) : dict string attr :=
  from_option (λ x, dict_set name (AFloat x) a) a o.

Lemma set_node_attr_get g k x n :
  dict_get n (g_node (set_node_attr name g (k, x))) =
    if decide (n = k) then attach (Some x) <$> dict_get n (g_node g)
    else dict_get n (g_node g).
Proof.
  unfold set_node_attr; simpl.
  destruct (dict_get k (g_node g)) as [a|] eqn:Hk; simpl.
  - case_decide as Hn; [subst; by rewrite dict_get_set_eq, Hk |].
    by rewrite dict_get_set_ne.
  - case_decide; [subst; by rewrite Hk | done].
Qed.

Lemma set_node_attr_frame g kx :
  g_attrs (set_node_attr name g kx) = g_attrs g ∧
  g_edges (set_node_attr name g kx) = g_edges g ∧
  graph_nodes (set_node_attr name g kx) = graph_nodes g.
Proof.
  unfold set_node_attr, graph_nodes.
  destruct (dict_get kx.1 (g_node g)) as [a|] eqn:Hk; simpl; [| done].
  split_and!; [done.. |].
  rewrite dict_keys_set, decide_True; [done |].
  apply dict_get_is_Some. by exists a.
Qed.

Lemma foldl_set_node_attr_frame l g :
  g_attrs (foldl (set_node_attr name) g l) = g_attrs g ∧
  g_edges (foldl (set_node_attr name) g l) = g_edges g ∧
  graph_nodes (foldl (set_node_attr name) g l) = graph_nodes g.
Proof.
  revert g. induction l as [|kx l IH]; intros g; simpl; [done |].
  destruct (IH (set_node_attr name g kx)) as (-> & -> & ->).
  apply set_node_attr_frame.
Qed.

Lemma foldl_set_node_attr_get l g n :
  NoDup l.*1 →
  dict_get n (g_node (foldl (set_node_attr name) g l)) =
    attach (assoc_get n l) <$> dict_get n (g_node g).
Proof.
  revert g. induction l as [|[k x] l IH]; intros g; csimpl.
  - intros _. by destruct (dict_get n (g_node g)).
  - intros [Hnin Hnd]%NoDup_cons. rewrite IH, set_node_attr_get by done.
    destruct (decide (n = k)) as [->|Hne].
    + apply assoc_get_None in Hnin. rewrite Hnin.
      by destruct (dict_get k (g_node g)).
    + done.
Qed.

Lemma set_node_attributes_get g values n :
  dict_get n (g_node (set_node_attributes g values name)) =
    attach (dict_get n values) <$> dict_get n (g_node g).
Proof. apply foldl_set_node_attr_get, dict_NoDup. Qed.

(** A node of the graph that has a score carries it afterwards. *)
Lemma set_node_attributes_attached g values n x :
  n ∈ graph_nodes g →
  dict_get n values = Some x →
  node_attr (set_node_attributes g values name) n name = Some (AFloat x).
Proof.
  intros [a Ha]%dict_get_is_Some Hx. unfold node_attr.
  rewrite set_node_attributes_get, Ha, Hx; simpl.
  apply dict_get_set_eq.
Qed.

Lemma set_node_attributes_same_but g values :
  same_but name g (set_node_attributes g values name).
Proof.
  destruct (foldl_set_node_attr_frame (items values) g) as (? & ? & ?).
  split; [done.. |]. intros n a Ha. unfold node_attr.
  rewrite set_node_attributes_get.
  destruct (dict_get n (g_node g)) as [d|]; simpl; [| done].
  destruct (dict_get n values); simpl; [| done].
  by apply dict_get_set_ne.
Qed.
End set_node_attributes.

(** ** The range of the centrality scores *)

Lemma Qsum_bounds (l : list Q) :
  Forall (λ x, 0 <= x <= 1)%Q l →
  (0 <= Qsum l <= inject_Z (Z.of_nat (length l)))%Q.
Proof.
  induction 1 as [|x l [Hx0 Hx1] _ [IH0 IH1]]; cbn [Qsum foldr length].
  - split; apply Qle_refl.
  - fold (Qsum l). split.
    + rewrite <-(Qplus_0_l 0). by apply Qplus_le_compat.
    + rewrite Nat2Z.inj_succ, <-Z.add_1_l, inject_Z_plus.
      by apply Qplus_le_compat.
Qed.

Lemma share_bounds {A} (P : A → bool) (l : list A) :
  l ≠ [] →
  (0 <= Z.of_nat (length (List.filter P l)) # Pos.of_nat (length l) <= 1)%Q.
Proof.
  intros Hl. pose proof (filter_length_le P l) as Hle.
  assert (Z.pos (Pos.of_nat (length l)) = Z.of_nat (length l)) as Hden.
  { destruct l as [|a l]; [done |]. cbn [length].
    by rewrite <-Pos.of_nat_succ, Zpos_P_of_succ_nat, Nat2Z.inj_succ. }
  unfold Qle. cbn [Qnum Qden]. rewrite Hden. lia.
Qed.

Lemma pair_share_bounds g weight v s t :
  (0 <= pair_share g weight v s t <= 1)%Q.
Proof.
  unfold pair_share. destruct (shortest_paths g weight s t) as [|p sp] eqn:Hsp.
  - split; [apply Qle_refl | done].
  - by apply share_bounds.
Qed.

Lemma filter_ne_length (x : node) (l : list node) :
  x ∈ l →
  (S (length (List.filter (λ y, negb (bool_decide (y = x))) l)) ≤ length l)%nat.
Proof.
  induction l as [|y l IH]; [by inversion 1 |].
  intros [<-|Hin]%elem_of_cons; simpl.
  - rewrite bool_decide_eq_true_2 by done. simpl.
    pose proof (filter_length_le (λ y, negb (bool_decide (y = x))) l). lia.
  - specialize (IH Hin). destruct (negb _); simpl; lia.
Qed.

Lemma pairs_without_length (v : node) (nodes : list node) :
  v ∈ nodes →
  (length (pairs_without v nodes) ≤ (length nodes - 1) * (length nodes - 2))%nat.
Proof.
  intros Hv. unfold pairs_without.
  set (others := List.filter (λ s, negb (bool_decide (s = v))) nodes).
  pose proof (filter_ne_length v nodes Hv) as Hothers. fold others in Hothers.
  assert (∀ l, (∀ s, s ∈ l → s ∈ others) →
    length (flat_map (λ s,
      pair s <$> List.filter (λ t, negb (bool_decide (t = s))) others) l)
      ≤ length l * (length others - 1))%nat as Hflat.
  { induction l as [|s l IH]; intros Hl; simpl; [lia |].
    rewrite length_app, length_fmap.
    pose proof (filter_ne_length s others (Hl s ltac:(left))).
    specialize (IH (λ s' Hs', Hl s' ltac:(by right))). lia. }
  etrans; [apply Hflat; auto |]. nia.
Qed.

Lemma node_score_bounds (g : graph) (weight : string) (v : node) :
  v ∈ graph_nodes g → (0 <= node_score g weight v <= 1)%Q.
Proof.
  intros Hv. unfold node_score. rewrite Qred_correct.
  set (shares := (λ st, pair_share g weight v st.1 st.2)
                   <$> pairs_without v (graph_nodes g)).
  assert (0 <= Qsum shares <= inject_Z (Z.of_nat (length shares)))%Q as [H0 H1].
  { apply Qsum_bounds, Forall_fmap, Forall_forall. intros [s t] _.
    apply pair_share_bounds. }
  assert (length shares ≤ (length (graph_nodes g) - 1) * (length (graph_nodes g) - 2))%nat
    as Hlen.
  { unfold shares. rewrite length_fmap. by apply pairs_without_length. }
  case_bool_decide as Hn.
  - set (D := ((length (graph_nodes g) - 1) * (length (graph_nodes g) - 2))%nat) in *.
    assert (0 < inject_Z (Z.of_nat D))%Q as HD.
    { change 0%Q with (inject_Z 0). rewrite <-Zlt_Qlt. unfold D. nia. }
    split.
    + apply Qle_shift_div_l; [done |]. by rewrite Qmult_0_l.
    + apply Qle_shift_div_r; [done |]. rewrite Qmult_1_l.
      eapply Qle_trans; [exact H1 |]. rewrite <-Zle_Qle. lia.
  - split; [done |]. eapply Qle_trans; [exact H1 |].
    change 1%Q with (inject_Z 1). rewrite <-Zle_Qle. nia.
Qed.

Lemma betweenness_centrality_item (g : graph) (weight : string) (n : node) (x : score) :
  dict_get n (betweenness_centrality g weight) = Some x →
  n ∈ graph_nodes g ∧ x = node_score g weight n.
Proof.
  intros Hget. apply dict_get_item in Hget. simpl in Hget.
  by apply list_elem_of_fmap in Hget as (v & [= -> ->] & Hv).
Qed.

(** C3: every value of the centrality mapping lies between [0] and [1]. *)
Theorem scores_in_unit_interval (g : graph) (weight : string) (n : node) (x : score) :
  dict_get n (betweenness_centrality g weight) = Some x →
  (0 <= x <= 1)%Q.
Proof.
  intros [Hn ->]%betweenness_centrality_item. by apply node_score_bounds.
Qed.

Lemma scores_in_unit_interval_witness :
  dict_get 20 (betweenness_centrality sample_digraph "length") = Some (1 # 2)%Q ∧
  (0 <= 1 # 2 <= 1)%Q.
Proof.
  split; [reflexivity |].
  apply (scores_in_unit_interval sample_digraph "length" 20). reflexivity.
Defined.

(** On the sample digraph [10 → 20 → 30], node [20] lies on the one shortest
    path between the two other nodes that are connected, out of two pairs. *)
Example scores_sample :
  items (betweenness_centrality sample_digraph "length") =
    [(10, 0%Q); (20, (1 # 2)%Q); (30, 0%Q)].
Proof. reflexivity. Qed.

(** ** The boundary filter *)

Lemma cell_eq_str_true s c : cell_eq_str s c = true ↔ c = CStr s.
Proof.
  destruct c; simpl; try (split; [discriminate | by intros [=]]).
  rewrite bool_decide_eq_true. split; [by intros -> | by intros [= ->]].
Qed.

Lemma select_rows_filter rows i s :
  select_rows rows (series_eq ((λ r, (r_label r, row_cell i r)) <$> rows) s) =
    List.filter (λ r, cell_eq_str s (row_cell i r)) rows.
Proof.
  induction rows as [|r rows IH]; csimpl; [done |].
  unfold series_eq in *. rewrite IH. done.
Qed.

Lemma select_rows_sublist rows mask : select_rows rows mask `sublist_of` rows.
Proof.
  revert mask. induction rows as [|r rows IH]; intros [|[] mask]; simpl;
    try apply sublist_nil_l.
  - by apply sublist_skip.
  - by apply sublist_cons.
Qed.

(** C5: the boundary cell keeps a row of the loaded table if and only if its
    [N03_004] field equals the district name; the kept rows are rows of the
    table, in the table's order, and the columns are the table's. *)
Theorem chiyoda_filter (s : state) (df : frame) (i : nat) :
  ns s !! "tokyo_pre_boundary" = Some (VFrame df) →
  col_index "N03_004" df = Some i →
  ∃ chiyoda,
    cell_filter_chiyoda s =
      (State (<["chiyoda" := VFrame chiyoda]> (ns s)) (heap s) (trace s), Ok tt) ∧
    f_columns chiyoda = f_columns df ∧
    f_rows chiyoda = List.filter (λ r, cell_eq_str "千代田区" (row_cell i r)) (f_rows df) ∧
    f_rows chiyoda `sublist_of` f_rows df ∧
    ∀ r, r ∈ f_rows df →
      (r ∈ f_rows chiyoda ↔ row_cell i r = CStr "千代田区").
Proof.
  intros Hns Hcol.
  exists (frame_getitem_mask df
    (series_eq ((λ r, (r_label r, row_cell i r)) <$> f_rows df) "千代田区")).
  assert (f_rows (frame_getitem_mask df
    (series_eq ((λ r, (r_label r, row_cell i r)) <$> f_rows df) "千代田区")) =
    List.filter (λ r, cell_eq_str "千代田区" (row_cell i r)) (f_rows df)) as Hrows.
  { apply select_rows_filter. }
  split_and!; [| done | done | |].
  - unfold cell_filter_chiyoda, get_frame, get_var, as_frame, frame_attr, lift,
      assign, mbind, M_bind, mret, M_ret.
    rewrite Hns; simpl. rewrite Hns; simpl. by rewrite Hcol.
  - apply select_rows_sublist.
  - intros r Hr. rewrite Hrows, list_elem_of_In, filter_In, <-list_elem_of_In.
    rewrite cell_eq_str_true. tauto.
Qed.

Lemma chiyoda_filter_witness :
  ns boundary_state !! "tokyo_pre_boundary" = Some (VFrame sample_frame) ∧
  col_index "N03_004" sample_frame = Some 1%nat ∧
  ∃ chiyoda,
    cell_filter_chiyoda boundary_state =
      (State (<["chiyoda" := VFrame chiyoda]> (ns boundary_state))
             (heap boundary_state) (trace boundary_state), Ok tt) ∧
    f_columns chiyoda = f_columns sample_frame ∧
    f_rows chiyoda =
      List.filter (λ r, cell_eq_str "千代田区" (row_cell 1 r)) (f_rows sample_frame) ∧
    f_rows chiyoda `sublist_of` f_rows sample_frame ∧
    ∀ r, r ∈ f_rows sample_frame →
      (r ∈ f_rows chiyoda ↔ row_cell 1 r = CStr "千代田区").
Proof.
  split; [reflexivity |]. split; [reflexivity |].
  apply (chiyoda_filter boundary_state sample_frame 1); reflexivity.
Defined.

(** Of the three sample districts, one is kept. *)
Example chiyoda_sample :
  r_label <$> select_rows (f_rows sample_frame)
    (series_eq ((λ r, (r_label r, row_cell 1 r)) <$> f_rows sample_frame) "千代田区")
  = [0].
Proof. reflexivity. Qed.

(** ** Properties that the glue keeps *)

Lemma bind_unfold {A B} (m : M A) (f : A → M B) s :
  (m ≫= f) s =
    match m s with
    | (s', Ok a) => f a s'
    | (s', Raise e) => (s', Raise e)
    end.
Proof. done. Qed.

Lemma load_dict_cases v s :
  (∃ e, load_dict v s = (s, Raise e)) ∨
  (∃ l d, v = VRef l ∧ heap s !! l = Some (ODict d) ∧ load_dict v s = (s, Ok (l, d))).
Proof.
  destruct v; try (left; by eexists).
  unfold load_dict, load. rewrite bind_unfold.
  destruct (heap s !! l) as [[g|d]|] eqn:Hl; try (left; by eexists).
  right. by exists l, d.
Qed.

Lemma load_graph_cases v s :
  (∃ e, load_graph v s = (s, Raise e)) ∨
  (∃ l g, v = VRef l ∧ heap s !! l = Some (OGraph g) ∧ load_graph v s = (s, Ok (l, g))).
Proof.
  destruct v; try (left; by eexists).
  unfold load_graph, load. rewrite bind_unfold.
  destruct (heap s !! l) as [[g|d]|] eqn:Hl; try (left; by eexists).
  right. by exists l, g.
Qed.

Lemma modify_dict_cases v f s :
  (∃ e, modify_dict v f s = (s, Raise e)) ∨
  (∃ l d d', v = VRef l ∧ heap s !! l = Some (ODict d) ∧ f d = Ok d' ∧
     modify_dict v f s =
       (State (ns s) (<[l:=ODict d']> (heap s)) (trace s), Ok tt)).
Proof.
  unfold modify_dict. rewrite bind_unfold.
  destruct (load_dict_cases v s) as [[e ->]|(l & d & -> & Hl & ->)];
    [left; by eexists |].
  rewrite bind_unfold. destruct (f d) as [d'|e] eqn:Hf; simpl.
  - right. by exists l, d, d'.
  - left. by eexists.
Qed.

Lemma nx_set_node_attributes_cases v values name s :
  (∃ e, nx_set_node_attributes v values name s = (s, Raise e)) ∨
  (∃ l g, v = VRef l ∧ heap s !! l = Some (OGraph g) ∧
     nx_set_node_attributes v values name s =
       (State (ns s) (<[l:=OGraph (set_node_attributes g values name)]> (heap s))
              (trace s), Ok tt)).
Proof.
  unfold nx_set_node_attributes. rewrite bind_unfold.
  destruct (load_graph_cases v s) as [[e ->]|(l & g & -> & Hl & ->)];
    [left; by eexists |].
  right. by exists l, g.
Qed.

Section frames.
Variable L : library.

Lemma keeps_var_closed x : closed L (λ e, e ≠ Assign x) (keeps_var x).
Proof.
  split; unfold keeps_var; try done.
  - intros A B m f Hm Hf s. rewrite bind_unfold.
    specialize (Hm s). destruct (m s) as [s1 [a|e]]; simpl in *; [| done].
    by rewrite Hf.
  - intros y s. unfold get_var. by destruct (ns s !! y).
  - intros y v Hy s. simpl. apply lookup_insert_ne. congruence.
  - intros l s. unfold load. by destruct (heap s !! l).
  - intros v f s.
    by destruct (modify_dict_cases v f s) as [[e ->]|(l & d & d' & _ & _ & _ & ->)].
  - intros v d name _ s.
    by destruct (nx_set_node_attributes_cases v d name s)
      as [[e ->]|(l & g & _ & _ & ->)].
Qed.

Lemma keeps_graphs_closed :
  closed L (λ e, ∀ name, e ≠ SetNodeAttr name) keeps_graphs.
Proof.
  split; unfold keeps_graphs; try done.
  - intros A B m f Hm Hf s l g Hl. rewrite bind_unfold.
    specialize (Hm s l g Hl). destruct (m s) as [s1 [a|e]]; simpl in *; [| done].
    by apply Hf.
  - intros y s. unfold get_var. by destruct (ns s !! y).
  - intros o s l g Hl. simpl. by apply lookup_app_l_Some.
  - intros l s. unfold load. by destruct (heap s !! l).
  - intros v f s l0 g Hl0.
    destruct (modify_dict_cases v f s) as [[e ->]|(l & d & d' & _ & Hl & _ & ->)];
      [done |]. simpl.
    rewrite list_lookup_insert_ne; [done | congruence].
  - intros v d name Hok. by destruct (Hok name).
Qed.

Lemma graphs_same_but_closed name :
  closed L (λ e, ∀ name', e = SetNodeAttr name' → name' = name)
         (graphs_same_but name).
Proof.
  split; unfold graphs_same_but;
    try (intros; eexists; split; [done | apply same_but_refl]).
  - intros A B m f Hm Hf s l g Hl. rewrite bind_unfold.
    destruct (Hm s l g Hl) as (g1 & Hl1 & Hg1).
    destruct (m s) as [s1 [a|e]]; simpl in *; [| by exists g1].
    destruct (Hf a s1 l g1 Hl1) as (g2 & Hl2 & Hg2).
    exists g2. split; [done |]. by eapply same_but_trans.
  - intros y s l g Hl. exists g. split; [| apply same_but_refl].
    unfold get_var. by destruct (ns s !! y).
  - intros o s l g Hl. exists g. split; [| apply same_but_refl].
    simpl. by apply lookup_app_l_Some.
  - intros l0 s l g Hl. exists g. split; [| apply same_but_refl].
    unfold load. by destruct (heap s !! l0).
  - intros v f s l0 g Hl0. exists g. split; [| apply same_but_refl].
    destruct (modify_dict_cases v f s) as [[e ->]|(l & d & d' & _ & Hl & _ & ->)];
      [done |]. simpl.
    rewrite list_lookup_insert_ne; [done | congruence].
  - intros v d name' Hok s l0 g0 Hl0. rewrite (Hok name' eq_refl).
    destruct (nx_set_node_attributes_cases v d name s)
      as [[e ->]|(l & g & _ & Hl & ->)];
      [exists g0; split; [done | apply same_but_refl] |]. simpl.
    destruct (decide (l = l0)) as [->|Hne].
    + rewrite list_lookup_insert_eq by (by eapply lookup_lt_Some).
      assert (g = g0) as -> by congruence.
      eexists. split; [done |]. apply set_node_attributes_same_but.
    + rewrite list_lookup_insert_ne by done.
      exists g0. split; [done | apply same_but_refl].
Qed.
End frames.

Lemma notebook_effects L i c :
  notebook L !! i = Some c →
  ∃ effs, effects !! i = Some effs ∧
    ∀ ok Φ, closed L ok Φ → Forall ok effs → Φ unit c.
Proof.
  intros Hi.
  destruct (effects !! i) as [effs|] eqn:Heffs.
  - exists effs. split; [done |]. intros ok Φ HΦ.
    by apply (Forall2_lookup_lr _ _ _ _ _ _ (glue_notebook L ok Φ HΦ) Hi Heffs).
  - apply lookup_ge_None in Heffs. apply lookup_lt_Some in Hi.
    simpl in *. lia.
Qed.

Example sample_run_completes : (run_all sample_library init).2 = Completed.
Proof. reflexivity. Qed.

Example failing_run_halts : (run_all failing_library init).2 = Halted 4 timeout.
Proof. reflexivity. Qed.

(** ** The graph object across the cells *)

Example extraction_cell L : notebook L !! 2%nat = Some (cell_graph_from_point L).
Proof. reflexivity. Qed.

Example attachment_cell L : notebook L !! 19%nat = Some (cell_attach_bc L).
Proof. reflexivity. Qed.

(** X14: the statements of the notebook update a graph object in one place
    only.  A library call is handed the graph and hands back a result; what
    the library does to the graph it is handed is outside the model.  With
    that, no cell other than the centrality attachment (cell 19) changes a
    graph object on the heap, and that cell changes it in the node attribute
    ["bc"] only: the graph attributes, the edges, the nodes and every other
    node attribute stay.  The name [hk_graph] is bound by the extraction cell
    (cell 2) and rebound by no other cell. *)
Theorem graph_changed_only_by_bc L (i : nat) (c : M unit) (s : state) (l : loc) (g : graph) :
  notebook L !! i = Some c →
  heap s !! l = Some (OGraph g) →
  (∃ g', heap (c s).1 !! l = Some (OGraph g') ∧
         same_but "bc" g g' ∧
         (i ≠ 19%nat → g' = g)) ∧
  (i ≠ 2%nat → ns (c s).1 !! "hk_graph" = ns s !! "hk_graph").
Proof.
  intros Hi Hl. destruct (notebook_effects L i c Hi) as (effs & Heffs & Hglue).
  split.
  - destruct (Hglue _ _ (graphs_same_but_closed L "bc")) with s l g
      as (g' & Hl' & Hsame); [| done |].
    { eapply (Forall_lookup_1 (Forall (λ e, ∀ n, e = SetNodeAttr n → n = "bc")));
        [| exact Heffs].
      unfold effects.
      repeat (constructor; [repeat (constructor; [by intros ? [= <-] |]); constructor |]).
      constructor. }
    exists g'. split_and!; [done.. |]. intros Hne.
    assert (Forall (λ e, ∀ n, e ≠ SetNodeAttr n) effs) as Hok.
    { revert Heffs Hne. clear. unfold effects.
      do 19 (destruct i as [|i];
        [intros [= <-] _; repeat (constructor; [by intros ? |]); constructor |]).
      destruct i as [|i]; [done |].
      do 3 (destruct i as [|i];
        [intros [= <-] _; repeat (constructor; [by intros ? |]); constructor |]).
      done. }
    specialize (Hglue _ _ (keeps_graphs_closed L) Hok s l g Hl). congruence.
  - intros Hne. apply (Hglue _ _ (keeps_var_closed L "hk_graph")).
    revert Heffs Hne. clear. unfold effects.
    do 2 (destruct i as [|i];
      [intros [= <-] _; repeat (constructor; [by intros [=] |]); constructor |]).
    destruct i as [|i]; [done |].
    do 20 (destruct i as [|i];
      [intros [= <-] _; repeat (constructor; [by intros [=] |]); constructor |]).
    done.
Qed.

Lemma graph_changed_only_by_bc_witness :
  notebook sample_library !! 19%nat = Some (cell_attach_bc sample_library) ∧
  heap scored_state !! 0%nat = Some (OGraph sample_graph) ∧
  (cell_attach_bc sample_library scored_state).2 = Ok tt ∧
  heap (cell_attach_bc sample_library scored_state).1 !! 0%nat
    = Some (OGraph (set_node_attributes sample_graph sample_scores "bc")) ∧
  (∃ g', heap (cell_attach_bc sample_library scored_state).1 !! 0%nat
           = Some (OGraph g') ∧
         same_but "bc" sample_graph g' ∧
         (19%nat ≠ 19%nat → g' = sample_graph)) ∧
  (19%nat ≠ 2%nat →
   ns (cell_attach_bc sample_library scored_state).1 !! "hk_graph"
     = ns scored_state !! "hk_graph").
Proof.
  split; [reflexivity |]. split; [reflexivity |].
  split; [reflexivity |]. split; [reflexivity |].
  apply (graph_changed_only_by_bc sample_library 19 _ scored_state 0 sample_graph);
    reflexivity.
Defined.

(** In the plot cell before it the same graph object stays as it is. *)
Example highlight_keeps_graph :
  heap (cell_highlight sample_library
          (State (<["max_node" := VInt 20]> (ns sample_state))
                 (heap sample_state) [])).1 !! 0%nat
    = Some (OGraph sample_graph).
Proof. reflexivity. Qed.

(** ** Failures of library calls *)

Lemma clean_app tr1 tr2 : clean tr1 → clean tr2 → clean (tr1 ++ tr2).
Proof. apply Forall_app_2. Qed.

Lemma failed_last_app e tr1 tr2 :
  clean tr1 → failed_last e tr2 → failed_last e (tr1 ++ tr2).
Proof.
  intros H1 (tr0 & c & -> & H0). exists (tr1 ++ tr0), c.
  split; [by rewrite <-app_assoc | by apply clean_app].
Qed.

Lemma propagates_closed L : closed L (λ _, True) propagates.
Proof.
  assert (∀ A (m : M A), (∀ s, trace (m s).1 = trace s ∧
            ∀ e, (m s).2 = Raise e → True) → propagates A m) as Hsilent.
  { intros A m Hm s. exists []. destruct (Hm s) as [-> _].
    rewrite app_nil_r. split; [done |].
    destruct (m s).2; [constructor | left; constructor]. }
  split; try (intros; apply Hsilent; intros s; by split).
  - intros A B m f Hm Hf s. rewrite bind_unfold.
    destruct (Hm s) as (tr1 & Htr1 & H1).
    destruct (m s) as [s1 [a|e]]; simpl in *; [| by exists tr1].
    destruct (Hf a s1) as (tr2 & Htr2 & H2).
    exists (tr1 ++ tr2). rewrite Htr2, Htr1, <-app_assoc. split; [done |].
    destruct (f a s1).2 as [b|e].
    + by apply clean_app.
    + destruct H2 as [H2|H2]; [left; by apply clean_app |].
      right. by apply failed_last_app.
  - intros y. apply Hsilent. intros s. unfold get_var.
    by destruct (ns s !! y).
  - intros l. apply Hsilent. intros s. unfold load.
    by destruct (heap s !! l).
  - intros v f. apply Hsilent. intros s.
    by destruct (modify_dict_cases v f s) as [[e ->]|(l & d & d' & _ & _ & _ & ->)].
  - intros v d name _. apply Hsilent. intros s.
    by destruct (nx_set_node_attributes_cases v d name s)
      as [[e ->]|(l & g & _ & _ & ->)].
  - intros c s. exists [(c, outcome (L c))]. split; [done |]. simpl.
    destruct (L c) as [r|e]; simpl.
    + by repeat constructor.
    + right. exists [], c. split; [done | constructor].
Qed.

Lemma notebook_propagates L : Forall (propagates unit) (notebook L).
Proof.
  apply Forall_lookup_2. intros i c Hi.
  destruct (notebook_effects L i c Hi) as (effs & _ & Hglue).
  apply (Hglue _ _ (propagates_closed L)).
  by apply Forall_forall.
Qed.

Lemma run_from_propagates cells i s :
  Forall (propagates unit) cells →
  ∃ tr, trace (run_from i cells s).1 = trace s ++ tr ∧
    match (run_from i cells s).2 with
    | Completed => clean tr
    | Halted _ e => clean tr ∨ failed_last e tr
    end.
Proof.
  intros Hcells. revert i s.
  induction Hcells as [|c cells Hc _ IH]; intros i s; simpl.
  - exists []. rewrite app_nil_r. split; [done | constructor].
  - destruct (Hc s) as (tr1 & Htr1 & H1).
    destruct (c s) as [s1 [[]|e]]; simpl in *; [| by exists tr1].
    destruct (IH (S i) s1) as (tr2 & Htr2 & H2).
    exists (tr1 ++ tr2). rewrite Htr2, Htr1, <-app_assoc. split; [done |].
    destruct (run_from (S i) cells s1).2 as [|j e].
    + by apply clean_app.
    + destruct H2 as [H2|H2]; [left; by apply clean_app |].
      right. by apply failed_last_app.
Qed.

(** A halted run: the cells before the halting one completed, and the
    halting cell raised the exception the run reports. *)
Lemma run_from_halted cells i s s' j e :
  run_from i cells s = (s', Halted j e) →
  ∃ k c sk, j = (i + k)%nat ∧ cells !! k = Some c ∧
    run_from i (take k cells) s = (sk, Completed) ∧
    c sk = (s', Raise e).
Proof.
  revert i s. induction cells as [|c cells IH]; intros i s; simpl; [done |].
  destruct (c s) as [s1 [[]|e1]] eqn:Hc.
  - intros (k & c' & sk & -> & Hk & Hrun & Hraise)%IH.
    exists (S k), c', sk. split_and!; [lia | done | | done].
    simpl. by rewrite Hc.
  - intros [= <- <- <-]. exists 0%nat, c, s.
    split_and!; [lia | done | done | done].
Qed.

Lemma last_failure {A} (l1 l2 l0 : list A) (x y : A) :
  l1 ++ x :: l2 = l0 ++ [y] → x ∉ l0 → l2 = [] ∧ x = y.
Proof.
  revert l0. induction l1 as [|a l1 IH]; intros [|z l0]; simpl.
  - by intros [= -> ->].
  - intros [= -> _] Hnin. destruct Hnin. left.
  - intros [= _ Heq]. by destruct l1.
  - intros [= _ Heq] Hnin. apply (IH l0 Heq). intros Hin. apply Hnin. by right.
Qed.

(** C4: the notebook handles no error.  When a library call fails with [e]
    during a run of the cells, it is the last event of the run, so nothing is
    retried and nothing runs after it, and the run halts with [e] itself at
    the cell [k] whose execution raised it, the cells before [k] having
    completed without a failed call: the call that failed is a call of cell
    [k]. *)
Theorem library_failure_halts L (s : state) (tr tr' : list event) (c : call) (e : exn) :
  trace (run_all L s).1 = trace s ++ tr ++ (c, Some e) :: tr' →
  tr' = [] ∧
  ∃ k cell sk,
    (run_all L s).2 = Halted k e ∧
    notebook L !! k = Some cell ∧
    run_from 0 (take k (notebook L)) s = (sk, Completed) ∧
    cell sk = ((run_all L s).1, Raise e) ∧
    ∃ tr0, trace sk = trace s ++ tr0 ∧ clean tr0.
Proof.
  intros Htr. unfold run_all in *.
  destruct (run_from_propagates (notebook L) 0 s (notebook_propagates L))
    as (new & Hnew & Hst).
  rewrite Hnew in Htr. apply app_inv_head in Htr. subst new.
  assert (¬ clean (tr ++ (c, Some e) :: tr')) as Hdirty.
  { intros Hc. apply Forall_app in Hc as [_ Hc].
    by apply Forall_cons in Hc as [? _]. }
  destruct (run_from 0 (notebook L) s) as [s' [|k e']] eqn:Hrun;
    cbn [fst snd] in *; [done |].
  destruct Hst as [?|(tr0 & c' & Heq & Hclean)]; [done |].
  apply last_failure in Heq as [-> [= -> ->]].
  - split; [done |].
    apply run_from_halted in Hrun as (k' & cell & sk & -> & Hk & Hpre & Hcell).
    exists k', cell, sk. split_and!; [done.. |].
    destruct (run_from_propagates (take k' (notebook L)) 0 s)
      as (before & Hbefore & Hc0).
    { apply Forall_take, notebook_propagates. }
    rewrite Hpre in Hbefore, Hc0. by exists before.
  - intros Hin. by apply (proj1 (Forall_forall _ _) Hclean) in Hin.
Qed.

Lemma library_failure_halts_witness :
  trace (run_all failing_library init).1 =
    trace init ++ take 8 (trace (run_all failing_library init).1)
      ++ (gpd_read_file BOUNDARY_URL, Some timeout) :: [] ∧
  ([] = @nil event ∧
   ∃ k cell sk,
     (run_all failing_library init).2 = Halted k timeout ∧
     notebook failing_library !! k = Some cell ∧
     run_from 0 (take k (notebook failing_library)) init = (sk, Completed) ∧
     cell sk = ((run_all failing_library init).1, Raise timeout) ∧
     ∃ tr0, trace sk = trace init ++ tr0 ∧ clean tr0).
Proof.
  split; [reflexivity |].
  apply (library_failure_halts failing_library init
           (take 8 (trace (run_all failing_library init).1)) []
           (gpd_read_file BOUNDARY_URL) timeout).
  reflexivity.
Defined.

(** ** Runs that return *)

Lemma bind_Ok {A B} (m : M A) (f : A → M B) s s' b :
  (m ≫= f) s = (s', Ok b) → ∃ a s1, m s = (s1, Ok a) ∧ f a s1 = (s', Ok b).
Proof.
  rewrite bind_unfold. destruct (m s) as [s1 [a|e]]; [| done].
  intros H. by exists a, s1.
Qed.

Lemma ret_Ok {A} (a b : A) s s' :
  (mret a : M A) s = (s', Ok b) → s' = s ∧ b = a.
Proof. by intros [= -> ->]. Qed.

Lemma get_var_Ok x s s' v :
  get_var x s = (s', Ok v) → s' = s ∧ ns s !! x = Some v.
Proof. unfold get_var. by destruct (ns s !! x); intros [= -> ->]. Qed.

Lemma assign_Ok x v s s' u :
  assign x v s = (s', Ok u) → s' = State (<[x:=v]> (ns s)) (heap s) (trace s).
Proof. by intros [= <-]. Qed.

Lemma alloc_Ok o s s' l :
  alloc o s = (s', Ok l) →
  s' = State (ns s) (heap s ++ [o]) (trace s) ∧ l = length (heap s).
Proof. by intros [= <- <-]. Qed.

Lemma load_graph_Ok v s s' l g :
  load_graph v s = (s', Ok (l, g)) →
  s' = s ∧ v = VRef l ∧ heap s !! l = Some (OGraph g).
Proof.
  destruct (load_graph_cases v s) as [[e ->]|(l' & g' & -> & Hl & ->)]; [done |].
  by intros [= -> -> ->].
Qed.

Lemma get_graph_Ok x s s' l g :
  get_graph x s = (s', Ok (l, g)) →
  s' = s ∧ ns s !! x = Some (VRef l) ∧ heap s !! l = Some (OGraph g).
Proof.
  unfold get_graph. intros (v & s1 & [-> Hv]%get_var_Ok & Hg)%bind_Ok.
  apply load_graph_Ok in Hg as (-> & -> & Hl). done.
Qed.

Lemma as_scores_Ok v s s' d :
  as_scores v s = (s', Ok d) → s' = s ∧ v = VScores d.
Proof. by destruct v; intros [= -> ->]. Qed.

Lemma unpack2_Ok v s s' p : unpack2 v s = (s', Ok p) → s' = s.
Proof. by destruct v as [| | | | | |[|?[|?[|??]]]| | | | |]; intros [= ->]. Qed.

Lemma lift_Ok {A} (r : result A) s s' a :
  lift r s = (s', Ok a) → s' = s ∧ r = Ok a.
Proof. by destruct r; intros [= -> ->]. Qed.

Lemma lib_call_Ok L c s s' r :
  lib_call L c s = (s', Ok r) →
  L c = Ok r ∧ s' = State (ns s) (heap s) (trace s ++ [(c, None)]).
Proof.
  unfold lib_call. intros [= <- Hr]. by rewrite Hr.
Qed.

Lemma nx_set_node_attributes_Ok v d name s s' u :
  nx_set_node_attributes v d name s = (s', Ok u) →
  ∃ l g, v = VRef l ∧ heap s !! l = Some (OGraph g) ∧
    s' = State (ns s) (<[l:=OGraph (set_node_attributes g d name)]> (heap s))
               (trace s).
Proof.
  destruct (nx_set_node_attributes_cases v d name s)
    as [[e ->]|(l & g & -> & Hl & ->)]; [done |].
  intros [= <-]. by exists l, g.
Qed.

Ltac inv_run :=
  repeat match goal with
  | H : (_ ≫= _) _ = (_, Ok _) |- _ =>
      let a := fresh "a" in let s := fresh "s" in let Ha := fresh "Ha" in
      apply bind_Ok in H as (a & s & Ha & H); cbv beta in H
  | H : (let '(_, _) := ?x in _) _ = _ |- _ => destruct x; cbv beta iota in H
  | H : @mret M _ _ _ _ = (_, Ok _) |- _ => apply ret_Ok in H as [-> ?]; try subst
  | H : get_var _ _ = (_, Ok _) |- _ => apply get_var_Ok in H as [-> H]
  | H : assign _ _ _ = (_, Ok _) |- _ => apply assign_Ok in H as ->
  | H : alloc _ _ = (_, Ok _) |- _ => apply alloc_Ok in H as [-> ->]
  | H : get_graph _ _ = (_, Ok (_, _)) |- _ =>
      let Hv := fresh "Hv" in let Hl := fresh "Hl" in
      apply get_graph_Ok in H as (-> & Hv & Hl)
  | H : as_scores _ _ = (_, Ok _) |- _ => apply as_scores_Ok in H as [-> ->]
  | H : unpack2 _ _ = (_, Ok _) |- _ => apply unpack2_Ok in H as ->
  | H : lift _ _ = (_, Ok _) |- _ => apply lift_Ok in H as [-> H]
  | H : lib_call ?L ?c ?s = (?s', Ok ?r) |- _ =>
      apply (lib_call_Ok L c s s' r) in H as [H ->]
  end.

(** ** The export cells *)

(** C6: when the three export cells run to completion, the graph then bound
    to [hk_graph] has been written three times: as a GeoPackage, as a
    Shapefile and as an SVG image, each at a path that is a constant of the
    notebook and is relative. *)
Theorem exports L (i : nat) (s s' : state) :
  run_from i (export_cells L) s = (s', Completed) →
  ∃ l g,
    ns s !! "hk_graph" = Some (VRef l) ∧
    heap s !! l = Some (OGraph g) ∧
    written (drop (length (trace s)) (trace s')) =
      [ (GeoPackage, "./data-output/hk_graph.gpkg", g);
        (Shapefile, "./data-output/hk_graph/", g);
        (Image "svg", "./hk_graph.svg", g) ] ∧
    Forall (λ w, is_relative w.1.2 = true) (written (drop (length (trace s)) (trace s'))).
Proof.
  unfold export_cells. simpl.
  destruct (cell_save_geopackage L s) as [s1 [[]|]] eqn:H1; [| done].
  destruct (cell_save_shapefile L s1) as [s2 [[]|]] eqn:H2; [| done].
  destruct (cell_save_svg L s2) as [s3 [[]|]] eqn:H3; [| done].
  intros [= <-].
  unfold cell_save_geopackage in H1. unfold cell_save_shapefile in H2.
  unfold cell_save_svg in H3. inv_run. simpl in *.
  assert (n0 = n1 ∧ n = n1) as [-> ->] by (split; congruence).
  assert (g0 = g1 ∧ g = g1) as [-> ->] by (split; congruence).
  exists n1, g1. rewrite <-!app_assoc, drop_app_length. simpl.
  split_and!; [done.. |]. by repeat constructor.
Qed.

Lemma exports_witness :
  run_from 20 (export_cells sample_library) sample_state =
    ((run_from 20 (export_cells sample_library) sample_state).1, Completed) ∧
  ∃ l g,
    ns sample_state !! "hk_graph" = Some (VRef l) ∧
    heap sample_state !! l = Some (OGraph g) ∧
    written (drop (length (trace sample_state))
                  (trace (run_from 20 (export_cells sample_library) sample_state).1)) =
      [ (GeoPackage, "./data-output/hk_graph.gpkg", g);
        (Shapefile, "./data-output/hk_graph/", g);
        (Image "svg", "./hk_graph.svg", g) ] ∧
    Forall (λ w, is_relative w.1.2 = true)
      (written (drop (length (trace sample_state))
                     (trace (run_from 20 (export_cells sample_library) sample_state).1))).
Proof.
  split; [reflexivity |].
  apply (exports sample_library 20). reflexivity.
Defined.

(** ** The highlight lists *)

Lemma mapM_mark s m (hit miss : pyval) nodes :
  ns s !! "max_node" = Some m →
  mapM (λ node : node,
          v ← get_var "max_node";
          mret (if int_eq node v then hit else miss)) nodes s =
    (s, Ok ((λ node, if int_eq node m then hit else miss) <$> nodes)).
Proof.
  intros Hm. induction nodes as [|node nodes IH]; [done |].
  cbn [mapM]. rewrite bind_unfold, bind_unfold.
  unfold get_var at 1. rewrite Hm. cbn [mret M_ret].
  rewrite bind_unfold, IH. done.
Qed.

Lemma highlight_run s l g m hit miss :
  ns s !! "hk_graph" = Some (VRef l) →
  heap s !! l = Some (OGraph g) →
  ns s !! "max_node" = Some m →
  highlight hit miss s =
    (s, Ok (VList ((λ node, if int_eq node m then hit else miss) <$> graph_nodes g))).
Proof.
  intros Hv Hl Hm. unfold highlight, get_graph.
  rewrite !bind_unfold. unfold get_var at 1. rewrite Hv.
  unfold load_graph. rewrite bind_unfold. unfold load. rewrite Hl.
  cbn [mret M_ret]. rewrite bind_unfold, (mapM_mark _ m) by done. done.
Qed.

(** C9: after the highlight cell, [nc] and [ns] hold one entry per node of
    [hk_graph], in the order of [hk_graph.nodes]; the entry of [max_node] is
    ["r"] (respectively [80]) and the entry of every other node is ["w"]
    (respectively [5]). *)
Theorem highlight_lists L (s : state) (l : loc) (g : graph) (m : node) :
  ns s !! "hk_graph" = Some (VRef l) →
  heap s !! l = Some (OGraph g) →
  ns s !! "max_node" = Some (VInt m) →
  ∃ nc sz,
    ns (cell_highlight L s).1 !! "nc" = Some (VList nc) ∧
    ns (cell_highlight L s).1 !! "ns" = Some (VList sz) ∧
    length nc = length (graph_nodes g) ∧
    length sz = length (graph_nodes g) ∧
    ∀ i node, graph_nodes g !! i = Some node →
      (node = m → nc !! i = Some (VStr "r") ∧ sz !! i = Some (VInt 80)) ∧
      (node ≠ m → nc !! i = Some (VStr "w") ∧ sz !! i = Some (VInt 5)).
Proof.
  intros Hv Hl Hm.
  set (colors := (λ node, if int_eq node (VInt m) then VStr "r" else VStr "w")
                   <$> graph_nodes g).
  set (sizes := (λ node, if int_eq node (VInt m) then VInt 80 else VInt 5)
                  <$> graph_nodes g).
  exists colors, sizes.
  assert (∃ s2, cell_highlight L s = highlight_plot L s2 ∧
                ns s2 !! "nc" = Some (VList colors) ∧
                ns s2 !! "ns" = Some (VList sizes)) as (s2 & -> & Hnc & Hns).
  { unfold cell_highlight. rewrite bind_unfold, (highlight_run s l g (VInt m)) by done.
    rewrite bind_unfold. cbn [assign]. rewrite bind_unfold.
    rewrite (highlight_run _ l g (VInt m)) by (by simpl; rewrite ?lookup_insert_ne).
    rewrite bind_unfold. cbn [assign]. eexists. split; [done |].
    simpl. by rewrite lookup_insert_eq, lookup_insert_ne, lookup_insert_eq. }
  rewrite (glue_highlight_plot L _ _ (keeps_var_closed L "nc")) by done.
  rewrite (glue_highlight_plot L _ _ (keeps_var_closed L "ns")) by done.
  split_and!; [done | done | apply length_fmap | apply length_fmap |].
  intros i node Hi. unfold colors, sizes. rewrite !list_lookup_fmap, Hi. simpl.
  split; intros Hnode.
  - by rewrite bool_decide_eq_true_2.
  - by rewrite bool_decide_eq_false_2.
Qed.

Lemma highlight_lists_witness :
  ns (State (<["max_node" := VInt 20]> (ns sample_state)) (heap sample_state) [])
    !! "hk_graph" = Some (VRef 0) ∧
  heap sample_state !! 0%nat = Some (OGraph sample_graph) ∧
  ∃ nc sz,
    ns (cell_highlight sample_library
          (State (<["max_node" := VInt 20]> (ns sample_state)) (heap sample_state) [])).1
      !! "nc" = Some (VList nc) ∧
    ns (cell_highlight sample_library
          (State (<["max_node" := VInt 20]> (ns sample_state)) (heap sample_state) [])).1
      !! "ns" = Some (VList sz) ∧
    length nc = length (graph_nodes sample_graph) ∧
    length sz = length (graph_nodes sample_graph) ∧
    ∀ i node, graph_nodes sample_graph !! i = Some node →
      (node = 20 → nc !! i = Some (VStr "r") ∧ sz !! i = Some (VInt 80)) ∧
      (node ≠ 20 → nc !! i = Some (VStr "w") ∧ sz !! i = Some (VInt 5)).
Proof.
  split; [reflexivity |]. split; [reflexivity |].
  apply (highlight_lists sample_library _ 0%nat sample_graph 20); reflexivity.
Defined.

Example highlight_sample :
  ns (cell_highlight sample_library
        (State (<["max_node" := VInt 20]> (ns sample_state)) (heap sample_state) [])).1
    !! "nc" = Some (VList [VStr "w"; VStr "r"; VStr "w"]).
Proof. reflexivity. Qed.

(** ** The centrality step *)

Lemma trace_grows L i c s :
  notebook L !! i = Some c → ∃ tr, trace (c s).1 = trace s ++ tr.
Proof.
  intros Hi. destruct (notebook_effects L i c Hi) as (effs & _ & Hglue).
  destruct (Hglue _ _ (propagates_closed L)) with s as (tr & Htr & _);
    [by apply Forall_forall |].
  by exists tr.
Qed.

(** What the betweenness cell leaves behind when it returns. *)
Lemma cell_betweenness_Ok L s s1 l g u :
  ns s !! "hk_graph" = Some (VRef l) →
  heap s !! l = Some (OGraph g) →
  cell_betweenness L s = (s1, Ok u) →
  ∃ di bc,
    L (ox_get_digraph g) = Ok di ∧
    L (nx_betweenness_centrality di "length") = Ok bc ∧
    ns s1 !! "hk_graph" = Some (VRef l) ∧
    ns s1 !! "bc" = Some (VScores bc) ∧
    heap s1 !! l = Some (OGraph g) ∧
    trace s1 = trace s ++ [(ox_get_digraph g, None);
                           (nx_betweenness_centrality di "length", None)].
Proof.
  intros Hv Hl Hrun. unfold cell_betweenness in Hrun. inv_run. simpl in *.
  rewrite lookup_insert_eq in Hv0. injection Hv0 as <-.
  rewrite list_lookup_middle in Hl0 by done. injection Hl0 as <-.
  assert (n = l) as -> by congruence. assert (g0 = g) as -> by congruence.
  exists a0, a4. split_and!; [done | done | | | |].
  - by rewrite !lookup_insert_ne.
  - rewrite 2!lookup_insert_ne by done. by rewrite lookup_insert_eq.
  - by apply lookup_app_l_Some.
  - by rewrite <-app_assoc.
Qed.

(** C1: when the three cells of the centrality step run to completion, the
    graph bound to [hk_graph] was converted by [ox.get_digraph], the
    betweenness centrality of the result was computed with weight ["length"],
    and the scores were attached to the graph object of [hk_graph] itself:
    every node of the graph that has a score carries it as its attribute
    ["bc"]. *)
Theorem centrality_attached L (i : nat) (s s' : state) (l : loc) (g : graph) :
  ns s !! "hk_graph" = Some (VRef l) →
  heap s !! l = Some (OGraph g) →
  run_from i (centrality_cells L) s = (s', Completed) →
  ∃ di bc g' rest,
    L (ox_get_digraph g) = Ok di ∧
    L (nx_betweenness_centrality di "length") = Ok bc ∧
    trace s' = trace s ++ (ox_get_digraph g, None)
                 :: (nx_betweenness_centrality di "length", None) :: rest ∧
    ns s' !! "hk_graph" = Some (VRef l) ∧
    heap s' !! l = Some (OGraph g') ∧
    g' = set_node_attributes g bc "bc" ∧
    graph_nodes g' = graph_nodes g ∧
    ∀ n x, n ∈ graph_nodes g → dict_get n bc = Some x →
      node_attr g' n "bc" = Some (AFloat x).
Proof.
  intros Hv Hl. unfold centrality_cells. simpl.
  destruct (cell_betweenness L s) as [s1 [[]|]] eqn:H1; [| done].
  destruct (cell_highlight L s1) as [s2 [[]|]] eqn:H2; [| done].
  destruct (cell_attach_bc L s2) as [s3 [[]|]] eqn:H3; [| done].
  intros [= <-].
  destruct (cell_betweenness_Ok L s s1 l g _ Hv Hl H1)
    as (di & bc & Hdi & Hbc & Hv1 & Hbc1 & Hl1 & Htr1).
  (* the highlight cell keeps the graph, its name and the scores *)
  destruct (notebook_effects L 18 (cell_highlight L) eq_refl)
    as (effs & [= <-] & Hglue).
  pose proof (Hglue _ _ (keeps_var_closed L "hk_graph")) as Hkv.
  pose proof (Hglue _ _ (keeps_var_closed L "bc")) as Hkb.
  pose proof (Hglue _ _ (keeps_graphs_closed L)) as Hkg.
  specialize (Hkv ltac:(by repeat constructor) s1).
  specialize (Hkb ltac:(by repeat constructor) s1).
  specialize (Hkg ltac:(by repeat constructor) s1 l g Hl1).
  destruct (trace_grows L 18 (cell_highlight L) s1 eq_refl) as (tr2 & Htr2).
  rewrite H2 in Hkv, Hkb, Hkg, Htr2. simpl in Hkv, Hkb, Hkg, Htr2.
  rewrite Hv1 in Hkv. rewrite Hbc1 in Hkb.
  (* the attachment *)
  unfold cell_attach_bc in H3. inv_run.
  apply nx_set_node_attributes_Ok in Ha3 as (l' & g'' & -> & Hl' & ->).
  assert (l' = l) as -> by congruence.
  assert (a2 = bc) as -> by congruence.
  assert (g'' = g) as -> by congruence.
  pose proof (glue_bc_plot L _ _ (keeps_var_closed L "hk_graph")
                ltac:(done) ltac:(done) ltac:(done)) as Hpv.
  pose proof (glue_bc_plot L _ _ (keeps_graphs_closed L)
                ltac:(done) ltac:(done) ltac:(done)) as Hpg.
  pose proof (glue_bc_plot L _ _ (propagates_closed L)
                ltac:(done) ltac:(done) ltac:(done)) as Hpt.
  match type of H3 with bc_plot L ?s0 = _ =>
    specialize (Hpv s0);
    specialize (Hpg s0 l (set_node_attributes g bc "bc"));
    destruct (Hpt s0) as (tr3 & Htr3 & _)
  end.
  rewrite H3 in Hpv, Hpg, Htr3. simpl in Hpv, Hpg, Htr3.
  exists di, bc, (set_node_attributes g bc "bc"), (tr2 ++ tr3).
  split_and!; [done | done | | | | done | |].
  - rewrite Htr3, Htr2, Htr1, <-!app_assoc. done.
  - congruence.
  - apply Hpg. apply list_lookup_insert_eq. by eapply lookup_lt_Some.
  - by destruct (foldl_set_node_attr_frame "bc" (items bc) g) as (_ & _ & ?).
  - intros n x. apply set_node_attributes_attached.
Qed.

Lemma centrality_attached_witness :
  ns sample_state !! "hk_graph" = Some (VRef 0) ∧
  heap sample_state !! 0%nat = Some (OGraph sample_graph) ∧
  run_from 17 (centrality_cells sample_library) sample_state =
    ((run_from 17 (centrality_cells sample_library) sample_state).1, Completed) ∧
  ∃ di bc g' rest,
    sample_library (ox_get_digraph sample_graph) = Ok di ∧
    sample_library (nx_betweenness_centrality di "length") = Ok bc ∧
    trace (run_from 17 (centrality_cells sample_library) sample_state).1 =
      trace sample_state ++ (ox_get_digraph sample_graph, None)
        :: (nx_betweenness_centrality di "length", None) :: rest ∧
    ns (run_from 17 (centrality_cells sample_library) sample_state).1 !! "hk_graph"
      = Some (VRef 0) ∧
    heap (run_from 17 (centrality_cells sample_library) sample_state).1 !! 0%nat
      = Some (OGraph g') ∧
    g' = set_node_attributes sample_graph bc "bc" ∧
    graph_nodes g' = graph_nodes sample_graph ∧
    ∀ n x, n ∈ graph_nodes sample_graph → dict_get n bc = Some x →
      node_attr g' n "bc" = Some (AFloat x).
Proof.
  split; [reflexivity |]. split; [reflexivity |]. split; [reflexivity |].
  apply (centrality_attached sample_library 17 sample_state _ 0%nat sample_graph);
    reflexivity.
Defined.

Example centrality_sample :
  node_attr (set_node_attributes sample_graph sample_scores "bc") 20 "bc"
    = Some (AFloat 0.5%Q).
Proof. reflexivity. Qed.

Lemma dict_get_as_floats (d : dict node score) (n : node) :
  dict_get n (as_floats d) = Num <$> dict_get n d.
Proof.
  unfold dict_get, as_floats. simpl.
  induction (items d) as [|[k v] l IH]; csimpl; [done |].
  by case_decide.
Qed.

(** With a library that computes the centrality as defined, the scores the
    betweenness cell leaves in [bc] are numbers between [0] and [1]. *)
Lemma bc_in_unit_interval (L : library) (s s' : state) (u : unit) :
  (∀ g weight,
     L (nx_betweenness_centrality g weight)
       = Ok (as_floats (betweenness_centrality g weight))) →
  cell_betweenness L s = (s', Ok u) →
  ∃ bc, ns s' !! "bc" = Some (VScores bc) ∧
    ∀ n x, dict_get n bc = Some x → ∃ q : Q, x = Num q ∧ (0 <= q <= 1)%Q.
Proof.
  intros HL Hrun. unfold cell_betweenness in Hrun. inv_run. simpl in *.
  match goal with
  | H : L (nx_betweenness_centrality _ _) = Ok _ |- _ =>
      rewrite HL in H; injection H as <-
  end.
  eexists. split.
  - rewrite 2!lookup_insert_ne by done. by rewrite lookup_insert_eq.
  - intros k x. rewrite dict_get_as_floats.
    destruct (dict_get k _) as [q|] eqn:Hq; [| done]. intros [= <-].
    exists q. split; [done |].
    apply betweenness_centrality_item in Hq as [Hk ->]. by apply node_score_bounds.
Qed.

(** ** The flattening of the statistics *)

Section unpack.
(** The heap as it was when the cell began. *)
Variable h0 : list obj.

Lemma keeps_bind {A B} J (m : M A) (f : A → M B) Q R :
  keeps J m Q → (∀ a, Q a → keeps J (f a) R) → keeps J (m ≫= f) R.
Proof.
  intros Hm Hf s Hs. rewrite bind_unfold.
  destruct (Hm s Hs) as [Hs1 Ha]. destruct (m s) as [s1 [a|e]]; simpl in *.
  - apply Hf; [by apply Ha | done].
  - done.
Qed.

Lemma keeps_weaken {A} J (m : M A) (Q Q' : A → Prop) :
  keeps J m Q → (∀ a, Q a → Q' a) → keeps J m Q'.
Proof. intros Hm HQ s Hs. destruct (Hm s Hs). split; auto. Qed.

Lemma keeps_reads {A} J (m : M A) : reads m → keeps J m (λ _, True).
Proof. intros Hm s Hs. by rewrite Hm. Qed.

Lemma reads_get_var x : reads (get_var x).
Proof. intros s. unfold get_var. by destruct (ns s !! x). Qed.

Lemma reads_load_dict v : reads (load_dict v).
Proof.
  intros s. by destruct (load_dict_cases v s) as [[e ->]|(l & d & _ & _ & ->)].
Qed.

Lemma reads_subscript v k : reads (subscript v k).
Proof.
  intros s. unfold subscript. rewrite bind_unfold.
  destruct (load_dict_cases v s) as [[e ->]|(l & d & _ & _ & ->)]; [done |].
  by destruct (dict_get k d).
Qed.

Lemma reads_next_item l n i : reads (next_item l n i).
Proof.
  intros s. unfold next_item. rewrite bind_unfold.
  destruct (load_dict_cases (VRef l) s) as [[e ->]|(l' & d & _ & _ & ->)];
    [done |].
  by case_bool_decide.
Qed.

Lemma reads_py_str v : reads (py_str v).
Proof. intros s. by destruct v. Qed.

Lemma old_length s : old h0 s → (length h0 ≤ length (heap s))%nat.
Proof.
  intros Hs. destruct (decide (length h0 ≤ length (heap s))%nat) as [|Hlt];
    [done |].
  destruct (lookup_lt_is_Some_2 h0 (length (heap s))) as [o Ho]; [lia |].
  apply Hs, lookup_lt_Some in Ho. lia.
Qed.

Lemma old_alloc s o : old h0 s → old h0 (alloc o s).1.
Proof. intros Hs a o' Ha. simpl. by apply lookup_app_l_Some, Hs. Qed.

(** An update of a fresh dictionary leaves the objects of [h0] alone. *)
Lemma old_modify_dict v f s : fresh h0 v → old h0 s → old h0 (modify_dict v f s).1.
Proof.
  intros Hv Hs.
  destruct (modify_dict_cases v f s) as [[e ->]|(l & d & d' & -> & _ & _ & ->)];
    [done |].
  intros a o Ha. simpl in *. rewrite list_lookup_insert_ne; [by apply Hs |].
  apply lookup_lt_Some in Ha. lia.
Qed.

(** *** [deepcopy] builds its copy out of new objects *)

Lemma memo_fresh_get memo l l' :
  memo_fresh h0 memo → assoc_get l memo = Some l' → (length h0 ≤ l')%nat.
Proof.
  intros Hm Hl. apply assoc_get_Some_elem in Hl.
  by apply (proj1 (Forall_forall _ _) Hm) in Hl.
Qed.

Lemma keeps_copy_items copy l' memo its :
  (∀ memo v, memo_fresh h0 memo → keeps (old h0) (copy memo v) (copied h0)) →
  (length h0 ≤ l')%nat → memo_fresh h0 memo →
  keeps (old h0) (copy_items copy l' memo its) (memo_fresh h0).
Proof.
  intros Hcopy Hl'. revert memo.
  induction its as [|[k v] its IH]; intros memo Hmemo; cbn [copy_items].
  - intros s Hs. split; [done |]. by intros ? [= <-].
  - eapply keeps_bind; [by apply Hcopy |].
    intros [memo1 v'] [Hm1 Hv'].
    eapply (keeps_bind _ _ _ (λ _, True)); [| intros _ _; by apply IH].
    intros s Hs. split; [| done]. by apply old_modify_dict.
Qed.

Lemma keeps_copy_list copy memo vs :
  (∀ memo v, memo_fresh h0 memo → keeps (old h0) (copy memo v) (copied h0)) →
  memo_fresh h0 memo →
  keeps (old h0) (copy_list copy memo vs) (λ r, memo_fresh h0 r.1).
Proof.
  intros Hcopy. revert memo.
  induction vs as [|v vs IH]; intros memo Hmemo; cbn [copy_list].
  - intros s Hs. split; [done |]. by intros ? [= <-].
  - eapply keeps_bind; [by apply Hcopy |].
    intros [memo1 v'] [Hm1 Hv']. eapply keeps_bind; [by apply IH |].
    intros [memo2 vs'] Hm2 s Hs. split; [done |]. by intros ? [= <-].
Qed.

Lemma keeps_deepcopy_rec depth memo v :
  memo_fresh h0 memo → keeps (old h0) (deepcopy_rec depth memo v) (copied h0).
Proof.
  revert memo v. induction depth as [|depth IH]; intros memo v Hmemo.
  - destruct v as [| | | | | | | | | | |l]; simpl;
      try (intros st Hst; simpl; split; [assumption |];
           intros ? ?; simplify_eq; by split).
    destruct (assoc_get l memo) as [l'|] eqn:Hl; intros s Hs; (split; [done |]).
    + intros ? [= <-]. split; [done |]. by eapply memo_fresh_get.
    + done.
  - destruct v as [| | | | |vs|vs| | | | |l]; cbn [deepcopy_rec];
      try (intros st Hst; simpl; split; [assumption |];
           intros ? ?; simplify_eq; by split).
    + eapply keeps_bind; [by apply keeps_copy_list |].
      intros [memo1 vs'] Hm1 s Hs. split; [done |]. by intros ? [= <-].
    + eapply keeps_bind; [by apply keeps_copy_list |].
      intros [memo1 vs'] Hm1 s Hs. split; [done |]. by intros ? [= <-].
    + destruct (assoc_get l memo) as [l'|] eqn:Hl.
      { intros s Hs. split; [done |]. intros ? [= <-].
        split; [done |]. by eapply memo_fresh_get. }
      intros s Hs. rewrite bind_unfold. unfold load.
      destruct (heap s !! l) as [[g|d]|] eqn:Hget; [| | done].
      * rewrite bind_unfold. simpl. split; [by apply (old_alloc s) |].
        intros ? [= <-]. pose proof (old_length s Hs).
        split; [by constructor | done].
      * rewrite bind_unfold. cbn [alloc]. rewrite bind_unfold.
        pose proof (old_length s Hs) as Hlen.
        destruct (keeps_copy_items (deepcopy_rec depth) (length (heap s))
                    ((l, length (heap s)) :: memo) (items d) IH Hlen
                    ltac:(by constructor)
                    (State (ns s) (heap s ++ [ODict dict_empty]) (trace s))
                    (old_alloc s _ Hs)) as [Hold Hres].
        destruct (copy_items _ _ _ _ _) as [s1 [memo1|e]]; simpl in *; [| done].
        split; [done |]. intros ? [= <-]. split; [by apply Hres | done].
Qed.

Lemma keeps_deepcopy v : keeps (old h0) (deepcopy v) (fresh h0).
Proof.
  unfold deepcopy. eapply keeps_bind.
  - apply keeps_deepcopy_rec. constructor.
  - intros [memo v'] [_ Hv'] s Hs. split; [done |]. by intros ? [= <-].
Qed.

(** *** The flattening updates the copy only *)

Lemma keeps_ret {A} J (a : A) : keeps J (mret a) (λ _, True).
Proof. by intros s Hs. Qed.

Lemma keeps_assign x v :
  x ≠ "stats_unpack" → keeps (copy_fresh h0) (assign x v) (λ _, True).
Proof.
  intros Hx s [Hold Hfresh]. split; [| done]. split; [done |].
  intros w. simpl. rewrite lookup_insert_ne by done. apply Hfresh.
Qed.

Lemma keeps_get_copy : keeps (copy_fresh h0) (get_var "stats_unpack") (fresh h0).
Proof.
  intros s Hs. rewrite reads_get_var. split; [done |].
  unfold get_var. destruct (ns s !! "stats_unpack") as [v|] eqn:Hv; [| done].
  intros ? [= <-]. by apply Hs.
Qed.

Lemma keeps_modify_dict v f :
  fresh h0 v → keeps (copy_fresh h0) (modify_dict v f) (λ _, True).
Proof.
  intros Hv s [Hold Hfresh]. split; [| done].
  split; [by apply old_modify_dict |].
  by destruct (modify_dict_cases v f s) as [[e ->]|(l & d & d' & _ & _ & _ & ->)].
Qed.

Lemma keeps_lib_call L c : keeps (copy_fresh h0) (lib_call L c) (λ _, True).
Proof. by intros s [Hold Hfresh]. Qed.

Lemma keeps_for_each {A} J (xs : list A) body :
  (∀ x, keeps J (body x) (λ _, True)) → keeps J (for_each xs body) (λ _, True).
Proof.
  intros Hb. induction xs as [|x xs IH]; cbn [for_each]; [apply keeps_ret |].
  eapply keeps_bind; [apply Hb | by intros _ _].
Qed.

Lemma keeps_for_items J l body :
  (∀ k v, keeps J (body k v) (λ _, True)) →
  keeps J (for_items l body) (λ _, True).
Proof.
  intros Hb. unfold for_items.
  eapply keeps_bind; [apply keeps_reads, reads_load_dict |].
  intros [l' d] _. eapply keeps_bind.
  - apply keeps_for_each. intros i.
    eapply keeps_bind; [apply keeps_reads, reads_next_item |].
    intros [[k v]|] _; [apply Hb | apply keeps_ret].
  - intros _ _. eapply keeps_bind; [apply keeps_reads, reads_next_item |].
    intros _ _. apply keeps_ret.
Qed.

Lemma keeps_unpack_loop nested suffix var :
  var ≠ "stats_unpack" →
  keeps (copy_fresh h0) (unpack_loop nested suffix var) (λ _, True).
Proof.
  intros Hvar. unfold unpack_loop.
  eapply keeps_bind; [apply keeps_get_copy |]. intros su _.
  eapply keeps_bind; [apply keeps_reads, reads_subscript |]. intros inner _.
  eapply keeps_bind; [apply keeps_reads, reads_load_dict |]. intros [l d] _.
  apply keeps_for_items. intros k v.
  eapply keeps_bind; [by apply keeps_assign |]. intros _ _.
  eapply keeps_bind; [by apply keeps_assign |]. intros _ _.
  eapply keeps_bind; [apply keeps_reads, reads_get_var |]. intros x _.
  eapply keeps_bind; [apply keeps_get_copy |]. intros su' Hsu'.
  eapply keeps_bind; [apply keeps_reads, reads_get_var |]. intros kv _.
  eapply keeps_bind; [apply keeps_reads, reads_py_str |]. intros ks _.
  by apply keeps_modify_dict.
Qed.

Lemma keeps_flatten L : keeps (copy_fresh h0) (flatten L) (λ _, True).
Proof.
  unfold flatten.
  eapply keeps_bind; [by apply keeps_unpack_loop |]. intros _ _.
  eapply keeps_bind; [by apply keeps_unpack_loop |]. intros _ _.
  eapply keeps_bind; [apply keeps_get_copy |]. intros su Hsu.
  eapply keeps_bind; [by apply keeps_modify_dict |]. intros _ _.
  eapply keeps_bind; [apply keeps_get_copy |]. intros su' Hsu'.
  eapply keeps_bind; [by apply keeps_modify_dict |]. intros _ _.
  eapply keeps_bind; [apply keeps_reads, reads_get_var |]. intros ? _.
  eapply keeps_bind; [apply keeps_reads, reads_get_var |]. intros ? _.
  eapply keeps_bind; [apply keeps_get_copy |]. intros su'' _.
  eapply keeps_bind; [apply keeps_reads, reads_load_dict |]. intros [l d] _.
  eapply keeps_bind; [exact (keeps_lib_call L (pd_Series d (Some "value"))) |].
  intros ser _.
  eapply keeps_bind; [exact (keeps_lib_call L (pd_DataFrame ser)) |].
  intros df _.
  eapply keeps_bind; [exact (keeps_lib_call L (df_round df 3)) |].
  intros ? _.
  apply keeps_ret.
Qed.

Lemma old_stats_unpack L s : old h0 s → old h0 (cell_stats_unpack L s).1.
Proof.
  intros Hs. unfold cell_stats_unpack.
  rewrite bind_unfold. cbn [assign].
  set (s1 := State (<["deepcopy":=VOpaque "copy.deepcopy"]> (ns s)) (heap s) (trace s)).
  assert (old h0 s1) as Hs1 by done.
  rewrite bind_unfold.
  pose proof (reads_get_var "deepcopy" s1) as Hr.
  destruct (get_var "deepcopy" s1) as [s2 [?|?]]; simpl in Hr; subst s2; [| done].
  rewrite bind_unfold.
  pose proof (reads_get_var "stats" s1) as Hr.
  destruct (get_var "stats" s1) as [s2 [v|?]]; simpl in Hr; subst s2; [| done].
  rewrite bind_unfold.
  destruct (keeps_deepcopy v s1 Hs1) as [Hs2 Hc].
  destruct (deepcopy v s1) as [s2 [c|?]]; simpl in Hs2, Hc; [| done].
  rewrite bind_unfold. cbn [assign].
  apply keeps_flatten. split; [done |].
  intros w. simpl. rewrite lookup_insert_eq. intros [= <-]. by apply Hc.
Qed.
End unpack.

(** C10: the flattening cell works on a deep copy.  Whatever the cell does
    and however it ends, the name [stats] still refers to the dictionary it
    referred to, that dictionary holds the items it held, and the objects its
    items refer to, the two nested dictionaries among them, are what they
    were; so is every object that was on the heap. *)
Theorem stats_unpack_keeps_original L (s : state) (l : loc) (d : dict key pyval) :
  ns s !! "stats" = Some (VRef l) →
  heap s !! l = Some (ODict d) →
  ns (cell_stats_unpack L s).1 !! "stats" = Some (VRef l) ∧
  heap (cell_stats_unpack L s).1 !! l = Some (ODict d) ∧
  (∀ k l' o, dict_get k d = Some (VRef l') → heap s !! l' = Some o →
     heap (cell_stats_unpack L s).1 !! l' = Some o) ∧
  (∀ a o, heap s !! a = Some o → heap (cell_stats_unpack L s).1 !! a = Some o).
Proof.
  intros Hv Hl.
  assert (∀ a o, heap s !! a = Some o →
            heap (cell_stats_unpack L s).1 !! a = Some o) as Hold.
  { apply (old_stats_unpack (heap s) L s). by intros a o. }
  split_and!; [| by apply Hold | by intros k l' o _; apply Hold | done].
  destruct (notebook_effects L 15 (cell_stats_unpack L) eq_refl)
    as (effs & [= <-] & Hglue).
  rewrite <-Hv. apply (Hglue _ _ (keeps_var_closed L "stats")).
  by repeat constructor.
Qed.

Lemma stats_unpack_keeps_original_witness :
  ns stats_state !! "stats" = Some (VRef 2) ∧
  heap stats_state !! 2%nat =
    Some (ODict (Dict [ (KStr "n", VInt 3);
                        (KStr "streets_per_node_counts", VRef 0);
                        (KStr "streets_per_node_proportions", VRef 1) ] I)) ∧
  ns (cell_stats_unpack sample_library stats_state).1 !! "stats" = Some (VRef 2) ∧
  heap (cell_stats_unpack sample_library stats_state).1 !! 2%nat =
    Some (ODict (Dict [ (KStr "n", VInt 3);
                        (KStr "streets_per_node_counts", VRef 0);
                        (KStr "streets_per_node_proportions", VRef 1) ] I)) ∧
  (∀ k l' o,
     dict_get k (Dict [ (KStr "n", VInt 3);
                        (KStr "streets_per_node_counts", VRef 0);
                        (KStr "streets_per_node_proportions", VRef 1) ] I)
       = Some (VRef l') →
     heap stats_state !! l' = Some o →
     heap (cell_stats_unpack sample_library stats_state).1 !! l' = Some o) ∧
  (∀ a o, heap stats_state !! a = Some o →
     heap (cell_stats_unpack sample_library stats_state).1 !! a = Some o).
Proof.
  split; [reflexivity |]. split; [reflexivity |].
  apply (stats_unpack_keeps_original sample_library stats_state 2%nat); reflexivity.
Defined.

(** On that store the cell returns, and the copy it leaves in [stats_unpack]
    is flat. *)
Example stats_unpack_sample :
  (cell_stats_unpack sample_library stats_state).2 = Ok tt ∧
  ns (cell_stats_unpack sample_library stats_state).1 !! "stats_unpack"
    = Some (VRef 3) ∧
  (λ o, match o with ODict d => items d | OGraph _ => [] end)
    <$> heap (cell_stats_unpack sample_library stats_state).1 !! 3%nat =
  Some [ (KStr "n", VInt 3);
         (KStr "1way_int_count", VInt 2); (KStr "3way_int_count", VInt 1);
         (KStr "1way_int_prop", VFloat 0.75%Q);
         (KStr "3way_int_prop", VFloat 0.25%Q) ].
Proof. split_and!; reflexivity. Qed.

(** * Further properties of the cells *)

(** ** Which maximum [max] returns *)



(** A NaN after the first item is passed over. *)
Example max_passes_nan :
  py_max snd [(1, Num 0.25); (2, NaN); (3, Num 0.5)] = Ok (3, Num 0.5).
Proof. reflexivity. Qed.

(** ** The names a cell assigns *)

(** X11: a cell leaves every name alone that is not one of the names [effects]
    lists for it: the name is bound afterwards to what it was bound to, or
    is still unbound, whether the cell returns or raises. *)
Theorem cell_assigns_listed_names L (i : nat) (c : M unit) (effs : list effect)
    (x : string) (s : state) :
  notebook L !! i = Some c →
  effects !! i = Some effs →
  Assign x ∉ effs →
  ns (c s).1 !! x = ns s !! x.
Proof.
  intros Hi Heffs Hx.
  destruct (notebook_effects L i c Hi) as (effs' & Heffs' & Hglue).
  assert (effs' = effs) as -> by congruence.
  apply (Hglue _ _ (keeps_var_closed L x)).
  apply Forall_forall. by intros e He ->.
Qed.

Lemma cell_assigns_listed_names_witness :
  notebook sample_library !! 17%nat = Some (cell_betweenness sample_library) ∧
  effects !! 17%nat =
    Some [Assign "hk_graph_di"; Assign "bc"; Assign "max_node"; Assign "max_bc"] ∧
  (Assign "nx" ∉ [Assign "hk_graph_di"; Assign "bc"; Assign "max_node"; Assign "max_bc"]) ∧
  ns (cell_betweenness sample_library sample_state).1 !! "nx" = ns sample_state !! "nx".
Proof.
  assert (Assign "nx" ∉ [Assign "hk_graph_di"; Assign "bc"; Assign "max_node";
                         Assign "max_bc"]) as Hnx.
  { intros Hin. repeat (apply elem_of_cons in Hin as [[=]|Hin]). by inversion Hin. }
  split; [reflexivity |]. split; [reflexivity |]. split; [exact Hnx |].
  exact (cell_assigns_listed_names sample_library 17 _ _ "nx" sample_state
           eq_refl eq_refl Hnx).
Defined.

(** ** Running a cell forwards *)

Lemma run_bind_Ok {A B} (m : M A) (f : A → M B) s s1 a :
  m s = (s1, Ok a) → (m ≫= f) s = f a s1.
Proof. intros Hm. by rewrite bind_unfold, Hm. Qed.

Lemma run_bind_Raise {A B} (m : M A) (f : A → M B) s s1 e :
  m s = (s1, Raise e) → (m ≫= f) s = (s1, Raise e).
Proof. intros Hm. by rewrite bind_unfold, Hm. Qed.

Lemma get_var_run x v s : ns s !! x = Some v → get_var x s = (s, Ok v).
Proof. intros Hx. unfold get_var. by rewrite Hx. Qed.

Lemma get_var_unbound x s :
  ns s !! x = None → get_var x s = (s, Raise (NameError x)).
Proof. intros Hx. unfold get_var. by rewrite Hx. Qed.

Lemma get_graph_run x l g s :
  ns s !! x = Some (VRef l) → heap s !! l = Some (OGraph g) →
  get_graph x s = (s, Ok (l, g)).
Proof.
  intros Hx Hl. unfold get_graph. erewrite run_bind_Ok by by apply get_var_run.
  unfold load_graph, load. by rewrite bind_unfold, Hl.
Qed.

Lemma get_frame_run x df s :
  ns s !! x = Some (VFrame df) → get_frame x s = (s, Ok df).
Proof.
  intros Hx. unfold get_frame. by erewrite run_bind_Ok by by apply get_var_run.
Qed.

Lemma lib_call_run L c r s :
  L c = Ok r →
  lib_call L c s = (State (ns s) (heap s) (trace s ++ [(c, None)]), Ok r).
Proof. intros HL. unfold lib_call. by rewrite HL. Qed.

Lemma lib_call_raise L c e s :
  L c = Raise e →
  lib_call L c s = (State (ns s) (heap s) (trace s ++ [(c, Some e)]), Raise e).
Proof. intros HL. unfold lib_call. by rewrite HL. Qed.

(** ** The betweenness cell *)

(** X2: when the betweenness cell returns, [max_node] and [max_bc] are bound
    to a node of [bc] and its score, and no score of [bc] is greater, in
    Python's comparison of floats: a score may be NaN. *)
Theorem betweenness_cell_binds_max (L : library) (s s' : state) (u : unit) :
  cell_betweenness L s = (s', Ok u) →
  ∃ bc max_node max_bc,
    ns s' !! "bc" = Some (VScores bc) ∧
    ns s' !! "max_node" = Some (VInt max_node) ∧
    ns s' !! "max_bc" = Some (VFloat max_bc) ∧
    dict_get max_node bc = Some max_bc ∧
    ∀ n v, dict_get n bc = Some v → float_gt v max_bc = false.
Proof.
  intros Hrun. unfold cell_betweenness in Hrun. inv_run. simpl in *.
  match goal with
  | H : py_max snd (items ?d) = Ok ?p |- _ =>
      rename H into Hmax; set (bc := d) in *; set (best := p) in *
  end.
  assert (items bc ≠ []) as Hne by (intros Hnil; by rewrite Hnil in Hmax).
  destruct (py_max_items bc Hne) as (mn & mx & Hmax' & Hin & Hge).
  assert (best = (mn, mx)) as Hbest by congruence.
  match goal with
  | H : <["bc":=VScores ?d]> _ !! "bc" = Some (VScores bc) |- _ =>
      rewrite lookup_insert_eq in H; injection H as Hd
  end.
  exists bc, mn, mx. rewrite Hbest. simpl. split_and!.
  - rewrite 2!lookup_insert_ne by done. rewrite lookup_insert_eq. by rewrite Hd.
  - rewrite lookup_insert_ne by done. by rewrite lookup_insert_eq.
  - by rewrite lookup_insert_eq.
  - by apply dict_get_item.
  - intros k v Hk. apply (Hge k). by apply dict_get_item.
Qed.

Lemma betweenness_cell_binds_max_witness :
  cell_betweenness sample_library sample_state =
    ((cell_betweenness sample_library sample_state).1, Ok tt) ∧
  ∃ bc max_node max_bc,
    ns (cell_betweenness sample_library sample_state).1 !! "bc" = Some (VScores bc) ∧
    ns (cell_betweenness sample_library sample_state).1 !! "max_node"
      = Some (VInt max_node) ∧
    ns (cell_betweenness sample_library sample_state).1 !! "max_bc"
      = Some (VFloat max_bc) ∧
    dict_get max_node bc = Some max_bc ∧
    ∀ n v, dict_get n bc = Some v → float_gt v max_bc = false.
Proof.
  split; [reflexivity |].
  apply (betweenness_cell_binds_max sample_library sample_state _ tt). reflexivity.
Defined.

(** X3: on a graph for which the library returns no score at all (a graph without
    nodes), [max] raises [ValueError]: the cell halts with [hk_graph_di] and
    [bc] bound and with [max_node] and [max_bc] as they were. *)
Theorem betweenness_cell_empty (L : library) (s : state) (o o' : pyval)
    (l : loc) (g di : graph) (bc : dict node pyfloat) :
  ns s !! "ox" = Some o →
  ns s !! "nx" = Some o' →
  ns s !! "hk_graph" = Some (VRef l) →
  heap s !! l = Some (OGraph g) →
  L (ox_get_digraph g) = Ok di →
  L (nx_betweenness_centrality di "length") = Ok bc →
  items bc = [] →
  (cell_betweenness L s).2 = Raise ValueError ∧
  ns (cell_betweenness L s).1 !! "bc" = Some (VScores bc) ∧
  ns (cell_betweenness L s).1 !! "hk_graph_di" = Some (VRef (length (heap s))) ∧
  ns (cell_betweenness L s).1 !! "max_node" = ns s !! "max_node" ∧
  ns (cell_betweenness L s).1 !! "max_bc" = ns s !! "max_bc".
Proof.
  intros Hox Hnx Hv Hl Hdi Hbc Hnil. unfold cell_betweenness.
  erewrite run_bind_Ok by by apply get_var_run.
  erewrite run_bind_Ok by by eapply get_graph_run. cbv beta iota.
  erewrite run_bind_Ok by by apply (lib_call_run L (ox_get_digraph g)).
  rewrite bind_unfold. cbn [alloc]. rewrite bind_unfold. cbn [assign].
  erewrite run_bind_Ok
    by (apply get_var_run; simpl; by rewrite lookup_insert_ne).
  erewrite run_bind_Ok.
  2:{ eapply get_graph_run; simpl; [apply lookup_insert_eq |].
      by apply list_lookup_middle. }
  cbv beta iota.
  erewrite run_bind_Ok
    by by apply (lib_call_run L (nx_betweenness_centrality di "length")).
  rewrite bind_unfold. cbn [assign].
  erewrite run_bind_Ok by (apply get_var_run; simpl; apply lookup_insert_eq).
  rewrite bind_unfold. cbn [as_scores mret M_ret].
  rewrite bind_unfold, Hnil. simpl.
  split_and!; [done | apply lookup_insert_eq | | |].
  - rewrite lookup_insert_ne by done. apply lookup_insert_eq.
  - by rewrite !lookup_insert_ne.
  - by rewrite !lookup_insert_ne.
Qed.

Lemma betweenness_cell_empty_witness :
  (cell_betweenness empty_library
     (State (ns sample_state) [OGraph empty_graph] [])).2 = Raise ValueError ∧
  ns (cell_betweenness empty_library
        (State (ns sample_state) [OGraph empty_graph] [])).1 !! "bc"
    = Some (VScores dict_empty) ∧
  ns (cell_betweenness empty_library
        (State (ns sample_state) [OGraph empty_graph] [])).1 !! "hk_graph_di"
    = Some (VRef 1) ∧
  ns (cell_betweenness empty_library
        (State (ns sample_state) [OGraph empty_graph] [])).1 !! "max_node"
    = None ∧
  ns (cell_betweenness empty_library
        (State (ns sample_state) [OGraph empty_graph] [])).1 !! "max_bc"
    = None.
Proof.
  apply (betweenness_cell_empty empty_library
           (State (ns sample_state) [OGraph empty_graph] [])
           (VOpaque "osmnx") (VOpaque "networkx") 0%nat empty_graph empty_graph
           dict_empty); reflexivity.
Defined.

(** ** The highlight cell *)

Lemma cell_highlight_marks L s l g m :
  ns s !! "hk_graph" = Some (VRef l) →
  heap s !! l = Some (OGraph g) →
  ns s !! "max_node" = Some m →
  ns (cell_highlight L s).1 !! "nc" =
    Some (VList ((λ node, if int_eq node m then VStr "r" else VStr "w")
                   <$> graph_nodes g)) ∧
  ns (cell_highlight L s).1 !! "ns" =
    Some (VList ((λ node, if int_eq node m then VInt 80 else VInt 5)
                   <$> graph_nodes g)).
Proof.
  intros Hv Hl Hm.
  assert (∃ s2, cell_highlight L s = highlight_plot L s2 ∧
            ns s2 !! "nc" =
              Some (VList ((λ node, if int_eq node m then VStr "r" else VStr "w")
                             <$> graph_nodes g)) ∧
            ns s2 !! "ns" =
              Some (VList ((λ node, if int_eq node m then VInt 80 else VInt 5)
                             <$> graph_nodes g))) as (s2 & -> & Hnc & Hns).
  { unfold cell_highlight. rewrite bind_unfold, (highlight_run s l g m) by done.
    rewrite bind_unfold. cbn [assign]. rewrite bind_unfold.
    rewrite (highlight_run _ l g m) by (by simpl; rewrite ?lookup_insert_ne).
    rewrite bind_unfold. cbn [assign]. eexists. split; [done |].
    simpl. by rewrite lookup_insert_eq, lookup_insert_ne, lookup_insert_eq. }
  rewrite (glue_highlight_plot L _ _ (keeps_var_closed L "nc")) by done.
  by rewrite (glue_highlight_plot L _ _ (keeps_var_closed L "ns")) by done.
Qed.

Lemma graph_nodes_NoDup g : NoDup (graph_nodes g).
Proof. apply dict_NoDup. Qed.

Lemma mark_lookup (m : node) (hit miss : pyval) (nodes : list node) (i : nat) :
  hit ≠ miss →
  ((λ node, if int_eq node (VInt m) then hit else miss) <$> nodes) !! i = Some hit
  ↔ nodes !! i = Some m.
Proof.
  intros Hne. rewrite list_lookup_fmap.
  destruct (nodes !! i) as [node|]; simpl; [| done].
  case_bool_decide; subst; split; intros; by simplify_eq.
Qed.

(** X4: after the highlight cell at most one entry of [nc] is ["r"] and at most
    one entry of [ns] is [80]: the nodes of a graph are distinct.  There is
    such an entry exactly when [max_node] is a node of [hk_graph]. *)
Theorem highlight_marks_once L (s : state) (l : loc) (g : graph) (m : node) :
  ns s !! "hk_graph" = Some (VRef l) →
  heap s !! l = Some (OGraph g) →
  ns s !! "max_node" = Some (VInt m) →
  ∃ nc sz,
    ns (cell_highlight L s).1 !! "nc" = Some (VList nc) ∧
    ns (cell_highlight L s).1 !! "ns" = Some (VList sz) ∧
    (∀ i j, nc !! i = Some (VStr "r") → nc !! j = Some (VStr "r") → i = j) ∧
    (∀ i j, sz !! i = Some (VInt 80) → sz !! j = Some (VInt 80) → i = j) ∧
    ((∃ i, nc !! i = Some (VStr "r")) ↔ m ∈ graph_nodes g) ∧
    ((∃ i, sz !! i = Some (VInt 80)) ↔ m ∈ graph_nodes g).
Proof.
  intros Hv Hl Hm.
  destruct (cell_highlight_marks L s l g (VInt m) Hv Hl Hm) as [Hnc Hsz].
  eexists _, _. split; [exact Hnc |]. split; [exact Hsz |].
  pose proof (graph_nodes_NoDup g) as Hnd.
  split_and!.
  - intros i j Hi%mark_lookup Hj%mark_lookup; [| done..].
    by eapply NoDup_lookup.
  - intros i j Hi%mark_lookup Hj%mark_lookup; [| done..].
    by eapply NoDup_lookup.
  - rewrite list_elem_of_lookup. by setoid_rewrite mark_lookup.
  - rewrite list_elem_of_lookup. by setoid_rewrite mark_lookup.
Qed.

Lemma highlight_marks_once_witness :
  ∃ nc sz,
    ns (cell_highlight sample_library
          (State (<["max_node" := VInt 20]> (ns sample_state)) (heap sample_state) [])).1
      !! "nc" = Some (VList nc) ∧
    ns (cell_highlight sample_library
          (State (<["max_node" := VInt 20]> (ns sample_state)) (heap sample_state) [])).1
      !! "ns" = Some (VList sz) ∧
    (∀ i j, nc !! i = Some (VStr "r") → nc !! j = Some (VStr "r") → i = j) ∧
    (∀ i j, sz !! i = Some (VInt 80) → sz !! j = Some (VInt 80) → i = j) ∧
    ((∃ i, nc !! i = Some (VStr "r")) ↔ 20 ∈ graph_nodes sample_graph) ∧
    ((∃ i, sz !! i = Some (VInt 80)) ↔ 20 ∈ graph_nodes sample_graph).
Proof.
  apply (highlight_marks_once sample_library _ 0%nat sample_graph 20); reflexivity.
Defined.

(** X5: the comprehensions read [max_node] once per node.  With [max_node]
    unbound and a graph that has a node, the cell stops at the first
    comprehension with [NameError]: nothing is assigned and nothing is
    plotted. *)
Theorem highlight_unbound_max_node L (s : state) (l : loc) (g : graph) :
  ns s !! "hk_graph" = Some (VRef l) →
  heap s !! l = Some (OGraph g) →
  ns s !! "max_node" = None →
  graph_nodes g ≠ [] →
  cell_highlight L s = (s, Raise (NameError "max_node")).
Proof.
  intros Hv Hl Hm Hne. unfold cell_highlight.
  erewrite run_bind_Raise; [done |]. unfold highlight.
  erewrite run_bind_Ok by by eapply get_graph_run. cbv beta iota.
  erewrite run_bind_Raise; [done |].
  destruct (graph_nodes g) as [|node nodes]; [done |]. cbn [mapM].
  erewrite run_bind_Raise; [done |].
  erewrite run_bind_Raise; [done |]. by apply get_var_unbound.
Qed.

Lemma highlight_unbound_max_node_witness :
  cell_highlight sample_library sample_state
    = (sample_state, Raise (NameError "max_node")).
Proof.
  apply (highlight_unbound_max_node sample_library sample_state 0%nat sample_graph);
    [reflexivity | reflexivity | reflexivity | discriminate].
Defined.

(** X6: on a graph without nodes the comprehensions never read [max_node]: the
    cell binds [nc] and [ns] to empty lists and plots with them, whether
    [max_node] is bound or not. *)
Theorem highlight_empty_graph L (s : state) (o : pyval) (l : loc) (g : graph) :
  ns s !! "ox" = Some o →
  ns s !! "hk_graph" = Some (VRef l) →
  heap s !! l = Some (OGraph g) →
  graph_nodes g = [] →
  ns (cell_highlight L s).1 !! "nc" = Some (VList []) ∧
  ns (cell_highlight L s).1 !! "ns" = Some (VList []) ∧
  ∃ c, trace (cell_highlight L s).1 = trace s ++ [(c, outcome (L c))] ∧
       c = ox_plot_graph g
             (PlotOpts (Some (VList [])) (Some (VList [])) (Some 2) None None None
                       None None None None).
Proof.
  intros Hox Hv Hl Hnil.
  assert (∀ hit miss s1, ns s1 !! "hk_graph" = Some (VRef l) →
            heap s1 !! l = Some (OGraph g) →
            highlight hit miss s1 = (s1, Ok (VList []))) as Hrun.
  { intros hit miss s1 Hv1 Hl1. unfold highlight.
    erewrite run_bind_Ok by by eapply get_graph_run. cbv beta iota.
    by rewrite Hnil. }
  set (s2 := State (<["ns":=VList []]> (<["nc":=VList []]> (ns s))) (heap s) (trace s)).
  assert (cell_highlight L s = highlight_plot L s2) as ->.
  { unfold cell_highlight. erewrite run_bind_Ok by by apply Hrun.
    rewrite bind_unfold. cbn [assign].
    erewrite run_bind_Ok by (apply Hrun; simpl; by rewrite ?lookup_insert_ne).
    by rewrite bind_unfold. }
  rewrite (glue_highlight_plot L _ _ (keeps_var_closed L "nc")) by done.
  rewrite (glue_highlight_plot L _ _ (keeps_var_closed L "ns")) by done.
  split; [by subst s2; simpl; rewrite lookup_insert_ne, lookup_insert_eq |].
  split; [by subst s2; simpl; rewrite lookup_insert_eq |].
  eexists. split; [| reflexivity]. unfold highlight_plot.
  erewrite run_bind_Ok
    by (apply get_var_run; subst s2; simpl; by rewrite !lookup_insert_ne).
  erewrite run_bind_Ok
    by (eapply get_graph_run; subst s2; simpl; [by rewrite !lookup_insert_ne | done]).
  cbv beta iota.
  erewrite run_bind_Ok by (apply get_var_run; subst s2; simpl; apply lookup_insert_eq).
  erewrite run_bind_Ok
    by (apply get_var_run; subst s2; simpl;
        by rewrite lookup_insert_ne, lookup_insert_eq).
  rewrite bind_unfold. unfold lib_call at 1.
  destruct (L _) as [r|e]; [| done].
  rewrite bind_unfold.
  destruct r as [| | | | | |[|?[|?[|??]]]| | | | |]; done.
Qed.

Lemma highlight_empty_graph_witness :
  ns (cell_highlight empty_library
        (State (ns sample_state) [OGraph empty_graph] [])).1 !! "nc"
    = Some (VList []) ∧
  ns (cell_highlight empty_library
        (State (ns sample_state) [OGraph empty_graph] [])).1 !! "ns"
    = Some (VList []) ∧
  ∃ c, trace (cell_highlight empty_library
                (State (ns sample_state) [OGraph empty_graph] [])).1
         = [] ++ [(c, outcome (empty_library c))] ∧
       c = ox_plot_graph empty_graph
             (PlotOpts (Some (VList [])) (Some (VList [])) (Some 2) None None None
                       None None None None).
Proof.
  apply (highlight_empty_graph empty_library
           (State (ns sample_state) [OGraph empty_graph] [])
           (VOpaque "osmnx") 0%nat empty_graph); reflexivity.
Defined.

(** ** The polygon of the boundary *)

Lemma assoc_get_rows {A} (f : row → A) (rows : list row) (r : row) :
  NoDup (r_label <$> rows) → r ∈ rows →
  assoc_get (r_label r) ((λ r, (r_label r, f r)) <$> rows) = Some (f r).
Proof.
  induction rows as [|r' rows IH]; csimpl; intros Hnd Hr; [by inversion Hr |].
  apply NoDup_cons in Hnd as [Hr' Hnd].
  apply elem_of_cons in Hr as [->|Hr]; [by rewrite decide_True |].
  rewrite decide_False; [by apply IH |].
  intros Heq. apply Hr'. rewrite <-Heq. by apply list_elem_of_fmap_2.
Qed.

Lemma filter_labels_NoDup (P : row → bool) (rows : list row) :
  NoDup (r_label <$> rows) → NoDup (r_label <$> List.filter P rows).
Proof.
  induction rows as [|r rows IH]; csimpl; [done |].
  intros [Hr Hnd]%NoDup_cons. destruct (P r); csimpl; [| by apply IH].
  apply NoDup_cons. split; [| by apply IH].
  intros (r' & Heq & Hin)%list_elem_of_fmap. apply Hr. rewrite Heq.
  apply list_elem_of_fmap_2.
  by apply list_elem_of_In, filter_In in Hin as [Hin%list_elem_of_In _].
Qed.

Lemma chiyoda_geometry_run (s : state) (df : frame) (i j : nat) :
  ns s !! "tokyo_pre_boundary" = Some (VFrame df) →
  col_index "N03_004" df = Some i →
  col_index "geometry" df = Some j →
  ∃ s1,
    cell_filter_chiyoda s = (s1, Ok tt) ∧
    ns s1 = <["chiyoda" :=
               VFrame (Frame (f_columns df)
                 (List.filter (λ r, cell_eq_str "千代田区" (row_cell i r)) (f_rows df)))]>
            (ns s) ∧
    heap s1 = heap s ∧ trace s1 = trace s ∧
    chiyoda_geometry s1 =
      (s1, series_at_label 0
             ((λ r, (r_label r, row_cell j r)) <$>
                List.filter (λ r, cell_eq_str "千代田区" (row_cell i r)) (f_rows df))).
Proof.
  intros Hdf Hi Hj. eexists. split_and!.
  - unfold cell_filter_chiyoda.
    erewrite run_bind_Ok by by apply get_frame_run.
    erewrite run_bind_Ok by by apply get_frame_run.
    unfold frame_attr. rewrite Hi. rewrite bind_unfold. cbn [lift mret M_ret].
    cbn [assign]. unfold frame_getitem_mask. by rewrite select_rows_filter.
  - done.
  - done.
  - done.
  - unfold chiyoda_geometry.
    erewrite run_bind_Ok by (apply get_frame_run; simpl; apply lookup_insert_eq).
    unfold frame_getitem, col_index in *. cbn [f_columns f_rows]. rewrite Hj.
    rewrite bind_unfold. cbn [lift mret M_ret].
    by destruct (series_at_label _ _).
Qed.

(** X7: [chiyoda['geometry'][0]] reads the row labelled [0], and the filter keeps
    the labels of the table it filters.  Where the row of the boundary table
    labelled [0] is a row of the district, the boundary cell followed by the
    network cell asks the library for the network within the geometry of that
    row, and binds [chiyoda_graph] to the graph it gets. *)
Theorem polygon_of_label_0 L (s : state) (o : pyval) (df : frame) (i j : nat) (r : row) :
  ns s !! "ox" = Some o →
  ns s !! "tokyo_pre_boundary" = Some (VFrame df) →
  col_index "N03_004" df = Some i →
  col_index "geometry" df = Some j →
  NoDup (r_label <$> f_rows df) →
  r ∈ f_rows df →
  r_label r = 0 →
  row_cell i r = CStr "千代田区" →
  trace ((cell_filter_chiyoda;; cell_graph_from_polygon L) s).1 =
    trace s ++ [(ox_graph_from_polygon (row_cell j r),
                 outcome (L (ox_graph_from_polygon (row_cell j r))))] ∧
  ∀ g, L (ox_graph_from_polygon (row_cell j r)) = Ok g →
    ((cell_filter_chiyoda;; cell_graph_from_polygon L) s).2 = Ok tt ∧
    ns ((cell_filter_chiyoda;; cell_graph_from_polygon L) s).1 !! "chiyoda_graph"
      = Some (VRef (length (heap s))) ∧
    heap ((cell_filter_chiyoda;; cell_graph_from_polygon L) s).1
      = heap s ++ [OGraph g].
Proof.
  intros Hox Hdf Hi Hj Hnd Hr Hlbl Hc.
  destruct (chiyoda_geometry_run s df i j Hdf Hi Hj)
    as (s1 & Hrun & Hns & Hheap & Htrace & Hgeo).
  erewrite run_bind_Ok by exact Hrun. unfold cell_graph_from_polygon.
  erewrite run_bind_Ok
    by (apply get_var_run; rewrite Hns; by rewrite lookup_insert_ne).
  assert (chiyoda_geometry s1 = (s1, Ok (row_cell j r))) as Hgeo'.
  { rewrite Hgeo. unfold series_at_label. rewrite <-Hlbl.
    rewrite (assoc_get_rows (row_cell j)); [done | by apply filter_labels_NoDup |].
    apply list_elem_of_In, filter_In. split; [by apply list_elem_of_In |].
    by apply cell_eq_str_true. }
  erewrite run_bind_Ok by exact Hgeo'.
  destruct (L (ox_graph_from_polygon (row_cell j r))) as [g|e] eqn:HL.
  - erewrite run_bind_Ok
      by by apply (lib_call_run L (ox_graph_from_polygon (row_cell j r))).
    rewrite bind_unfold. cbn [alloc]. cbn [assign fst snd ns heap trace outcome].
    rewrite Htrace. split; [done |]. intros ? [= <-].
    by rewrite lookup_insert_eq, Hheap.
  - erewrite run_bind_Raise
      by by apply (lib_call_raise L (ox_graph_from_polygon (row_cell j r))).
    cbn [fst snd trace outcome]. rewrite Htrace. split; [done |]. by intros g.
Qed.

Lemma polygon_of_label_0_witness :
  trace ((cell_filter_chiyoda;; cell_graph_from_polygon sample_library)
           (State (<["ox" := VOpaque "osmnx"]> (ns boundary_state)) [] [])).1 =
    [] ++ [(ox_graph_from_polygon (CGeom [(0%Q, 0%Q); (1%Q, 0%Q); (1%Q, 1%Q)]),
            None)] ∧
  ∀ g, sample_library
         (ox_graph_from_polygon (CGeom [(0%Q, 0%Q); (1%Q, 0%Q); (1%Q, 1%Q)])) = Ok g →
    ((cell_filter_chiyoda;; cell_graph_from_polygon sample_library)
       (State (<["ox" := VOpaque "osmnx"]> (ns boundary_state)) [] [])).2 = Ok tt ∧
    ns ((cell_filter_chiyoda;; cell_graph_from_polygon sample_library)
          (State (<["ox" := VOpaque "osmnx"]> (ns boundary_state)) [] [])).1
      !! "chiyoda_graph" = Some (VRef 0) ∧
    heap ((cell_filter_chiyoda;; cell_graph_from_polygon sample_library)
            (State (<["ox" := VOpaque "osmnx"]> (ns boundary_state)) [] [])).1
      = [] ++ [OGraph g].
Proof.
  apply (polygon_of_label_0 sample_library
           (State (<["ox" := VOpaque "osmnx"]> (ns boundary_state)) [] [])
           (VOpaque "osmnx") sample_frame 1 2
           (Row 0 [CStr "東京都"; CStr "千代田区";
                   CGeom [(0%Q, 0%Q); (1%Q, 0%Q); (1%Q, 1%Q)]]));
    try reflexivity.
  - by apply (bool_decide_unpack (NoDup [0; 1; 2])).
  - apply list_elem_of_here.
Defined.

(** X8: where no row of the district is labelled [0], the subscript raises
    [KeyError], however many rows the filter has kept: the network cell stops
    before it calls the library, and [chiyoda_graph] is not bound. *)
Theorem polygon_label_0_missing L (s : state) (o : pyval) (df : frame) (i j : nat) :
  ns s !! "ox" = Some o →
  ns s !! "tokyo_pre_boundary" = Some (VFrame df) →
  col_index "N03_004" df = Some i →
  col_index "geometry" df = Some j →
  (∀ r, r ∈ f_rows df → row_cell i r = CStr "千代田区" → r_label r ≠ 0) →
  ((cell_filter_chiyoda;; cell_graph_from_polygon L) s).2 = Raise (KeyError "0") ∧
  trace ((cell_filter_chiyoda;; cell_graph_from_polygon L) s).1 = trace s ∧
  heap ((cell_filter_chiyoda;; cell_graph_from_polygon L) s).1 = heap s ∧
  ns ((cell_filter_chiyoda;; cell_graph_from_polygon L) s).1 !! "chiyoda_graph"
    = ns s !! "chiyoda_graph".
Proof.
  intros Hox Hdf Hi Hj Hno.
  destruct (chiyoda_geometry_run s df i j Hdf Hi Hj)
    as (s1 & Hrun & Hns & Hheap & Htrace & Hgeo).
  erewrite run_bind_Ok by exact Hrun. unfold cell_graph_from_polygon.
  erewrite run_bind_Ok
    by (apply get_var_run; rewrite Hns; by rewrite lookup_insert_ne).
  assert (chiyoda_geometry s1 = (s1, Raise (KeyError "0"))) as Hgeo'.
  { rewrite Hgeo. unfold series_at_label.
    rewrite (proj2 (assoc_get_None _ _)); [done |].
    rewrite <-list_fmap_compose.
    intros (r & Hl & [Hr Hc%cell_eq_str_true]%list_elem_of_In%filter_In)%list_elem_of_fmap.
    apply list_elem_of_In in Hr. by apply (Hno r). }
  erewrite run_bind_Raise by exact Hgeo'. simpl.
  rewrite Htrace, Hheap, Hns. by rewrite lookup_insert_ne.
Qed.

Lemma polygon_label_0_missing_witness :
  ((cell_filter_chiyoda;; cell_graph_from_polygon sample_library)
     (State (<["ox" := VOpaque "osmnx"]>
               (<["tokyo_pre_boundary" := VFrame reordered_frame]> ∅)) [] [])).2
    = Raise (KeyError "0") ∧
  trace ((cell_filter_chiyoda;; cell_graph_from_polygon sample_library)
     (State (<["ox" := VOpaque "osmnx"]>
               (<["tokyo_pre_boundary" := VFrame reordered_frame]> ∅)) [] [])).1 = [] ∧
  heap ((cell_filter_chiyoda;; cell_graph_from_polygon sample_library)
     (State (<["ox" := VOpaque "osmnx"]>
               (<["tokyo_pre_boundary" := VFrame reordered_frame]> ∅)) [] [])).1 = [] ∧
  ns ((cell_filter_chiyoda;; cell_graph_from_polygon sample_library)
     (State (<["ox" := VOpaque "osmnx"]>
               (<["tokyo_pre_boundary" := VFrame reordered_frame]> ∅)) [] [])).1
    !! "chiyoda_graph" = None.
Proof.
  refine (polygon_label_0_missing sample_library
            (State (<["ox" := VOpaque "osmnx"]>
                      (<["tokyo_pre_boundary" := VFrame reordered_frame]> ∅)) [] [])
            (VOpaque "osmnx") reordered_frame 1 2 _ _ _ _ _); try reflexivity.
  intros r Hr Hc. simpl in Hr.
  apply elem_of_cons in Hr as [->|Hr]; [discriminate |].
  apply elem_of_cons in Hr as [->|Hr]; [discriminate |].
  by inversion Hr.
Defined.

(** ** Names are bound before they are read *)

Section quiet.
Variable L : library.

Lemma quiet_ret {A} (a : A) : quiet (mret a : M A).
Proof. by intros s. Qed.

Lemma quiet_raise {A} e : (∀ x, e ≠ NameError x) → quiet (raise e : M A).
Proof. intros He s. split; [done |]. intros x [= ->]. by eapply He. Qed.

Lemma quiet_bind {A B} (m : M A) (f : A → M B) :
  quiet m → (∀ a, quiet (f a)) → quiet (m ≫= f).
Proof.
  intros Hm Hf s. rewrite bind_unfold. destruct (Hm s) as [Hns Hne].
  destruct (m s) as [s1 [a|e]]; simpl in *.
  - destruct (Hf a s1) as [Hns1 Hne1]. split; [congruence | done].
  - split; [done |]. intros x [= ->]. by eapply Hne.
Qed.

Lemma quiet_alloc o : quiet (alloc o).
Proof. by intros s. Qed.

Lemma quiet_load l : quiet (load l).
Proof. intros s. unfold load. by destruct (heap s !! l). Qed.

Lemma quiet_store l o : quiet (store l o).
Proof. by intros s. Qed.

Lemma quiet_lib_call c :
  (∀ x, L c ≠ Raise (NameError x)) → quiet (lib_call L c).
Proof. intros Hc s. by split. Qed.

Lemma quiet_lift {A} (r : result A) :
  (∀ x, r ≠ Raise (NameError x)) → quiet (lift r).
Proof.
  intros Hr. destruct r as [a|e]; [apply quiet_ret |].
  apply quiet_raise. intros x ->. by eapply Hr.
Qed.

Local Ltac quiet1 :=
  match goal with
  | |- quiet (mret _) => apply quiet_ret
  | |- quiet (raise _) => by apply quiet_raise
  | |- quiet (_ ≫= _) => apply quiet_bind; [| intros ?]
  | |- quiet (alloc _) => apply quiet_alloc
  | |- quiet (load _) => apply quiet_load
  | |- quiet (store _ _) => apply quiet_store
  | |- quiet (let '(_, _) := ?x in _) => destruct x
  | |- quiet (match ?x with _ => _ end) => destruct x
  | |- quiet (if ?b then _ else _) => destruct b
  end.

Local Ltac quiet := repeat quiet1.

Lemma quiet_load_graph v : quiet (load_graph v).
Proof. unfold load_graph. quiet. Qed.

Lemma quiet_load_dict v : quiet (load_dict v).
Proof. unfold load_dict. quiet. Qed.

Lemma quiet_as_scores v : quiet (as_scores v).
Proof. unfold as_scores. quiet. Qed.

Lemma quiet_as_frame v : quiet (as_frame v).
Proof. unfold as_frame. quiet. Qed.

Lemma quiet_as_str v : quiet (as_str v).
Proof. unfold as_str. quiet. Qed.

Lemma quiet_py_str v : quiet (py_str v).
Proof. unfold py_str. quiet. Qed.

Lemma quiet_unpack2 v : quiet (unpack2 v).
Proof. unfold unpack2. quiet. Qed.

Lemma quiet_setitem v k x : quiet (setitem v k x).
Proof.
  unfold setitem, modify_dict. quiet; [apply quiet_load_dict |].
  by apply quiet_lift.
Qed.

Lemma quiet_delitem v k : quiet (delitem v k).
Proof.
  unfold delitem, modify_dict. quiet; [apply quiet_load_dict |].
  apply quiet_lift. intros x. by destruct (dict_get k _).
Qed.

Lemma quiet_subscript v k : quiet (subscript v k).
Proof. unfold subscript. quiet. apply quiet_load_dict. Qed.

Lemma quiet_nx_set_node_attributes v d name :
  quiet (nx_set_node_attributes v d name).
Proof. unfold nx_set_node_attributes. quiet. apply quiet_load_graph. Qed.

Lemma quiet_next_item l n i : quiet (next_item l n i).
Proof. unfold next_item. quiet. apply quiet_load_dict. Qed.

Lemma quiet_copy_items copy l' memo its :
  (∀ memo v, quiet (copy memo v)) → quiet (copy_items copy l' memo its).
Proof.
  intros Hc. revert memo.
  induction its as [|[k v] its IH]; intros memo; simpl; quiet; auto.
  apply quiet_setitem.
Qed.

Lemma quiet_copy_list copy memo vs :
  (∀ memo v, quiet (copy memo v)) → quiet (copy_list copy memo vs).
Proof.
  intros Hc. revert memo.
  induction vs as [|v vs IH]; intros memo; simpl; quiet; auto.
Qed.

Lemma quiet_deepcopy_rec depth memo v : quiet (deepcopy_rec depth memo v).
Proof.
  revert memo v. induction depth as [|depth IH]; intros memo v.
  - destruct v; simpl; quiet.
  - destruct v; simpl; quiet;
      first [by apply quiet_copy_items | by apply quiet_copy_list].
Qed.

Lemma quiet_deepcopy v : quiet (deepcopy v).
Proof. unfold deepcopy. quiet. apply quiet_deepcopy_rec. Qed.

Lemma quiet_materialize_items its acc : quiet (materialize_items its acc).
Proof.
  revert acc. induction its as [|[k [v|d]] its IH]; intros acc; simpl; quiet; auto.
Qed.

Lemma quiet_materialize d : quiet (materialize d).
Proof. unfold materialize. quiet. apply quiet_materialize_items. Qed.

Lemma quiet_frame_attr name df : quiet (lift (frame_attr name df)).
Proof. apply quiet_lift. intros x. unfold frame_attr. by destruct (col_index _ _). Qed.

Lemma quiet_frame_getitem name df : quiet (lift (frame_getitem name df)).
Proof.
  apply quiet_lift. intros x. unfold frame_getitem. by destruct (col_index _ _).
Qed.

Lemma quiet_series_at_label lbl col : quiet (lift (series_at_label lbl col)).
Proof.
  apply quiet_lift. intros x. unfold series_at_label. by destruct (assoc_get _ _).
Qed.

Lemma quiet_py_max {A} (key : A → pyfloat) l : quiet (lift (py_max key l)).
Proof. apply quiet_lift. intros x. by destruct l. Qed.

End quiet.

Section defines.
Variable L : library.
(** No library raises the interpreter's [NameError] for a name of the
    notebook. *)
Hypothesis library_names : ∀ c x, L c ≠ Raise (NameError x).

Lemma bound_in_elem D s x : bound_in D s → x ∈ D → is_Some (ns s !! x).
Proof. intros HD Hx. by apply (proj1 (Forall_forall _ _) HD). Qed.

Lemma defines_ret {A} D (a : A) : defines D (mret a : M A) D.
Proof. by intros s Hs. Qed.

Lemma defines_bind {A B} D D1 D2 (m : M A) (f : A → M B) :
  defines D m D1 → (∀ a, defines D1 (f a) D2) → defines D (m ≫= f) D2.
Proof.
  intros Hm Hf s Hs. rewrite bind_unfold. specialize (Hm s Hs).
  destruct (m s) as [s1 [a|e]]; [by apply Hf | done].
Qed.

Lemma defines_get_var D x : x ∈ D → defines D (get_var x) D.
Proof.
  intros Hx s Hs. unfold get_var.
  by destruct (bound_in_elem D s x Hs Hx) as [v ->].
Qed.

Lemma defines_assign D x v : defines D (assign x v) (x :: D).
Proof.
  intros s Hs. simpl. constructor; simpl.
  - by rewrite lookup_insert_eq.
  - eapply Forall_impl; [exact Hs |]. intros y [w Hy]. simpl.
    destruct (decide (x = y)) as [->|Hne];
      [by rewrite lookup_insert_eq | by rewrite lookup_insert_ne].
Qed.

Lemma defines_quiet {A} D (m : M A) : quiet m → defines D m D.
Proof.
  intros Hm s Hs. destruct (Hm s) as [Hns Hne].
  destruct (m s) as [s1 [a|e]]; simpl in *.
  - unfold bound_in. by rewrite Hns.
  - intros x ->. by eapply Hne.
Qed.

Lemma defines_weaken {A} D D1 D2 (m : M A) :
  defines D m D1 → D2 ⊆ D1 → defines D m D2.
Proof.
  intros Hm Hsub s Hs. specialize (Hm s Hs).
  destruct (m s) as [s1 [a|e]]; [| done].
  apply Forall_forall. intros x Hx. by eapply bound_in_elem, Hsub.
Qed.

Lemma defines_lib_call D c : defines D (lib_call L c) D.
Proof. apply defines_quiet, quiet_lib_call, library_names. Qed.

Lemma defines_get_graph D x : x ∈ D → defines D (get_graph x) D.
Proof.
  intros Hx. unfold get_graph. eapply defines_bind; [by apply defines_get_var |].
  intros v. apply defines_quiet, quiet_load_graph.
Qed.

Lemma defines_get_frame D x : x ∈ D → defines D (get_frame x) D.
Proof.
  intros Hx. unfold get_frame. eapply defines_bind; [by apply defines_get_var |].
  intros v. apply defines_quiet, quiet_as_frame.
Qed.

Lemma defines_for_each {A} D (xs : list A) body :
  (∀ x, defines D (body x) D) → defines D (for_each xs body) D.
Proof.
  intros Hb. induction xs as [|x xs IH]; cbn [for_each]; [apply defines_ret |].
  eapply defines_bind; [apply Hb | by intros _].
Qed.

Lemma defines_mapM {A B} D (f : A → M B) xs :
  (∀ x, defines D (f x) D) → defines D (mapM f xs) D.
Proof.
  intros Hf. induction xs as [|x xs IH]; cbn [mapM]; [apply defines_ret |].
  eapply defines_bind; [apply Hf |]. intros y.
  eapply defines_bind; [apply IH |]. intros ys. apply defines_ret.
Qed.

Lemma defines_for_items D l body :
  (∀ k v, defines D (body k v) D) → defines D (for_items l body) D.
Proof.
  intros Hb. unfold for_items.
  eapply defines_bind; [apply defines_quiet, quiet_load_dict |]. intros [l' d].
  eapply defines_bind.
  - apply defines_for_each. intros i.
    eapply defines_bind; [apply defines_quiet, quiet_next_item |].
    intros [[k v]|]; [apply Hb | apply defines_ret].
  - intros _. eapply defines_bind; [apply defines_quiet, quiet_next_item |].
    intros _. apply defines_ret.
Qed.

Local Ltac is_in := apply list_elem_of_In; simpl; tauto.

Local Ltac defs1 :=
  match goal with
  | |- defines _ (_ ≫= _) _ => eapply defines_bind; [| intros ?]
  | |- defines _ (mret _) _ => apply defines_ret
  | |- defines _ (get_var _) _ => apply defines_get_var; is_in
  | |- defines _ (get_graph _) _ => apply defines_get_graph; is_in
  | |- defines _ (get_frame _) _ => apply defines_get_frame; is_in
  | |- defines _ (assign _ _) _ => apply defines_assign
  | |- defines _ (lib_call _ ?c) _ => exact (defines_lib_call _ c)
  | |- defines _ (let '(_, _) := ?x in _) _ => destruct x
  | |- defines _ (alloc _) _ => apply defines_quiet, quiet_alloc
  | |- defines _ (load_dict _) _ => apply defines_quiet, quiet_load_dict
  | |- defines _ (as_scores _) _ => apply defines_quiet, quiet_as_scores
  | |- defines _ (as_str _) _ => apply defines_quiet, quiet_as_str
  | |- defines _ (py_str _) _ => apply defines_quiet, quiet_py_str
  | |- defines _ (unpack2 _) _ => apply defines_quiet, quiet_unpack2
  | |- defines _ (setitem _ _ _) _ => apply defines_quiet, quiet_setitem
  | |- defines _ (delitem _ _) _ => apply defines_quiet, quiet_delitem
  | |- defines _ (subscript _ _) _ => apply defines_quiet, quiet_subscript
  | |- defines _ (deepcopy _) _ => apply defines_quiet, quiet_deepcopy
  | |- defines _ (materialize _) _ => apply defines_quiet, quiet_materialize
  | |- defines _ (nx_set_node_attributes _ _ _) _ =>
      apply defines_quiet, quiet_nx_set_node_attributes
  | |- defines _ (lift (frame_attr _ _)) _ => apply defines_quiet, quiet_frame_attr
  | |- defines _ (lift (frame_getitem _ _)) _ =>
      apply defines_quiet, quiet_frame_getitem
  | |- defines _ (lift (series_at_label _ _)) _ =>
      apply defines_quiet, quiet_series_at_label
  | |- defines _ (lift (py_max _ _)) _ => apply defines_quiet, quiet_py_max
  end.

Local Ltac defs := repeat defs1.

Lemma defines_unpack_loop D nested suffix var :
  "stats_unpack" ∈ D → defines D (unpack_loop nested suffix var) D.
Proof.
  intros Hsu. unfold unpack_loop.
  eapply defines_bind; [by apply defines_get_var |]. intros su.
  eapply defines_bind; [apply defines_quiet, quiet_subscript |]. intros inner.
  eapply defines_bind; [apply defines_quiet, quiet_load_dict |]. intros [l d].
  apply defines_for_items. intros k v.
  apply (defines_weaken _ (var :: "k" :: D)); [| set_solver].
  eapply defines_bind; [apply defines_assign |]. intros _.
  eapply defines_bind; [apply defines_assign |]. intros _.
  eapply defines_bind; [apply defines_get_var; set_solver |]. intros x.
  eapply defines_bind; [apply defines_get_var; set_solver |]. intros su'.
  eapply defines_bind; [apply defines_get_var; set_solver |]. intros kv.
  defs.
Qed.

Lemma defines_highlight D hit miss :
  "hk_graph" ∈ D → "max_node" ∈ D → defines D (highlight hit miss) D.
Proof.
  intros Hg Hm. unfold highlight.
  eapply defines_bind; [by apply defines_get_graph |]. intros [l g].
  eapply defines_bind; [| intros ?; apply defines_ret].
  apply defines_mapM. intros node.
  eapply defines_bind; [by apply defines_get_var |]. intros m. apply defines_ret.
Qed.

Local Ltac defs_cell :=
  repeat first
    [ defs1
    | apply defines_unpack_loop; is_in
    | apply defines_highlight; is_in ].

Lemma notebook_chain : chain [] (notebook L).
Proof.
  unfold notebook.
  eapply chain_cons; [unfold cell_install; defs |].
  eapply chain_cons; [unfold cell_import; defs |].
  eapply chain_cons; [unfold cell_graph_from_point; defs |].
  eapply chain_cons; [unfold cell_plot_hk; defs |].
  eapply chain_cons; [unfold cell_read_boundary; defs |].
  eapply chain_cons; [unfold cell_show_boundary; defs |].
  eapply chain_cons; [unfold cell_filter_chiyoda; defs |].
  eapply chain_cons; [unfold cell_plot_chiyoda; defs |].
  eapply chain_cons; [unfold cell_show_geometry, chiyoda_geometry; defs |].
  eapply chain_cons; [unfold cell_graph_from_polygon, chiyoda_geometry; defs |].
  eapply chain_cons; [unfold cell_plot_chiyoda_graph; defs |].
  eapply chain_cons; [unfold cell_folium; defs |].
  eapply chain_cons; [unfold cell_graph_from_place; defs |].
  eapply chain_cons; [unfold cell_basic_stats; defs |].
  eapply chain_cons; [unfold cell_show_stats; defs |].
  eapply chain_cons; [unfold cell_stats_unpack, flatten; defs_cell |].
  eapply chain_cons; [unfold cell_street_count_plot; defs |].
  eapply chain_cons; [unfold cell_betweenness; defs |].
  eapply chain_cons; [unfold cell_highlight, highlight_plot; defs_cell |].
  eapply chain_cons; [unfold cell_attach_bc, bc_plot; defs |].
  eapply chain_cons; [unfold cell_save_geopackage; defs |].
  eapply chain_cons; [unfold cell_save_shapefile; defs |].
  eapply chain_cons; [unfold cell_save_svg; defs |].
  apply chain_nil.
Qed.

Lemma run_chain D cs i s s' j e :
  chain D cs → bound_in D s → run_from i cs s = (s', Halted j e) →
  ∀ x, e ≠ NameError x.
Proof.
  intros Hc. revert i s. induction Hc as [D|D D' c cs Hd Hc IH]; intros i s Hs.
  - done.
  - cbn [run_from]. specialize (Hd s Hs).
    destruct (c s) as [s1 [[]|e1]].
    + by apply IH.
    + by intros [= <- <- <-].
Qed.

End defines.

(** X12: run from top to bottom, the notebook binds every name before it reads
    it: whatever the libraries return and wherever the run halts, it does
    not halt on a [NameError] of the interpreter.  The store the run starts
    from need not bind any name. *)
Theorem names_bound_before_read L (s s' : state) (i : nat) (e : exn) :
  (∀ c x, L c ≠ Raise (NameError x)) →
  run_all L s = (s', Halted i e) →
  ∀ x, e ≠ NameError x.
Proof.
  intros HL Hrun.
  eapply (run_chain []); [by apply notebook_chain | constructor | exact Hrun].
Qed.

Lemma names_bound_before_read_witness :
  run_all failing_library init = ((run_all failing_library init).1, Halted 4 timeout) ∧
  ∀ x, timeout ≠ NameError x.
Proof.
  split; [reflexivity |].
  apply (names_bound_before_read failing_library init
           (run_all failing_library init).1 4 timeout); [| reflexivity].
  intros c x. destruct c; discriminate.
Defined.

(** ** What the flattening cell leaves in [stats_unpack] *)

Section dict_updates.
Context {K V : Type} `{!EqDecision K}.

Lemma assoc_set_fresh (k : K) (v : V) (l : list (K * V)) :
  k ∉ l.*1 → assoc_set k v l = l ++ [(k, v)].
Proof.
  induction l as [|[k' v'] l IH]; csimpl; [done |].
  intros Hnin. rewrite decide_False by (intros ->; apply Hnin; left).
  rewrite IH; [done |]. intros Hin. apply Hnin. by right.
Qed.

Lemma foldl_set_items_app (acc : dict K V) (its : list (K * V)) :
  NoDup ((items acc).*1 ++ its.*1) →
  items (foldl (λ a it, dict_set it.1 it.2 a) acc its) = items acc ++ its.
Proof.
  revert acc. induction its as [|[k v] its IH]; intros acc Hnd; csimpl.
  - by rewrite app_nil_r.
  - assert (k ∉ (items acc).*1) as Hk.
    { apply NoDup_app in Hnd as (_ & Hdis & _). intros Hin.
      apply (Hdis k Hin). left. }
    rewrite IH; simpl.
    + rewrite assoc_set_fresh by done. by rewrite <-app_assoc.
    + rewrite assoc_set_fresh by done. rewrite fmap_app, <-app_assoc. done.
Qed.

Lemma foldl_set_items (d : dict K V) :
  foldl (λ a it, dict_set it.1 it.2 a) dict_empty (items d) = d.
Proof. apply dict_eq. rewrite foldl_set_items_app; [done |]. apply dict_NoDup. Qed.

Lemma assoc_get_del_eq (k : K) (l : list (K * V)) :
  NoDup l.*1 → assoc_get k (assoc_del k l) = None.
Proof.
  induction l as [|[k' v'] l IH]; csimpl; [done |].
  intros [Hnin Hnd]%NoDup_cons. case_decide as Hk; simpl.
  - subst. by apply assoc_get_None.
  - rewrite decide_False by done. by apply IH.
Qed.

Lemma assoc_get_del_ne (k k' : K) (l : list (K * V)) :
  k ≠ k' → assoc_get k' (assoc_del k l) = assoc_get k' l.
Proof.
  intros Hne. induction l as [|[k0 v0] l IH]; csimpl; [done |].
  destruct (decide (k = k0)) as [->|Hne0]; simpl.
  - by rewrite decide_False by congruence.
  - by rewrite IH.
Qed.

Lemma dict_get_del_eq (k : K) (d : dict K V) : dict_get k (dict_del k d) = None.
Proof. apply assoc_get_del_eq, dict_NoDup. Qed.

Lemma dict_get_del_ne (k k' : K) (d : dict K V) :
  k ≠ k' → dict_get k' (dict_del k d) = dict_get k' d.
Proof. apply assoc_get_del_ne. Qed.

(** A run of updates [d[f k] = v], over the items [(k, v)] of [its]. *)
Lemma dict_get_foldl_other (f : K → K) (k : K) (acc : dict K V) (its : list (K * V)) :
  (∀ k', k' ∈ its.*1 → f k' ≠ k) →
  dict_get k (foldl (λ a it, dict_set (f it.1) it.2 a) acc its) = dict_get k acc.
Proof.
  revert acc. induction its as [|[k0 v0] its IH]; intros acc Hne; csimpl; [done |].
  rewrite IH by (intros k' Hk'; apply Hne; by right).
  apply dict_get_set_ne, Hne. left.
Qed.

Lemma dict_get_foldl_hit (f : K → K) (k : K) (v : V) (acc : dict K V)
    (its : list (K * V)) :
  NoDup (f <$> its.*1) → (k, v) ∈ its →
  dict_get (f k) (foldl (λ a it, dict_set (f it.1) it.2 a) acc its) = Some v.
Proof.
  revert acc. induction its as [|[k0 v0] its IH]; intros acc Hnd Hin; csimpl.
  - by inversion Hin.
  - apply NoDup_cons in Hnd as [Hk0 Hnd].
    apply elem_of_cons in Hin as [[= -> ->]|Hin]; [| by apply IH].
    rewrite dict_get_foldl_other; [apply dict_get_set_eq |].
    intros k' Hk' Heq. apply Hk0.
    apply (list_elem_of_fmap_2 f) in Hk'. by rewrite Heq in Hk'.
Qed.

Lemma assoc_get_Forall2 {W} (R : V → W → Prop) (k : K)
    (l : list (K * V)) (l' : list (K * W)) :
  Forall2 (λ it it', it'.1 = it.1 ∧ R it.2 it'.2) l l' →
  match assoc_get k l with
  | Some v => ∃ v', assoc_get k l' = Some v' ∧ R v v'
  | None => assoc_get k l' = None
  end.
Proof.
  induction 1 as [|[k0 v0] [k1 v1] l l' [Hk HR] Hall IH]; csimpl; [done |].
  simpl in Hk. subst k1. case_decide; [by exists v1 | done].
Qed.

Lemma Forall2_keys {W} (R : V → W → Prop) (l : list (K * V)) (l' : list (K * W)) :
  Forall2 (λ it it', it'.1 = it.1 ∧ R it.2 it'.2) l l' → l'.*1 = l.*1.
Proof.
  induction 1 as [|[k0 v0] [k1 v1] l l' [Hk HR] Hall IH]; csimpl; [done |].
  simpl in Hk. by f_equal.
Qed.

End dict_updates.

(** *** The flat keys *)

Lemma list_ascii_app (s t : string) :
  String.list_ascii_of_string (s +:+ t) = String.list_ascii_of_string s ++ String.list_ascii_of_string t.
Proof. induction s as [|c s IH]; simpl; [done | by rewrite IH]. Qed.

Lemma list_ascii_inj (s t : string) :
  String.list_ascii_of_string s = String.list_ascii_of_string t → s = t.
Proof.
  intros H. rewrite <-(String.string_of_list_ascii_of_string s),
    <-(String.string_of_list_ascii_of_string t). by rewrite H.
Qed.

Lemma flat_key_inj (suffix : string) (k k' : key) :
  flat_key suffix k = flat_key suffix k' → str_of_key k = str_of_key k'.
Proof.
  intros [= H]. apply (f_equal String.list_ascii_of_string) in H.
  rewrite !list_ascii_app in H. apply app_inj_2 in H as [H _]; [| done].
  by apply list_ascii_inj.
Qed.

Lemma flat_key_last (suffix : string) (k : key) (s : string) :
  flat_key suffix k = KStr s →
  last (String.list_ascii_of_string suffix) ≠ None →
  last (String.list_ascii_of_string s) = last (String.list_ascii_of_string suffix).
Proof.
  intros [= <-] Hne. rewrite list_ascii_app, last_app.
  by destruct (last (String.list_ascii_of_string suffix)).
Qed.

Lemma flat_keys_NoDup (suffix : string) (ks : list key) :
  NoDup (str_of_key <$> ks) → NoDup (flat_key suffix <$> ks).
Proof.
  induction ks as [|k ks IH]; csimpl; [constructor |].
  intros [Hk Hnd]%NoDup_cons. apply NoDup_cons. split; [| by apply IH].
  intros (k' & Heq & Hin)%list_elem_of_fmap. apply Hk.
  rewrite (flat_key_inj _ _ _ Heq). by apply list_elem_of_fmap_2.
Qed.

Lemma count_key_not_nested (k : key) : flat_key "way_int_count" k ∉ nested_keys.
Proof.
  intros Hin. unfold nested_keys in Hin.
  apply elem_of_cons in Hin as [Hin|Hin];
    [| apply elem_of_cons in Hin as [Hin|Hin]; [| by inversion Hin]];
    by apply flat_key_last in Hin.
Qed.

Lemma prop_key_not_nested (k : key) : flat_key "way_int_prop" k ∉ nested_keys.
Proof.
  intros Hin. unfold nested_keys in Hin.
  apply elem_of_cons in Hin as [Hin|Hin];
    [| apply elem_of_cons in Hin as [Hin|Hin]; [| by inversion Hin]];
    by apply flat_key_last in Hin.
Qed.

Lemma count_key_not_prop (k k' : key) :
  flat_key "way_int_prop" k' ≠ flat_key "way_int_count" k.
Proof.
  intros Heq. unfold flat_key at 2 in Heq.
  apply flat_key_last in Heq; [| done].
  rewrite list_ascii_app, last_app in Heq. done.
Qed.

(** *** Dictionaries on the heap *)

Lemma load_dict_run l d s :
  heap s !! l = Some (ODict d) → load_dict (VRef l) s = (s, Ok (l, d)).
Proof. intros Hl. unfold load_dict, load. by rewrite bind_unfold, Hl. Qed.

Lemma setitem_run l d k x s :
  heap s !! l = Some (ODict d) →
  setitem (VRef l) k x s =
    (State (ns s) (<[l:=ODict (dict_set k x d)]> (heap s)) (trace s), Ok tt).
Proof.
  intros Hl. unfold setitem, modify_dict.
  by erewrite run_bind_Ok by by apply load_dict_run.
Qed.

Lemma delitem_run l d k x s :
  heap s !! l = Some (ODict d) → dict_get k d = Some x →
  delitem (VRef l) k s =
    (State (ns s) (<[l:=ODict (dict_del k d)]> (heap s)) (trace s), Ok tt).
Proof.
  intros Hl Hk. unfold delitem, modify_dict.
  erewrite run_bind_Ok by by apply load_dict_run. cbv beta iota.
  by rewrite Hk.
Qed.

Lemma subscript_run l d k x s :
  heap s !! l = Some (ODict d) → dict_get k d = Some x →
  subscript (VRef l) k s = (s, Ok x).
Proof.
  intros Hl Hk. unfold subscript.
  erewrite run_bind_Ok by by apply load_dict_run. cbv beta iota.
  by rewrite Hk.
Qed.

Lemma subscript_missing l d k s :
  heap s !! l = Some (ODict d) → dict_get k d = None →
  subscript (VRef l) k s = (s, Raise (KeyError (str_of_key k))).
Proof.
  intros Hl Hk. unfold subscript.
  erewrite run_bind_Ok by by apply load_dict_run. cbv beta iota.
  by rewrite Hk.
Qed.

Lemma insert_middle {A} (l1 l2 : list A) (x y : A) :
  <[length l1:=y]> (l1 ++ x :: l2) = l1 ++ y :: l2.
Proof. rewrite insert_app_r_alt by done. by rewrite Nat.sub_diag. Qed.

Lemma lookup_beyond {A} (l1 l2 : list A) (x : A) (i : nat) :
  (length l1 < i)%nat → (l1 ++ x :: l2) !! i = l2 !! (i - S (length l1))%nat.
Proof.
  intros Hi. rewrite lookup_app_r by lia.
  replace (i - length l1)%nat with (S (i - S (length l1))) by lia. done.
Qed.

(** *** [deepcopy] of a dictionary of values and flat dictionaries *)

Lemma deepcopy_atomic depth memo v :
  atomic v → deepcopy_rec depth memo v = mret (memo, v).
Proof. by destruct depth, v. Qed.

Lemma copy_items_atomic copy l' memo its nsp h tr acc :
  (∀ memo v, atomic v → copy memo v = mret (memo, v)) →
  h !! l' = Some (ODict acc) →
  Forall atomic its.*2 →
  copy_items copy l' memo its (State nsp h tr) =
    (State nsp (<[l':=ODict (foldl (λ a it, dict_set it.1 it.2 a) acc its)]> h) tr,
     Ok memo).
Proof.
  intros Hcopy. revert h acc.
  induction its as [|[k v] its IH]; intros h acc Hl Hat; csimpl.
  - by rewrite list_insert_id.
  - apply Forall_cons in Hat as [Hv Hat]. rewrite Hcopy by done.
    rewrite bind_unfold. cbn [mret M_ret].
    erewrite run_bind_Ok by by apply setitem_run. cbn [ns heap trace].
    rewrite IH with (acc := dict_set k v acc); [| | done].
    + by rewrite list_insert_insert_eq.
    + apply list_lookup_insert_eq. by eapply lookup_lt_Some.
Qed.

(** The recursion limit leaves room for the two levels of a statistics
    dictionary. *)
Lemma recursion_limit_levels : ∃ depth, recursion_limit = S (S depth).
Proof. by exists 998%nat. Qed.

Lemma deepcopy_rec_dict depth memo l d s :
  assoc_get l memo = None → heap s !! l = Some (ODict d) →
  deepcopy_rec (S depth) memo (VRef l) s =
    (l' ← alloc (ODict dict_empty);
     memo ← copy_items (deepcopy_rec depth) l' ((l, l') :: memo) (items d);
     mret (memo, VRef l')) s.
Proof.
  intros Hmiss Hl. cbn [deepcopy_rec]. rewrite Hmiss.
  rewrite bind_unfold. unfold load. by rewrite Hl.
Qed.

Section deepcopy_stats.
(** The heap before the copy, and the dictionary to copy, at [l]. *)
Variable h0 : list obj.
Variable l : loc.

Hypothesis not_flat : ∀ di, ¬ flat_at h0 l di.

Lemma copy_of_app extra extra' v v' :
  copy_of h0 extra v v' → copy_of h0 (extra ++ extra') v v'.
Proof.
  intros [?|(li & li' & di & -> & -> & Hf & Hlt & Hl)]; [by left | right].
  exists li, li', di. split_and!; try done. by apply lookup_app_l_Some.
Qed.

Lemma memo_ok_app extra extra' memo :
  memo_ok h0 l extra memo → memo_ok h0 l (extra ++ extra') memo.
Proof.
  intros Hm. eapply Forall_impl; [exact Hm |].
  intros p [?|?]; [by left | right]. by apply copy_of_app.
Qed.

Lemma copy_value depth memo v nsp acc extra tr :
  item_ok h0 v → memo_ok h0 l extra memo →
  ∃ memo' extra' v',
    deepcopy_rec (S depth) memo v (State nsp (h0 ++ ODict acc :: extra) tr) =
      (State nsp (h0 ++ ODict acc :: extra ++ extra') tr, Ok (memo', v')) ∧
    memo_ok h0 l (extra ++ extra') memo' ∧
    copy_of h0 (extra ++ extra') v v'.
Proof.
  intros [Hv|(li & di & -> & Hf)] Hmemo.
  - exists memo, [], v. rewrite deepcopy_atomic by done. rewrite !app_nil_r.
    split_and!; [done | done | by left].
  - destruct (assoc_get li memo) as [li'|] eqn:Hhit.
    + exists memo, [], (VRef li'). rewrite !app_nil_r.
      split_and!; [by cbn [deepcopy_rec]; rewrite Hhit | done |].
      apply assoc_get_Some_elem in Hhit.
      apply (proj1 (Forall_forall _ _) Hmemo) in Hhit as [Heq|Hc]; [| done].
      simpl in Heq. subst li. by destruct (not_flat di).
    + destruct Hf as [Hli Hat].
      set (li' := length (h0 ++ ODict acc :: extra)).
      exists ((li, li') :: memo), [ODict di], (VRef li').
      assert ((length h0 < li')%nat ∧ (li' - S (length h0))%nat = length extra)
        as [Hlt Hsub].
      { unfold li'. rewrite length_app. simpl. lia. }
      assert (copy_of h0 (extra ++ [ODict di]) (VRef li) (VRef li')) as Hcopy.
      { right. exists li, li', di. split_and!; try done.
        rewrite Hsub. by apply list_lookup_middle. }
      split_and!; [| | done].
      * erewrite deepcopy_rec_dict
          by (try done; cbn [heap]; by apply lookup_app_l_Some).
        rewrite bind_unfold. cbn [alloc heap ns trace]. fold li'.
        rewrite bind_unfold.
        rewrite (copy_items_atomic _ _ _ _ _ _ _ dict_empty);
          [| apply deepcopy_atomic | by apply list_lookup_middle | done].
        rewrite foldl_set_items. unfold li'. rewrite insert_middle.
        cbn [mret M_ret]. by rewrite <-!app_assoc.
      * constructor; [by right |]. by apply memo_ok_app.
Qed.

Lemma copy_items_stats depth its memo nsp acc extra tr :
  Forall (item_ok h0) its.*2 → memo_ok h0 l extra memo →
  ∃ memo' extra' its',
    copy_items (deepcopy_rec (S depth)) (length h0) memo its
        (State nsp (h0 ++ ODict acc :: extra) tr) =
      (State nsp
         (h0 ++ ODict (foldl (λ a it, dict_set it.1 it.2 a) acc its')
             :: extra ++ extra') tr,
       Ok memo') ∧
    memo_ok h0 l (extra ++ extra') memo' ∧
    Forall2 (λ it it', it'.1 = it.1 ∧ copy_of h0 (extra ++ extra') it.2 it'.2) its its'.
Proof.
  revert memo acc extra.
  induction its as [|[k v] its IH]; intros memo acc extra Hits Hmemo; csimpl.
  - exists memo, [], []. rewrite app_nil_r. split_and!; [done | done | constructor].
  - apply Forall_cons in Hits as [Hv Hits].
    destruct (copy_value depth memo v nsp acc extra tr Hv Hmemo)
      as (memo1 & e1 & v' & Hrun & Hmemo1 & Hcopy).
    destruct (IH memo1 (dict_set k v' acc) (extra ++ e1) Hits Hmemo1)
      as (memo2 & e2 & its' & Hrun2 & Hmemo2 & Hall).
    exists memo2, (e1 ++ e2), ((k, v') :: its').
    rewrite !app_assoc. split_and!; [| done |].
    + erewrite run_bind_Ok by exact Hrun. cbv beta iota.
      erewrite run_bind_Ok by (apply setitem_run; by apply list_lookup_middle).
      cbn [ns heap trace]. rewrite insert_middle. exact Hrun2.
    + constructor; [| done]. split; [done |]. by apply copy_of_app.
Qed.

Lemma deepcopy_stats (d : dict key pyval) nsp tr :
  h0 !! l = Some (ODict d) →
  Forall (item_ok h0) (items d).*2 →
  ∃ extra d',
    deepcopy (VRef l) (State nsp h0 tr) =
      (State nsp (h0 ++ ODict d' :: extra) tr, Ok (VRef (length h0))) ∧
    Forall2 (λ it it', it'.1 = it.1 ∧ copy_of h0 extra it.2 it'.2) (items d) (items d').
Proof.
  intros Hl Hits. destruct recursion_limit_levels as [depth Hdepth].
  destruct (copy_items_stats depth (items d) [(l, length h0)] nsp dict_empty [] tr Hits)
    as (memo & extra & its' & Hrun & _ & Hall).
  { constructor; [by left | constructor]. }
  pose proof (Forall2_keys _ _ _ Hall) as Hkeys.
  exists extra, (foldl (λ a it, dict_set it.1 it.2 a) dict_empty its').
  split.
  - unfold deepcopy. rewrite Hdepth.
    rewrite bind_unfold. erewrite deepcopy_rec_dict by done.
    rewrite bind_unfold. cbn [alloc heap ns trace]. rewrite bind_unfold.
    cbn [app] in Hrun. by rewrite Hrun.
  - rewrite foldl_set_items_app; [done |]. simpl. rewrite Hkeys. apply dict_NoDup.
Qed.

End deepcopy_stats.

(** *** The loops over [items()] *)

Lemma py_str_key k : py_str (val_of_key k) = mret (str_of_key k).
Proof. by destruct k. Qed.

Lemma for_each_seq (I : nat → state → Prop) (f : nat → M unit) (len : nat) :
  ∀ start s,
    I start s →
    (∀ i s1, (start ≤ i < start + len)%nat → I i s1 →
       ∃ s2, f i s1 = (s2, Ok tt) ∧ I (S i) s2) →
    ∃ s', for_each (seq start len) f s = (s', Ok tt) ∧ I (start + len)%nat s'.
Proof.
  induction len as [|len IH]; intros start s Hs Hstep; simpl.
  - exists s. by rewrite Nat.add_0_r.
  - destruct (Hstep start s) as (s2 & Hrun & Hs2); [lia | done |].
    destruct (IH (S start) s2 Hs2) as (s' & Hrun' & Hs').
    { intros i s1 Hi. apply Hstep. lia. }
    exists s'. erewrite run_bind_Ok by exact Hrun.
    split; [done |]. by rewrite <-Nat.add_succ_comm.
Qed.

(** A loop over the items of the dictionary at [l], which the body leaves
    as it is. *)
Lemma for_items_run (I : nat → state → Prop) l dd body s :
  I 0%nat s →
  (∀ i s1, I i s1 → heap s1 !! l = Some (ODict dd)) →
  (∀ i k v s1, items dd !! i = Some (k, v) → I i s1 →
     ∃ s2, body k v s1 = (s2, Ok tt) ∧ I (S i) s2) →
  ∃ s', for_items l body s = (s', Ok tt) ∧ I (dict_len dd) s'.
Proof.
  intros Hs Hheap Hbody. unfold for_items.
  erewrite run_bind_Ok by (by eapply load_dict_run, Hheap). cbv beta iota zeta.
  assert (∀ i s1, I i s1 →
            next_item l (dict_len dd) i s1 = (s1, Ok (items dd !! i))) as Hnext.
  { intros i s1 Hs1. unfold next_item.
    erewrite run_bind_Ok by (by eapply load_dict_run, Hheap). cbv beta iota.
    by rewrite bool_decide_eq_true_2. }
  destruct (for_each_seq I
    (λ i, it ← next_item l (dict_len dd) i;
          match it with Some (k, v) => body k v | None => mret tt end)
    (dict_len dd) 0%nat s Hs) as (s' & Hrun & Hs').
  { intros i s1 Hi Hs1. erewrite run_bind_Ok by by apply Hnext.
    destruct (lookup_lt_is_Some_2 (items dd) i) as [[k v] Hit];
      [unfold dict_len in Hi; lia |].
    rewrite Hit. by apply Hbody. }
  exists s'. split; [| done].
  erewrite run_bind_Ok by exact Hrun.
  by erewrite run_bind_Ok by by apply Hnext.
Qed.

Section loops.
Variable h0 : list obj.

(** One loop of the cell: the items of the nested dictionary at [li] are set
    in the dictionary at [length h0], each under its flat key. *)
Lemma unpack_loop_run nested suffix var nsp top extra tr li inner :
  nsp !! "stats_unpack" = Some (VRef (length h0)) →
  var ≠ "stats_unpack" → var ≠ "k" →
  dict_get (KStr nested) top = Some (VRef li) →
  (length h0 < li)%nat →
  extra !! (li - S (length h0))%nat = Some (ODict inner) →
  ∃ nsp',
    unpack_loop nested suffix var (State nsp (h0 ++ ODict top :: extra) tr) =
      (State nsp'
         (h0 ++ ODict (foldl (λ a it, dict_set (flat_key suffix it.1) it.2 a)
                         top (items inner)) :: extra) tr,
       Ok tt) ∧
    ∀ x, x ≠ "k" → x ≠ var → nsp' !! x = nsp !! x.
Proof.
  intros Hsu Hvar Hvark Hnested Hlt Hli. unfold unpack_loop.
  erewrite run_bind_Ok by by apply get_var_run.
  erewrite run_bind_Ok
    by (eapply subscript_run; [by apply list_lookup_middle | done]).
  erewrite run_bind_Ok
    by (apply load_dict_run; cbn [heap]; by rewrite lookup_beyond).
  cbv beta iota.
  set (step := λ (a : dict key pyval) (it : key * pyval),
                 dict_set (flat_key suffix it.1) it.2 a).
  destruct (for_items_run
    (λ i s1, ∃ nsp1,
       s1 = State nsp1 (h0 ++ ODict (foldl step top (take i (items inner))) :: extra) tr ∧
       nsp1 !! "stats_unpack" = Some (VRef (length h0)) ∧
       ∀ x, x ≠ "k" → x ≠ var → nsp1 !! x = nsp !! x)
    li inner
    (λ k v,
       assign "k" (val_of_key k);;
       assign var v;;
       x ← get_var var;
       su ← get_var "stats_unpack";
       kv ← get_var "k";
       ks ← py_str kv;
       setitem su (KStr (ks +:+ suffix)) x)
    (State nsp (h0 ++ ODict top :: extra) tr))
    as (s' & Hrun & nsp' & -> & _ & Hns).
  - by exists nsp.
  - intros i s1 (nsp1 & -> & _). cbn [heap]. by rewrite lookup_beyond.
  - intros i k v s1 Hit (nsp1 & -> & Hsu1 & Hns1).
    eexists. split.
    + rewrite bind_unfold. cbn [assign]. rewrite bind_unfold. cbn [assign ns heap trace].
      erewrite run_bind_Ok by (apply get_var_run; cbn [ns]; apply lookup_insert_eq).
      erewrite run_bind_Ok
        by (apply get_var_run; cbn [ns]; by rewrite !lookup_insert_ne).
      erewrite run_bind_Ok
        by (apply get_var_run; cbn [ns];
            by rewrite lookup_insert_ne, lookup_insert_eq).
      rewrite py_str_key. rewrite bind_unfold. cbn [mret M_ret].
      erewrite setitem_run by (by apply list_lookup_middle).
      cbn [ns heap trace]. rewrite insert_middle. reflexivity.
    + eexists. split; [| split].
      * rewrite (take_S_r _ _ _ Hit), foldl_snoc. done.
      * by rewrite !lookup_insert_ne.
      * intros x Hxk Hxv. rewrite !lookup_insert_ne by done. by apply Hns1.
  - exists nsp'. split; [| done]. rewrite Hrun.
    unfold dict_len. by rewrite take_ge.
Qed.

End loops.

(** *** The cell *)

(** The table at the end of the cell: whatever pandas does, the store is
    left as it is and the first call is [pd.Series] on the dictionary. *)
Lemma table_run L (d : dict key pyval) s :
  ∃ rest,
    ns ((ser ← lib_call L (pd_Series d (Some "value"));
         df ← lib_call L (pd_DataFrame ser);
         lib_call L (df_round df 3);;
         mret tt) s).1 = ns s ∧
    heap ((ser ← lib_call L (pd_Series d (Some "value"));
           df ← lib_call L (pd_DataFrame ser);
           lib_call L (df_round df 3);;
           mret tt) s).1 = heap s ∧
    trace ((ser ← lib_call L (pd_Series d (Some "value"));
            df ← lib_call L (pd_DataFrame ser);
            lib_call L (df_round df 3);;
            mret tt) s).1 =
      trace s ++ (pd_Series d (Some "value"),
                  outcome (L (pd_Series d (Some "value")))) :: rest.
Proof.
  destruct (L (pd_Series d (Some "value"))) as [ser|e] eqn:Hser.
  2:{ exists []. erewrite run_bind_Raise
        by by apply (lib_call_raise L (pd_Series d (Some "value"))).
      done. }
  erewrite run_bind_Ok by by apply (lib_call_run L (pd_Series d (Some "value"))).
  destruct (L (pd_DataFrame ser)) as [df|e] eqn:Hdf.
  2:{ eexists. erewrite run_bind_Raise
        by by apply (lib_call_raise L (pd_DataFrame ser)).
      cbn [fst ns heap trace outcome]. rewrite <-app_assoc. done. }
  erewrite run_bind_Ok by by apply (lib_call_run L (pd_DataFrame ser)).
  destruct (L (df_round df 3)) as [r|e] eqn:Hr.
  2:{ eexists. erewrite run_bind_Raise
        by by apply (lib_call_raise L (df_round df 3)).
      cbn [fst ns heap trace outcome]. rewrite <-!app_assoc. done. }
  erewrite run_bind_Ok by by apply (lib_call_run L (df_round df 3)).
  eexists. cbn [mret M_ret fst ns heap trace outcome]. rewrite <-!app_assoc. done.
Qed.

(** The run of the cell up to the table: [stats_unpack] is bound to the
    copy [d'] of [d], updated by the two loops and the two [del]. *)
Lemma stats_unpack_run L nsp h0 tr (pd : pyval) (l lc lp : loc)
    (d counts props : dict key pyval) :
  nsp !! "stats" = Some (VRef l) →
  nsp !! "pd" = Some pd →
  h0 !! l = Some (ODict d) →
  dict_get (KStr "streets_per_node_counts") d = Some (VRef lc) →
  h0 !! lc = Some (ODict counts) →
  dict_get (KStr "streets_per_node_proportions") d = Some (VRef lp) →
  h0 !! lp = Some (ODict props) →
  Forall (item_ok h0) (items d).*2 →
  ∃ extra d' nsp2,
    cell_stats_unpack L (State nsp h0 tr) =
      (ser ← lib_call L
         (pd_Series
            (dict_del (KStr "streets_per_node_proportions")
               (dict_del (KStr "streets_per_node_counts")
                  (foldl (λ a it, dict_set (flat_key "way_int_prop" it.1) it.2 a)
                     (foldl (λ a it, dict_set (flat_key "way_int_count" it.1) it.2 a)
                        d' (items counts))
                     (items props))))
            (Some "value"));
       df ← lib_call L (pd_DataFrame ser);
       lib_call L (df_round df 3);;
       mret tt)
      (State nsp2
         (h0 ++ ODict
            (dict_del (KStr "streets_per_node_proportions")
               (dict_del (KStr "streets_per_node_counts")
                  (foldl (λ a it, dict_set (flat_key "way_int_prop" it.1) it.2 a)
                     (foldl (λ a it, dict_set (flat_key "way_int_count" it.1) it.2 a)
                        d' (items counts))
                     (items props)))) :: extra) tr) ∧
    Forall2 (λ it it', it'.1 = it.1 ∧ copy_of h0 extra it.2 it'.2)
      (items d) (items d') ∧
    nsp2 !! "stats_unpack" = Some (VRef (length h0)).
Proof.
  intros Hstats Hpd Hl Hc Hlc Hp Hlp Hshape.
  set (kc := KStr "streets_per_node_counts") in *.
  set (kp := KStr "streets_per_node_proportions") in *.
  assert (kc ≠ kp) as Hkcp by done.
  assert (∀ di, ¬ flat_at h0 l di) as Hnf.
  { intros di [Hdi Hat]. assert (di = d) as -> by congruence.
    apply dict_get_item in Hc.
    apply (list_elem_of_fmap_2 snd) in Hc.
    by apply (proj1 (Forall_forall _ _) Hat) in Hc. }
  (* the copy *)
  destruct (deepcopy_stats h0 l Hnf d
              (<["deepcopy":=VOpaque "copy.deepcopy"]> nsp) tr Hl Hshape)
    as (extra & d' & Hcopy & Hall).
  assert (∀ k li di, dict_get k d = Some (VRef li) → h0 !! li = Some (ODict di) →
            ∃ li', dict_get k d' = Some (VRef li') ∧ (length h0 < li')%nat ∧
                   extra !! (li' - S (length h0))%nat = Some (ODict di)) as Hnested.
  { intros k li di Hk Hli.
    pose proof (assoc_get_Forall2 _ k _ _ Hall) as Hrel.
    unfold dict_get in Hk. rewrite Hk in Hrel.
    destruct Hrel as (v' & Hk' & [[[] _]|(li0 & li' & di0 & [= <-] & -> & [Hdi0 _] & Hlt & Hex)]).
    exists li'. split_and!; [done | done |]. rewrite Hex. congruence. }
  destruct (Hnested kc lc counts Hc Hlc) as (lc' & Hc' & Hltc & Hexc).
  destruct (Hnested kp lp props Hp Hlp) as (lp' & Hp' & Hltp & Hexp).
  (* the two loops *)
  set (nsp0 := <["stats_unpack":=VRef (length h0)]>
                 (<["deepcopy":=VOpaque "copy.deepcopy"]> nsp)).
  destruct (unpack_loop_run h0 "streets_per_node_counts" "way_int_count" "count"
              nsp0 d' extra tr lc' counts) as (nsp1 & Hloop1 & Hns1); try done.
  { apply lookup_insert_eq. }
  set (top1 := foldl (λ a it, dict_set (flat_key "way_int_count" it.1) it.2 a)
                 d' (items counts)) in *.
  assert (∀ k, k ∈ nested_keys → dict_get k top1 = dict_get k d') as Htop1.
  { intros k Hk. apply dict_get_foldl_other. intros k' Hk' Heq. subst k.
    by apply count_key_not_nested in Hk. }
  assert (kc ∈ nested_keys ∧ kp ∈ nested_keys) as [Hkc Hkp].
  { split; [left | right; left]. }
  destruct (unpack_loop_run h0 "streets_per_node_proportions" "way_int_prop"
              "proportion" nsp1 top1 extra tr lp' props) as (nsp2 & Hloop2 & Hns2);
    try done.
  { rewrite Hns1 by done. apply lookup_insert_eq. }
  { rewrite Htop1 by done. done. }
  set (top2 := foldl (λ a it, dict_set (flat_key "way_int_prop" it.1) it.2 a)
                 top1 (items props)) in *.
  assert (∀ k, k ∈ nested_keys → dict_get k top2 = dict_get k top1) as Htop2.
  { intros k Hk. apply dict_get_foldl_other. intros k' Hk' Heq. subst k.
    by apply prop_key_not_nested in Hk. }
  assert (nsp2 !! "stats_unpack" = Some (VRef (length h0))) as Hsu2.
  { rewrite Hns2, Hns1 by done. apply lookup_insert_eq. }
  assert (nsp2 !! "pd" = Some pd) as Hpd2.
  { rewrite Hns2, Hns1 by done. unfold nsp0. by rewrite !lookup_insert_ne. }
  (* the run of the cell *)
  exists extra, d', nsp2. split_and!; [| done | done].
  unfold cell_stats_unpack.
  rewrite bind_unfold. cbn [assign ns heap trace].
  erewrite run_bind_Ok by (apply get_var_run; apply lookup_insert_eq).
  erewrite run_bind_Ok
    by (apply get_var_run; cbn [ns]; by rewrite lookup_insert_ne).
  erewrite run_bind_Ok by exact Hcopy.
  rewrite bind_unfold. cbn [assign ns heap trace]. fold nsp0.
  unfold flatten.
  erewrite run_bind_Ok by exact Hloop1.
  erewrite run_bind_Ok by exact Hloop2.
  erewrite run_bind_Ok by by apply get_var_run.
  erewrite run_bind_Ok.
  2:{ eapply delitem_run; [by apply list_lookup_middle |].
      rewrite Htop2, Htop1 by done. exact Hc'. }
  cbn [ns heap trace]. rewrite insert_middle.
  erewrite run_bind_Ok by by apply get_var_run.
  erewrite run_bind_Ok.
  2:{ eapply delitem_run; [by apply list_lookup_middle |].
      rewrite dict_get_del_ne by done. rewrite Htop2, Htop1 by done. exact Hp'. }
  cbn [ns heap trace]. rewrite insert_middle.
  erewrite run_bind_Ok by by apply get_var_run.
  erewrite run_bind_Ok by by apply get_var_run.
  erewrite run_bind_Ok by by apply get_var_run.
  erewrite run_bind_Ok by (apply load_dict_run; by apply list_lookup_middle).
  done.
Qed.

(** X9: the cell flattens the copy.  Where [stats] is a dictionary of numbers
    and strings with the two nested dictionaries of counts and proportions,
    [stats_unpack] is bound to a new dictionary, in which each count and each
    proportion stands under its flat key, the two nested keys are gone, every
    other key has the value it has in [stats], and no value is a nested
    object; the table is made from that dictionary. *)
Theorem flatten_result L (s : state) (pd : pyval) (l lc lp : loc)
    (d counts props : dict key pyval) :
  ns s !! "stats" = Some (VRef l) →
  ns s !! "pd" = Some pd →
  heap s !! l = Some (ODict d) →
  dict_get (KStr "streets_per_node_counts") d = Some (VRef lc) →
  heap s !! lc = Some (ODict counts) →
  dict_get (KStr "streets_per_node_proportions") d = Some (VRef lp) →
  heap s !! lp = Some (ODict props) →
  Forall (λ it, it.1 ∈ nested_keys ∨ atomic it.2) (items d) →
  Forall atomic (items counts).*2 →
  Forall atomic (items props).*2 →
  NoDup (str_of_key <$> dict_keys counts) →
  NoDup (str_of_key <$> dict_keys props) →
  ∃ flat rest,
    ns (cell_stats_unpack L s).1 !! "stats_unpack" = Some (VRef (length (heap s))) ∧
    heap (cell_stats_unpack L s).1 !! length (heap s) = Some (ODict flat) ∧
    trace (cell_stats_unpack L s).1 =
      trace s ++ (pd_Series flat (Some "value"),
                  outcome (L (pd_Series flat (Some "value")))) :: rest ∧
    (∀ k v, dict_get k counts = Some v →
       dict_get (flat_key "way_int_count" k) flat = Some v) ∧
    (∀ k v, dict_get k props = Some v →
       dict_get (flat_key "way_int_prop" k) flat = Some v) ∧
    (∀ k, k ∈ nested_keys → dict_get k flat = None) ∧
    (∀ k, k ∉ nested_keys →
       k ∉ flat_key "way_int_count" <$> dict_keys counts →
       k ∉ flat_key "way_int_prop" <$> dict_keys props →
       dict_get k flat = dict_get k d) ∧
    (∀ k v, dict_get k flat = Some v → atomic v).
Proof.
  destruct s as [nsp h0 tr]. cbn [ns heap trace].
  intros Hstats Hpd Hl Hc Hlc Hp Hlp Hd Hcounts Hprops Hndc Hndp.
  assert (∀ k v, dict_get k d = Some v → k ∉ nested_keys → atomic v) as Hother.
  { intros k v Hk%dict_get_item Hnk.
    by apply (proj1 (Forall_forall _ _) Hd) in Hk as [?|?]. }
  assert (Forall (item_ok h0) (items d).*2) as Hshape.
  { apply Forall_fmap, Forall_forall. intros [k v] Hin. simpl.
    pose proof (proj1 (Forall_forall _ _) Hd _ Hin) as [Hk|Hv]; [| by left].
    apply dict_get_item in Hin. right. simpl in Hk. unfold nested_keys in Hk.
    apply elem_of_cons in Hk as [->|Hk].
    - exists lc, counts. split; [congruence | done].
    - apply elem_of_cons in Hk as [->|Hk]; [| by inversion Hk].
      exists lp, props. split; [congruence | done]. }
  destruct (stats_unpack_run L nsp h0 tr pd l lc lp d counts props)
    as (extra & d' & nsp2 & Hrun & Hall & Hsu2); try done.
  set (kc := KStr "streets_per_node_counts") in *.
  set (kp := KStr "streets_per_node_proportions") in *.
  assert (kc ≠ kp) as Hkcp by done.
  assert (kc ∈ nested_keys ∧ kp ∈ nested_keys) as [Hkc Hkp].
  { split; [left | right; left]. }
  set (top1 := foldl (λ a it, dict_set (flat_key "way_int_count" it.1) it.2 a)
                 d' (items counts)) in *.
  set (top2 := foldl (λ a it, dict_set (flat_key "way_int_prop" it.1) it.2 a)
                 top1 (items props)) in *.
  set (flat := dict_del kp (dict_del kc top2)) in *.
  assert (∀ k, k ∉ nested_keys → dict_get k d' = dict_get k d) as Hsame.
  { intros k Hk. pose proof (assoc_get_Forall2 _ k _ _ Hall) as Hrel.
    unfold dict_get. destruct (assoc_get k (items d)) as [v|] eqn:Hv; [| done].
    destruct Hrel as (v' & -> & [[_ ->]|(li0 & ? & ? & -> & _)]); [done |].
    by destruct (Hother k (VRef li0)). }
  assert (∀ k, k ∉ flat_key "way_int_count" <$> dict_keys counts →
            dict_get k top1 = dict_get k d') as Htop1.
  { intros k Hk. apply dict_get_foldl_other. intros k' Hk' Heq. apply Hk.
    rewrite <-Heq. by apply list_elem_of_fmap_2. }
  assert (∀ k, k ∉ flat_key "way_int_prop" <$> dict_keys props →
            dict_get k top2 = dict_get k top1) as Htop2.
  { intros k Hk. apply dict_get_foldl_other. intros k' Hk' Heq. apply Hk.
    rewrite <-Heq. by apply list_elem_of_fmap_2. }
  destruct (table_run L flat (State nsp2 (h0 ++ ODict flat :: extra) tr))
    as (rest & Hns & Hheap & Htrace).
  (* the flat dictionary *)
  assert (∀ k v, dict_get k counts = Some v →
            dict_get (flat_key "way_int_count" k) flat = Some v) as Hflat_c.
  { intros k v Hk%dict_get_item. unfold flat.
    rewrite !dict_get_del_ne
      by (intros Heq; eapply count_key_not_nested; rewrite <-Heq; done).
    rewrite Htop2.
    - apply dict_get_foldl_hit; [| done].
      by apply (flat_keys_NoDup "way_int_count") in Hndc.
    - intros (k' & Heq & _)%list_elem_of_fmap. symmetry in Heq.
      by apply count_key_not_prop in Heq. }
  assert (∀ k v, dict_get k props = Some v →
            dict_get (flat_key "way_int_prop" k) flat = Some v) as Hflat_p.
  { intros k v Hk%dict_get_item. unfold flat.
    rewrite !dict_get_del_ne
      by (intros Heq; eapply prop_key_not_nested; rewrite <-Heq; done).
    apply dict_get_foldl_hit; [| done].
    by apply (flat_keys_NoDup "way_int_prop") in Hndp. }
  assert (∀ k, k ∈ nested_keys → dict_get k flat = None) as Hflat_n.
  { intros k Hk. unfold nested_keys in Hk. fold kc kp in Hk. unfold flat.
    apply elem_of_cons in Hk as [->|Hk].
    - rewrite dict_get_del_ne by done. apply dict_get_del_eq.
    - apply elem_of_cons in Hk as [->|Hk]; [| by inversion Hk].
      apply dict_get_del_eq. }
  assert (∀ k, k ∉ nested_keys →
            k ∉ flat_key "way_int_count" <$> dict_keys counts →
            k ∉ flat_key "way_int_prop" <$> dict_keys props →
            dict_get k flat = dict_get k d) as Hflat_o.
  { intros k Hk Hkc' Hkp'. unfold flat.
    rewrite !dict_get_del_ne by (intros <-; by apply Hk).
    rewrite Htop2, Htop1 by done. by apply Hsame. }
  exists flat, rest. rewrite Hrun, Hns, Hheap, Htrace. cbn [ns heap trace].
  split_and!; [done | by apply list_lookup_middle | done | done | done | done | done |].
  intros k v Hk.
  destruct (decide (k ∈ flat_key "way_int_prop" <$> dict_keys props))
    as [(k' & -> & Hk')%list_elem_of_fmap|Hkp'].
  { apply dict_get_is_Some in Hk' as [v' Hv'].
    rewrite (Hflat_p k' v' Hv') in Hk. injection Hk as <-.
    apply dict_get_item, (list_elem_of_fmap_2 snd) in Hv'.
    by apply (proj1 (Forall_forall _ _) Hprops) in Hv'. }
  destruct (decide (k ∈ flat_key "way_int_count" <$> dict_keys counts))
    as [(k' & -> & Hk')%list_elem_of_fmap|Hkc'].
  { apply dict_get_is_Some in Hk' as [v' Hv'].
    rewrite (Hflat_c k' v' Hv') in Hk. injection Hk as <-.
    apply dict_get_item, (list_elem_of_fmap_2 snd) in Hv'.
    by apply (proj1 (Forall_forall _ _) Hcounts) in Hv'. }
  destruct (decide (k ∈ nested_keys)) as [Hkn|Hkn].
  { by rewrite Hflat_n in Hk. }
  rewrite Hflat_o in Hk by done. by eapply Hother.
Qed.

Lemma flatten_result_witness :
  ∃ flat rest,
    ns (cell_stats_unpack sample_library stats_state).1 !! "stats_unpack"
      = Some (VRef 3) ∧
    heap (cell_stats_unpack sample_library stats_state).1 !! 3%nat
      = Some (ODict flat) ∧
    trace (cell_stats_unpack sample_library stats_state).1 =
      [] ++ (pd_Series flat (Some "value"),
             outcome (sample_library (pd_Series flat (Some "value")))) :: rest ∧
    (∀ k v, dict_get k (Dict [(KInt 1, VInt 2); (KInt 3, VInt 1)] I) = Some v →
       dict_get (flat_key "way_int_count" k) flat = Some v) ∧
    (∀ k v,
       dict_get k (Dict [(KInt 1, VFloat 0.75%Q); (KInt 3, VFloat 0.25%Q)] I)
         = Some v →
       dict_get (flat_key "way_int_prop" k) flat = Some v) ∧
    (∀ k, k ∈ nested_keys → dict_get k flat = None) ∧
    (∀ k, k ∉ nested_keys →
       k ∉ flat_key "way_int_count" <$>
             dict_keys (Dict [(KInt 1, VInt 2); (KInt 3, VInt 1)] I) →
       k ∉ flat_key "way_int_prop" <$>
             dict_keys (Dict [(KInt 1, VFloat 0.75%Q); (KInt 3, VFloat 0.25%Q)] I) →
       dict_get k flat =
         dict_get k (Dict [ (KStr "n", VInt 3);
                            (KStr "streets_per_node_counts", VRef 0);
                            (KStr "streets_per_node_proportions", VRef 1) ] I)) ∧
    (∀ k v, dict_get k flat = Some v → atomic v).
Proof.
  apply (flatten_result sample_library stats_state (VOpaque "pandas")
           2%nat 0%nat 1%nat); try reflexivity.
  - repeat constructor; simpl; first [by right | left; set_solver].
  - repeat constructor.
  - repeat constructor.
  - by apply (bool_decide_unpack (NoDup ["1"; "3"])).
  - by apply (bool_decide_unpack (NoDup ["1"; "3"])).
Defined.

(** [deepcopy] of a dictionary of numbers and strings is one new object
    with the same items. *)
Lemma deepcopy_flat (d : dict key pyval) l nsp h0 tr :
  h0 !! l = Some (ODict d) → Forall atomic (items d).*2 →
  deepcopy (VRef l) (State nsp h0 tr) =
    (State nsp (h0 ++ [ODict d]) tr, Ok (VRef (length h0))).
Proof.
  intros Hl Hat. destruct recursion_limit_levels as [depth Hdepth].
  unfold deepcopy. rewrite Hdepth, bind_unfold.
  erewrite deepcopy_rec_dict by done.
  rewrite bind_unfold. cbn [alloc heap ns trace]. rewrite bind_unfold.
  rewrite (copy_items_atomic _ _ _ _ _ _ _ dict_empty);
    [| apply deepcopy_atomic | by apply list_lookup_middle | done].
  rewrite foldl_set_items, insert_middle. done.
Qed.

(** X10: where [stats] holds numbers and strings only and has no key
    [streets_per_node_counts], the cell stops at the first loop with
    [KeyError]: [stats_unpack] is bound to the copy, which has the items of
    [stats], and no table is made. *)
Theorem flatten_missing_key L (s : state) (l : loc) (d : dict key pyval) :
  ns s !! "stats" = Some (VRef l) →
  heap s !! l = Some (ODict d) →
  Forall atomic (items d).*2 →
  dict_get (KStr "streets_per_node_counts") d = None →
  cell_stats_unpack L s =
    (State (<["stats_unpack":=VRef (length (heap s))]>
              (<["deepcopy":=VOpaque "copy.deepcopy"]> (ns s)))
           (heap s ++ [ODict d]) (trace s),
     Raise (KeyError "streets_per_node_counts")).
Proof.
  destruct s as [nsp h0 tr]. cbn [ns heap trace]. intros Hstats Hl Hat Hmiss.
  unfold cell_stats_unpack.
  rewrite bind_unfold. cbn [assign ns heap trace].
  erewrite run_bind_Ok by (apply get_var_run; apply lookup_insert_eq).
  erewrite run_bind_Ok
    by (apply get_var_run; cbn [ns]; by rewrite lookup_insert_ne).
  erewrite run_bind_Ok by by apply deepcopy_flat.
  rewrite bind_unfold. cbn [assign ns heap trace].
  unfold flatten. erewrite run_bind_Raise; [done |].
  unfold unpack_loop.
  erewrite run_bind_Ok by (apply get_var_run; apply lookup_insert_eq).
  erewrite run_bind_Raise; [done |].
  eapply subscript_missing; [by apply list_lookup_middle | done].
Qed.

Lemma flatten_missing_key_witness :
  cell_stats_unpack sample_library
      (State (<["stats" := VRef 0]> ∅) [ODict (Dict [(KStr "n", VInt 3)] I)] []) =
    (State (<["stats_unpack":=VRef 1]>
              (<["deepcopy":=VOpaque "copy.deepcopy"]> (<["stats" := VRef 0]> ∅)))
           ([ODict (Dict [(KStr "n", VInt 3)] I)]
              ++ [ODict (Dict [(KStr "n", VInt 3)] I)]) [],
     Raise (KeyError "streets_per_node_counts")).
Proof.
  refine (flatten_missing_key sample_library
            (State (<["stats" := VRef 0]> ∅) [ODict (Dict [(KStr "n", VInt 3)] I)] [])
            0%nat (Dict [(KStr "n", VInt 3)] I) _ _ _ _); try reflexivity.
  repeat constructor.
Defined.

(** ** The run to completion *)

Lemma wp_ret {A} (a : A) (Q : A → state → Prop) s : Q a s → wp (mret a) Q s.
Proof. intros HQ. by exists s, a. Qed.

Lemma wp_bind {A B} (m : M A) (f : A → M B) (Q : B → state → Prop) s :
  wp m (λ a s1, wp (f a) Q s1) s → wp (m ≫= f) Q s.
Proof.
  intros (s1 & a & Hm & s2 & b & Hf & HQ). exists s2, b.
  by erewrite run_bind_Ok by exact Hm.
Qed.

Lemma wp_run {A} (m : M A) (Q : A → state → Prop) s s' a :
  m s = (s', Ok a) → Q a s' → wp m Q s.
Proof. intros Hm HQ. by exists s', a. Qed.

Lemma wp_get_var x v (Q : pyval → state → Prop) s :
  ns s !! x = Some v → Q v s → wp (get_var x) Q s.
Proof. intros Hx. by apply wp_run, get_var_run. Qed.

Lemma wp_get_graph x l g (Q : loc * graph → state → Prop) s :
  ns s !! x = Some (VRef l) → heap s !! l = Some (OGraph g) →
  Q (l, g) s → wp (get_graph x) Q s.
Proof. intros Hx Hl. by apply wp_run, get_graph_run. Qed.

Lemma wp_get_frame x df (Q : frame → state → Prop) s :
  ns s !! x = Some (VFrame df) → Q df s → wp (get_frame x) Q s.
Proof. intros Hx. by apply wp_run, get_frame_run. Qed.

Lemma wp_assign x v (Q : unit → state → Prop) s :
  Q tt (State (<[x:=v]> (ns s)) (heap s) (trace s)) → wp (assign x v) Q s.
Proof. by apply wp_run. Qed.

Lemma wp_alloc o (Q : loc → state → Prop) s :
  Q (length (heap s)) (State (ns s) (heap s ++ [o]) (trace s)) → wp (alloc o) Q s.
Proof. by apply wp_run. Qed.

Lemma wp_lib_call L c r (Q : ret_ty c → state → Prop) s :
  L c = Ok r →
  Q r (State (ns s) (heap s) (trace s ++ [(c, None)])) → wp (lib_call L c) Q s.
Proof. intros Hc. by apply wp_run, lib_call_run. Qed.

Lemma wp_lift {A} (r : result A) a (Q : A → state → Prop) s :
  r = Ok a → Q a s → wp (lift r) Q s.
Proof. intros ->. by apply wp_run. Qed.

Lemma wp_run_from i c cs s :
  wp c (λ _ s1, ∃ s', run_from (S i) cs s1 = (s', Completed)) s →
  ∃ s', run_from i (c :: cs) s = (s', Completed).
Proof. intros (s1 & [] & Hc & s' & Hrun). exists s'. cbn [run_from]. by rewrite Hc. Qed.

Lemma wp_unpack2 a b (Q : pyval * pyval → state → Prop) s :
  Q (a, b) s → wp (unpack2 (VTuple [a; b])) Q s.
Proof. by apply wp_run. Qed.

Lemma wp_as_scores d (Q : dict node pyfloat → state → Prop) s :
  Q d s → wp (as_scores (VScores d)) Q s.
Proof. by apply wp_run. Qed.

Lemma wp_as_str x (Q : string → state → Prop) s :
  Q x s → wp (as_str (VStr x)) Q s.
Proof. by apply wp_run. Qed.

Lemma wp_load_dict l d (Q : loc * dict key pyval → state → Prop) s :
  heap s !! l = Some (ODict d) → Q (l, d) s → wp (load_dict (VRef l)) Q s.
Proof. intros Hl. by apply wp_run, load_dict_run. Qed.

Lemma wp_nx_set_node_attributes l g d name (Q : unit → state → Prop) s :
  heap s !! l = Some (OGraph g) →
  Q tt (State (ns s) (<[l:=OGraph (set_node_attributes g d name)]> (heap s)) (trace s)) →
  wp (nx_set_node_attributes (VRef l) d name) Q s.
Proof.
  intros Hl. apply wp_run. unfold nx_set_node_attributes, load_graph, load.
  by rewrite !bind_unfold, Hl.
Qed.

Lemma wp_highlight hit miss l g m (Q : pyval → state → Prop) s :
  ns s !! "hk_graph" = Some (VRef l) →
  heap s !! l = Some (OGraph g) →
  ns s !! "max_node" = Some m →
  Q (VList ((λ node, if int_eq node m then hit else miss) <$> graph_nodes g)) s →
  wp (highlight hit miss) Q s.
Proof. intros Hv Hl Hm. apply wp_run. by apply (highlight_run s l g m). Qed.

(** *** The boundary and its polygon *)

Lemma frame_attr_Ok name df i :
  col_index name df = Some i →
  frame_attr name df = Ok ((λ r, (r_label r, row_cell i r)) <$> f_rows df).
Proof. intros Hi. unfold frame_attr. by rewrite Hi. Qed.

Lemma chiyoda_geometry_Ok (s : state) (df : frame) (i j : nat) (r : row) :
  ns s !! "chiyoda" =
    Some (VFrame (frame_getitem_mask df
            (series_eq ((λ r, (r_label r, row_cell i r)) <$> f_rows df) "千代田区"))) →
  col_index "geometry" df = Some j →
  NoDup (r_label <$> f_rows df) →
  r ∈ f_rows df → r_label r = 0 → row_cell i r = CStr "千代田区" →
  chiyoda_geometry s = (s, Ok (row_cell j r)).
Proof.
  intros Hch Hj Hnd Hr Hlbl Hc. unfold chiyoda_geometry.
  erewrite run_bind_Ok by by apply get_frame_run.
  unfold frame_getitem, col_index in *. cbn [frame_getitem_mask f_columns f_rows].
  rewrite Hj, select_rows_filter. rewrite bind_unfold. cbn [lift mret M_ret].
  unfold series_at_label. rewrite <-Hlbl.
  rewrite (assoc_get_rows (row_cell j)); [done | by apply filter_labels_NoDup |].
  apply list_elem_of_In, filter_In. split; [by apply list_elem_of_In |].
  by apply cell_eq_str_true.
Qed.

(** *** The statistics on the heap *)

Lemma materialize_items_run its acc nsp h tr :
  ∃ extra its',
    materialize_items its acc (State nsp h tr) =
      (State nsp (h ++ extra) tr,
       Ok (foldl (λ a it, dict_set it.1 it.2 a) acc its')) ∧
    Forall2 (λ it it', it'.1 = it.1 ∧ placed (h ++ extra) it.2 it'.2) its its'.
Proof.
  revert acc h. induction its as [|[k [v|d]] its IH]; intros acc h.
  - exists [], []. rewrite app_nil_r. split; [done | constructor].
  - destruct (IH (dict_set k v acc) h) as (extra & its' & Hrun & Hall).
    exists extra, ((k, v) :: its'). split; [exact Hrun |].
    constructor; [by split | done].
  - destruct (IH (dict_set k (VRef (length h)) acc) (h ++ [ODict d]))
      as (extra & its' & Hrun & Hall).
    exists (ODict d :: extra), ((k, VRef (length h)) :: its').
    rewrite <-app_assoc in Hrun, Hall. split.
    + cbn [materialize_items]. rewrite bind_unfold. cbn [alloc ns heap trace].
      exact Hrun.
    + constructor; [| done]. split; [done |]. simpl.
      exists (length h). split; [done |]. by apply list_lookup_middle.
Qed.

Lemma materialize_run (st : dict key stat) nsp h tr :
  ∃ extra top,
    materialize st (State nsp h tr) =
      (State nsp ((h ++ extra) ++ [ODict top]) tr, Ok (VRef (length (h ++ extra)))) ∧
    Forall2 (λ it it', it'.1 = it.1 ∧ placed (h ++ extra) it.2 it'.2)
      (items st) (items top).
Proof.
  destruct (materialize_items_run (items st) dict_empty nsp h tr)
    as (extra & its' & Hrun & Hall).
  exists extra, (foldl (λ a it, dict_set it.1 it.2 a) dict_empty its'). split.
  - unfold materialize. erewrite run_bind_Ok by exact Hrun.
    rewrite bind_unfold. by cbn [alloc ns heap trace].
  - rewrite foldl_set_items_app; [done |]. simpl.
    rewrite (Forall2_keys _ _ _ Hall). apply dict_NoDup.
Qed.

(** The statistics dictionary, once on the heap, has the shape the
    flattening cell works on. *)
Lemma placed_stats (st : dict key stat) (top : dict key pyval) (h : list obj) :
  stats_shape st →
  Forall2 (λ it it', it'.1 = it.1 ∧ placed h it.2 it'.2) (items st) (items top) →
  Forall (item_ok (h ++ [ODict top])) (items top).*2 ∧
  (∃ lc counts,
     dict_get (KStr "streets_per_node_counts") top = Some (VRef lc) ∧
     (h ++ [ODict top]) !! lc = Some (ODict counts)) ∧
  (∃ lp props,
     dict_get (KStr "streets_per_node_proportions") top = Some (VRef lp) ∧
     (h ++ [ODict top]) !! lp = Some (ODict props)).
Proof.
  intros (Hflat & [counts Hc] & [props Hp]) Hall.
  assert (∀ k di, dict_get k st = Some (Nested di) →
            ∃ li, dict_get k top = Some (VRef li) ∧
                  (h ++ [ODict top]) !! li = Some (ODict di)) as Hnested.
  { intros k di Hk. pose proof (assoc_get_Forall2 _ k _ _ Hall) as Hrel.
    unfold dict_get in Hk. rewrite Hk in Hrel.
    destruct Hrel as (v' & Hk' & li & -> & Hli).
    exists li. split; [done |]. by apply lookup_app_l_Some. }
  split_and!.
  - clear Hc Hp Hnested.
    assert (∀ i x, h !! i = Some x → (h ++ [ODict top]) !! i = Some x) as Hh0
      by (intros; by apply lookup_app_l_Some).
    revert Hflat Hh0. generalize (h ++ [ODict top]). intros h0 Hflat Hh0.
    revert Hflat. induction Hall as [|[k x] [k' v] l l' [_ Hpl] Hall IH]; csimpl.
    + constructor.
    + intros [Hx Hl]%Forall_cons. constructor; [| by apply IH].
      destruct x as [w|di]; simpl in *.
      * subst. by left.
      * destruct Hpl as (li & -> & Hli). right. exists li, di.
        split; [done |]. split; [by apply Hh0 | done].
  - destruct (Hnested _ _ Hc) as (lc & ? & ?). by exists lc, counts.
  - destruct (Hnested _ _ Hp) as (lp & ? & ?). by exists lp, props.
Qed.

(** *** The cells, one after the other *)

Section completes.
Variable L : library.
Hypothesis HL : well_behaved L.

Lemma wp_table (d : dict key pyval) (Q : unit → state → Prop) s :
  (∀ tr, Q tt (State (ns s) (heap s) tr)) →
  wp (ser ← lib_call L (pd_Series d (Some "value"));
      df ← lib_call L (pd_DataFrame ser);
      lib_call L (df_round df 3);;
      mret tt) Q s.
Proof.
  intros HQ.
  destruct (wb_returns L HL (pd_Series d (Some "value"))) as [ser Hser].
  apply wp_bind, (wp_lib_call L (pd_Series d (Some "value")) ser); [done |].
  destruct (wb_returns L HL (pd_DataFrame ser)) as [df Hdf].
  apply wp_bind, (wp_lib_call L (pd_DataFrame ser) df); [done |].
  destruct (wb_returns L HL (df_round df 3)) as [r Hr].
  apply wp_bind, (wp_lib_call L (df_round df 3) r); [done |].
  apply wp_ret, HQ.
Qed.

Lemma wp_cell_stats_unpack (Q : unit → state → Prop) s (pd : pyval) (l lc lp : loc)
    (d counts props : dict key pyval) :
  ns s !! "stats" = Some (VRef l) →
  ns s !! "pd" = Some pd →
  heap s !! l = Some (ODict d) →
  dict_get (KStr "streets_per_node_counts") d = Some (VRef lc) →
  heap s !! lc = Some (ODict counts) →
  dict_get (KStr "streets_per_node_proportions") d = Some (VRef lp) →
  heap s !! lp = Some (ODict props) →
  Forall (item_ok (heap s)) (items d).*2 →
  (∀ s',
     (∀ x, x ≠ "deepcopy" → x ≠ "stats_unpack" → x ≠ "k" → x ≠ "count" →
           x ≠ "proportion" → ns s' !! x = ns s !! x) →
     (∀ a o, heap s !! a = Some o → heap s' !! a = Some o) →
     Q tt s') →
  wp (cell_stats_unpack L) Q s.
Proof.
  intros Hstats Hpd Hl Hc Hlc Hp Hlp Hshape HQ.
  assert (∃ s', cell_stats_unpack L s = (s', Ok tt)) as [s' Hrun].
  { destruct s as [nsp h0 tr]. cbn [ns heap trace] in *.
    destruct (stats_unpack_run L nsp h0 tr pd l lc lp d counts props)
      as (extra & d' & nsp2 & Hrun & _); try done.
    rewrite Hrun.
    match goal with
    | |- ∃ s', (lib_call L (pd_Series ?flat _) ≫= _) ?s2 = _ =>
        destruct (wp_table flat (λ _ _, True) s2 ltac:(done)) as (s' & [] & Hs' & _)
    end.
    by exists s'. }
  exists s', tt. split; [done |]. apply HQ.
  - intros x ? ? ? ? ?.
    destruct (notebook_effects L 15 (cell_stats_unpack L) eq_refl)
      as (effs & [= <-] & Hglue).
    pose proof (Hglue _ _ (keeps_var_closed L x)) as Hkeep.
    specialize (Hkeep ltac:(repeat constructor; congruence) s).
    by rewrite Hrun in Hkeep.
  - pose proof (old_stats_unpack (heap s) L s ltac:(by intros a o)) as Hold.
    by rewrite Hrun in Hold.
Qed.

End completes.

Local Ltac lk :=
  cbn [ns heap trace]; rewrite ?lookup_insert_ne by done;
  first [eassumption | apply lookup_insert_eq].

Local Ltac hk :=
  cbn [ns heap trace];
  first
    [ eassumption
    | by apply list_lookup_middle
    | apply lookup_app_l_Some; hk
    | apply list_lookup_insert_eq; eapply lookup_lt_Some; hk ].

Local Ltac wp_step L HL :=
  lazymatch goal with
  | |- wp (_ ≫= _) _ _ => apply wp_bind
  | |- wp (mret _) _ _ => apply wp_ret
  | |- wp (get_var _) _ _ => eapply wp_get_var; [lk |]
  | |- wp (get_graph _) _ _ => eapply wp_get_graph; [lk | hk |]
  | |- wp (get_frame _) _ _ => eapply wp_get_frame; [lk |]
  | |- wp (assign _ _) _ _ => apply wp_assign
  | |- wp (alloc _) _ _ => apply wp_alloc
  | |- wp (unpack2 _) _ _ => apply wp_unpack2
  | |- wp (as_scores _) _ _ => apply wp_as_scores
  | |- wp (as_str _) _ _ => apply wp_as_str
  | |- wp (load_dict _) _ _ => eapply wp_load_dict; [hk |]
  | |- wp (lib_call _ (ox_plot_graph ?g ?o)) _ _ =>
      let fig := fresh "fig" in let ax := fresh "ax" in let Hr := fresh "Hr" in
      destruct (wb_plot L HL g o) as (fig & ax & Hr);
      apply (wp_lib_call L (ox_plot_graph g o) (VTuple [fig; ax])); [exact Hr |]
  | |- wp (lib_call _ ?c) _ _ =>
      let r := fresh "r" in let Hr := fresh "Hr" in
      destruct (wb_returns L HL c) as [r Hr];
      apply (wp_lib_call L c r); [exact Hr |]
  end; cbv beta iota; cbn [ns heap trace].

Local Ltac wp_go L HL := repeat wp_step L HL.

(** X13: with libraries that answer every call, that return a figure and its axes
    from [plot_graph], a boundary table with the district in its row
    labelled [0], statistics with the two nested dictionaries and at least
    one centrality score, the notebook runs to its end, from any store: no
    cell raises. *)
Theorem notebook_completes L (s : state) :
  well_behaved L → ∃ s', run_all L s = (s', Completed).
Proof.
  intros HL. unfold run_all, notebook.
  (* cell 0 *)
  apply wp_run_from. unfold cell_install. wp_go L HL.
  (* cell 1: the imports *)
  apply wp_run_from. unfold cell_import. wp_go L HL.
  (* cell 2: the network around the point *)
  apply wp_run_from. unfold cell_graph_from_point. wp_go L HL.
  apply wp_run_from. unfold cell_plot_hk. wp_go L HL.
  (* cell 4: the boundary table *)
  apply wp_run_from. unfold cell_read_boundary. wp_go L HL.
  match goal with
  | H : L (gpd_read_file _) = Ok ?df |- _ =>
      destruct (wb_boundary L HL _ _ H) as (i & j & row & Hi & Hj & Hnd & Hrow & Hlbl & Hc)
  end.
  apply wp_run_from. unfold cell_show_boundary. wp_go L HL.
  (* cell 6: the district *)
  apply wp_run_from. unfold cell_filter_chiyoda. wp_go L HL.
  eapply wp_lift; [by apply frame_attr_Ok |]. wp_go L HL.
  apply wp_run_from. unfold cell_plot_chiyoda. wp_go L HL.
  apply wp_run_from. unfold cell_show_geometry. wp_go L HL.
  eapply wp_run; [eapply chiyoda_geometry_Ok; [lk | done..] |]. wp_go L HL.
  (* cell 9: the network within the polygon *)
  apply wp_run_from. unfold cell_graph_from_polygon. wp_go L HL.
  eapply wp_run; [eapply chiyoda_geometry_Ok; [lk | done..] |]. wp_go L HL.
  apply wp_run_from. unfold cell_plot_chiyoda_graph. wp_go L HL.
  apply wp_run_from. unfold cell_folium. wp_go L HL.
  apply wp_run_from. unfold cell_graph_from_place. wp_go L HL.
  (* cell 13: the statistics *)
  apply wp_run_from. unfold cell_basic_stats. wp_go L HL.
  match goal with
  | H : L (ox_basic_stats _) = Ok ?st |- wp (materialize ?st) _ (State ?n ?h ?t) =>
      destruct (materialize_run st n h t) as (extra & top & Hmat & Hplaced);
      destruct (placed_stats st top _ (wb_stats L HL _ _ H) Hplaced)
        as (Hshape & (lc & counts & Hkc & Hlc) & (lp & props & Hkp & Hlp))
  end.
  eapply wp_run; [exact Hmat |]. wp_go L HL.
  apply wp_run_from. unfold cell_show_stats. wp_go L HL.
  (* cell 15: the flattening *)
  apply wp_run_from.
  eapply (wp_cell_stats_unpack L HL); [lk | lk | hk | exact Hkc | hk | exact Hkp | hk | exact Hshape |].
  intros s15 Hns15 Hheap15. cbn [ns heap trace] in Hns15, Hheap15.
  match goal with
  | H : L (py_import "osmnx") = Ok ?m |- _ =>
      assert (ns s15 !! "ox" = Some m) as Hox by (rewrite Hns15 by done; lk)
  end.
  match goal with
  | H : L (py_import "networkx") = Ok ?m |- _ =>
      assert (ns s15 !! "nx" = Some m) as Hnx by (rewrite Hns15 by done; lk)
  end.
  assert (ns s15 !! "hk_graph" = Some (VRef (length (heap s)))) as Hhk
    by (rewrite Hns15 by done; lk).
  match goal with
  | H : L (ox_graph_from_point _ _ _) = Ok ?g |- _ =>
      assert (heap s15 !! length (heap s) = Some (OGraph g)) as Hg
        by (apply Hheap15; hk)
  end.
  clear Hns15 Hheap15.
  (* cell 16 *)
  apply wp_run_from. unfold cell_street_count_plot. wp_go L HL.
  (* cell 17: the centrality *)
  apply wp_run_from. unfold cell_betweenness. wp_go L HL.
  match goal with
  | H : L (nx_betweenness_centrality _ _) = Ok ?bc |- _ =>
      destruct (py_max_items bc (wb_scores L HL _ _ _ H)) as (mn & mx & Hmax & _)
  end.
  eapply wp_lift; [exact Hmax |]. wp_go L HL.
  (* cell 18: the highlight *)
  apply wp_run_from. unfold cell_highlight. wp_go L HL.
  eapply wp_highlight; [lk | hk | lk |]. wp_go L HL.
  eapply wp_highlight; [lk | hk | lk |]. wp_go L HL.
  unfold highlight_plot. wp_go L HL.
  (* cell 19: the attribute *)
  apply wp_run_from. unfold cell_attach_bc. wp_go L HL.
  eapply wp_nx_set_node_attributes; [hk |]. unfold bc_plot. wp_go L HL.
  (* cells 20 to 22: the exports *)
  apply wp_run_from. unfold cell_save_geopackage. wp_go L HL.
  apply wp_run_from. unfold cell_save_shapefile. wp_go L HL.
  apply wp_run_from. unfold cell_save_svg. wp_go L HL.
  by eexists.
Qed.

Lemma notebook_completes_witness :
  well_behaved sample_library ∧
  ∃ s', run_all sample_library init = (s', Completed).
Proof.
  assert (well_behaved sample_library) as Hwb.
  { split.
    - intros c. destruct c; eexists; reflexivity.
    - intros g o. eexists _, _. reflexivity.
    - intros url df [= <-].
      exists 1%nat, 2%nat,
        (Row 0 [CStr "東京都"; CStr "千代田区";
                CGeom [(0%Q, 0%Q); (1%Q, 0%Q); (1%Q, 1%Q)]]).
      split_and!; try reflexivity.
      + by apply (bool_decide_unpack (NoDup [0; 1; 2])).
      + apply list_elem_of_here.
    - intros g st [= <-]. split_and!.
      + repeat constructor.
      + eexists. reflexivity.
      + eexists. reflexivity.
    - intros g w bc [= <-]. discriminate. }
  split; [exact Hwb |].
  exact (notebook_completes sample_library init Hwb).
Defined.
